(** * The download queue and transfer engine of the streaming client

    A shallow embedding of the download manager of [App.tsx]: the
    [downloads] collection, [requestDownload], [executeDownload],
    [pauseDownload], [deleteDownload], [clearCompleted], the queue
    processor effect and the [localStorage] persistence of the
    collection.

    An asynchronous function is cut at its [await]s: every piece between
    two suspension points is one state transformer, and an [Event] names
    which piece runs next together with what the environment delivers to
    it (a response, a chunk, a clock reading, a storage outcome).  A
    handler or an effect that reads a state variable captured by its
    render takes the captured value as an argument.  JS numbers are
    rationals ([Q]) or integers ([Z]); where a comparison depends on the
    rounding of an operation, the rounding is explicit ([binary64]). *)

From Stdlib Require Import ZArith QArith Qfield Qround Qpower Lqa.
From Stdlib Require Import List Bool Lia.
From stdpp Require Import base strings list gmap.

Open Scope Z_scope.

(** ** Data model ([types.ts]) *)

Inductive Status := queued | downloading | completed | failed | paused.

#[global] Instance Status_eq_dec : EqDecision Status.
Proof. solve_decision. Defined.

Record Movie := mkMovie {
  id : string;
  title : string;
  videoUrl : string;
}.

Record DownloadItem := mkItem {
  movieId : string;
  progress : Q;
  status : Status;
  expiry : Z;
  totalSizeMB : Q;
  downloadedSizeMB : Q;
  speed : option Q;     (* [speed?: number] *)
}.

Definition Chunk := list Byte.byte.
Definition Blob := list Byte.byte.

(** [new Blob(chunks)] and [blob.size]. *)
Definition newBlob (chunks : list Chunk) : Blob := List.concat chunks.
Definition blobSize (b : Blob) : Z := Z.of_nat (length b).

(** Field updates, the [{ ...d, f: v }] of the source. *)
Definition with_status (st : Status) (d : DownloadItem) : DownloadItem :=
  mkItem (movieId d) (progress d) st (expiry d) (totalSizeMB d)
         (downloadedSizeMB d) (speed d).
Definition with_progress (p : Q) (d : DownloadItem) : DownloadItem :=
  mkItem (movieId d) p (status d) (expiry d) (totalSizeMB d)
         (downloadedSizeMB d) (speed d).
Definition with_totalSizeMB (t : Q) (d : DownloadItem) : DownloadItem :=
  mkItem (movieId d) (progress d) (status d) (expiry d) t
         (downloadedSizeMB d) (speed d).
Definition with_downloadedSizeMB (x : Q) (d : DownloadItem) : DownloadItem :=
  mkItem (movieId d) (progress d) (status d) (expiry d) (totalSizeMB d)
         x (speed d).
Definition with_speed (v : Q) (d : DownloadItem) : DownloadItem :=
  mkItem (movieId d) (progress d) (status d) (expiry d) (totalSizeMB d)
         (downloadedSizeMB d) (Some v).

Definition has_status (st : Status) (d : DownloadItem) : bool :=
  bool_decide (status d = st).
Definition is_movie (k : string) (d : DownloadItem) : bool :=
  String.eqb (movieId d) k.

(** [prev.map(d => d.movieId === k ? f d : d)] *)
Definition mapItem (k : string) (f : DownloadItem -> DownloadItem)
    (ds : list DownloadItem) : list DownloadItem :=
  List.map (fun d => if is_movie k d then f d else d) ds.

(** [downloads.filter(d => d.status === 'downloading').length] *)
Definition activeCount (ds : list DownloadItem) : nat :=
  length (List.filter (has_status downloading) ds).

(** [getDownloadStatus]: [downloads.find(d => d.movieId === movieId)] *)
Definition getDownloadStatus (k : string) (ds : list DownloadItem)
    : option DownloadItem :=
  List.find (is_movie k) ds.

(** ** The blob store *)

(** Modelled from the spec: [services/offlineStorage] ([saveVideo],
    [getVideo], [deleteVideo], [getStorageEstimate]) is imported by
    [App.tsx] but is not among the sources.  The contract followed is the
    one of the Blob Store: put stores the bytes under the key,
    overwriting any prior value, and fails with a storage error if the
    quota is exceeded or the underlying storage is unavailable; get
    returns the stored blob or not-found and never fails for a missing
    key; delete removes the entry, is idempotent, and can fail only
    because the underlying storage is unavailable; the usage estimate
    returns (used, quota) in bytes.  Whether the underlying storage is
    available at a call is decided by the environment ([avail]). *)
Record Storage := mkStorage {
  blobs : gmap string Blob;
  quota : Z;
}.

Inductive StorageError := QuotaExceeded | Unavailable.

Definition usage (m : gmap string Blob) : Z :=
  map_fold (fun _ b acc => blobSize b + acc) 0 m.

Definition saveVideo (avail : bool) (k : string) (b : Blob) (st : Storage)
    : StorageError + Storage :=
  if negb avail then inl Unavailable
  else if quota st <? usage (<[k := b]> (blobs st)) then inl QuotaExceeded
  else inr (mkStorage (<[k := b]> (blobs st)) (quota st)).

Definition getVideo (k : string) (st : Storage) : option Blob :=
  blobs st !! k.

Definition deleteVideo (avail : bool) (k : string) (st : Storage)
    : StorageError + Storage :=
  if negb avail then inl Unavailable
  else inr (mkStorage (delete k (blobs st)) (quota st)).

Definition getStorageEstimate (st : Storage) : Z * Z :=
  (usage (blobs st), quota st).

(** ** Application state *)

(** One activation of [executeDownload], suspended at an [await]. *)
Inductive Phase :=
  | AwaitFetch                       (* [await fetch(...)] *)
  | AwaitRead                        (* [await reader.read()] *)
  | AwaitSave (saved : bool).        (* [await saveVideo(...)], with its outcome *)

Record Task := mkTask {
  t_movie : Movie;
  t_phase : Phase;
  t_totalLength : Z;
  t_chunks : list Chunk;
  t_receivedLength : Z;
  t_lastTime : Z;
  t_lastReceived : Z;
}.

(** An [AbortController] is identified by the number of the
    [new AbortController()] call that made it. *)
Definition Controller := nat.

Record AppState := mkApp {
  movies : list Movie;
  downloads : list DownloadItem;
  activeDownloadsRef : gmap string Controller;
  aborted : gset Controller;          (* controllers whose signal has fired *)
  nextController : Controller;
  tasks : gmap Controller Task;       (* activations of [executeDownload] in flight *)
  pendingRemovals : list string;      (* [deleteDownload]s awaiting [deleteVideo] *)
  storage : Storage;
}.

Definition setDownloads (f : list DownloadItem -> list DownloadItem)
    (s : AppState) : AppState :=
  mkApp (movies s) (f (downloads s)) (activeDownloadsRef s) (aborted s)
        (nextController s) (tasks s) (pendingRemovals s) (storage s).
Definition setStorage (st : Storage) (s : AppState) : AppState :=
  mkApp (movies s) (downloads s) (activeDownloadsRef s) (aborted s)
        (nextController s) (tasks s) (pendingRemovals s) st.
Definition setTasks (f : gmap Controller Task -> gmap Controller Task)
    (s : AppState) : AppState :=
  mkApp (movies s) (downloads s) (activeDownloadsRef s) (aborted s)
        (nextController s) (f (tasks s)) (pendingRemovals s) (storage s).
Definition setPending (f : list string -> list string) (s : AppState)
    : AppState :=
  mkApp (movies s) (downloads s) (activeDownloadsRef s) (aborted s)
        (nextController s) (tasks s) (f (pendingRemovals s)) (storage s).

(** [activeDownloadsRef.current.delete(k)] *)
Definition releaseHandle (k : string) (s : AppState) : AppState :=
  mkApp (movies s) (downloads s) (delete k (activeDownloadsRef s)) (aborted s)
        (nextController s) (tasks s) (pendingRemovals s) (storage s).

(** [const controller = activeDownloadsRef.current.get(k);
     if (controller) { controller.abort(); activeDownloadsRef.current.delete(k); }] *)
Definition abortHandle (k : string) (s : AppState) : AppState :=
  match activeDownloadsRef s !! k with
  | Some c =>
      mkApp (movies s) (downloads s) (delete k (activeDownloadsRef s))
            ({[c]} ∪ aborted s) (nextController s) (tasks s)
            (pendingRemovals s) (storage s)
  | None => s
  end.

Definition initialState (catalog : list Movie) (saved : list DownloadItem)
    (st : Storage) : AppState :=
  mkApp catalog saved ∅ ∅ 0%nat ∅ [] st.

(** ** The transfer unit: [executeDownload], piece by piece *)

(** [1024 * 1024] *)
Definition MiB : Q := inject_Z (1024 * 1024).

(** From the call to the first [await]: mark the item, make and register
    the controller, issue the [fetch]. *)
Definition executeDownload (movie : Movie) (s : AppState) : AppState :=
  let c := nextController s in
  mkApp (movies s)
        (mapItem (id movie) (with_status downloading) (downloads s))
        (<[id movie := c]> (activeDownloadsRef s))
        (aborted s) (S c)
        (<[c := mkTask movie AwaitFetch 0 [] 0 0 0]> (tasks s))
        (pendingRemovals s) (storage s).

(** [catch (err)]: the branch is chosen on [err.name]. *)
Definition catchError (name : string) (movie : Movie) (s : AppState)
    : AppState :=
  if String.eqb name "AbortError" then
    setDownloads
      (List.map (fun d =>
         if is_movie (id movie) d && has_status downloading d
         then with_speed 0 (with_status paused d) else d)) s
  else
    setDownloads
      (mapItem (id movie) (fun d => with_speed 0 (with_status failed d))) s.

(** [finally]: the handle registered under the movie id is dropped and
    the activation ends. *)
Definition finally (c : Controller) (movie : Movie) (s : AppState)
    : AppState :=
  setTasks (delete c) (releaseHandle (id movie) s).

(** After [await fetch]: the body check, the [Content-Length] header
    ([contentLength] is the parsed header, [None] when it is absent) and
    the initialisation of the loop variables. *)
Definition fetchResolved (c : Controller) (t : Task) (hasBody : bool)
    (contentLength : option Z) (now : Z) (s : AppState) : AppState :=
  if negb hasBody then finally c (t_movie t) (catchError "Error" (t_movie t) s)
  else
    let totalLength := default 0 contentLength in
    let totalSize := (inject_Z totalLength / MiB)%Q in
    let s1 :=
      if 0 <? totalLength
      then setDownloads
             (mapItem (id (t_movie t)) (with_totalSizeMB totalSize)) s
      else s in
    setTasks (<[c := mkTask (t_movie t) AwaitRead totalLength [] 0 now 0]>) s1.

(** One turn of the [while (true)] loop with [done = false]. *)
Definition chunkRead (c : Controller) (t : Task) (value : Chunk) (now : Z)
    (s : AppState) : AppState :=
  let chunks := t_chunks t ++ [value] in
  let receivedLength := t_receivedLength t + Z.of_nat (length value) in
  let currentSizeMB := (inject_Z receivedLength / MiB)%Q in
  let totalLength := t_totalLength t in
  let totalSize := (inject_Z totalLength / MiB)%Q in
  if 800 <? now - t_lastTime t then
    let bytesDiff := receivedLength - t_lastReceived t in
    let timeDiff := (inject_Z (now - t_lastTime t) / inject_Z 1000)%Q in
    let speed := ((inject_Z bytesDiff / MiB) / timeDiff)%Q in
    let progress :=
      if 0 <? totalLength
      then (inject_Z receivedLength / inject_Z totalLength * inject_Z 100)%Q
      else 0%Q in
    let publish d :=
      with_speed speed
        (with_totalSizeMB (if 0 <? totalLength then totalSize else currentSizeMB)
          (with_downloadedSizeMB currentSizeMB (with_progress progress d))) in
    setTasks (<[c := mkTask (t_movie t) AwaitRead totalLength chunks
                            receivedLength now receivedLength]>)
      (setDownloads (mapItem (id (t_movie t)) publish) s)
  else
    setTasks (<[c := mkTask (t_movie t) AwaitRead totalLength chunks
                            receivedLength (t_lastTime t) (t_lastReceived t)]>) s.

(** [done = true]: leave the loop, assemble the blob and issue
    [saveVideo]; the activation then waits for the store. *)
Definition streamDone (c : Controller) (t : Task) (avail : bool)
    (s : AppState) : AppState :=
  let blob := newBlob (t_chunks t) in
  let waiting ok :=
    <[c := mkTask (t_movie t) (AwaitSave ok) (t_totalLength t) (t_chunks t)
                  (t_receivedLength t) (t_lastTime t) (t_lastReceived t)]> in
  match saveVideo avail (id (t_movie t)) blob (storage s) with
  | inr st => setTasks (waiting true) (setStorage st s)
  | inl _ => setTasks (waiting false) s
  end.

(** After [await saveVideo] (and the storage estimate): the completion
    update, or the [catch] when the store rejected the write; the error
    of the store is a storage error, not an [AbortError]. *)
Definition saveSettled (c : Controller) (t : Task) (saved : bool)
    (s : AppState) : AppState :=
  if saved then
    finally c (t_movie t)
      (setDownloads
         (mapItem (id (t_movie t))
            (fun d => with_speed 0
                        (with_progress (inject_Z 100)
                           (with_status completed d)))) s)
  else finally c (t_movie t) (catchError "StorageError" (t_movie t) s).

(** An awaited [fetch] or [read] rejects with an error named [name]. *)
Definition rejected (c : Controller) (t : Task) (name : string)
    (s : AppState) : AppState :=
  finally c (t_movie t) (catchError name (t_movie t) s).

(** ** The queue manager *)

(** React runs the component function at every render, and the handlers
    and the effect made by a render keep the [downloads] and the [movies]
    of that render, whereas an updater passed to [setDownloads] is given
    the collection as it is when the update is applied ([prev]).  A
    function that reads one of the two captured variables therefore
    takes its value as an argument, [rendered] for [downloads] and
    [catalogue] for [movies], besides the state [s] it runs in: its
    writes, the handles and the store are those of [s]. *)

(** The queue processor effect of a render. *)
Definition queueProcessor (rendered : list DownloadItem)
    (catalogue : list Movie) (s : AppState) : AppState :=
  if (activeCount rendered =? 0)%nat then
    match List.find (has_status queued) rendered with
    | Some nextInQueue =>
        match List.find (fun m => String.eqb (id m) (movieId nextInQueue))
                        catalogue with
        | Some movie => executeDownload movie s
        | None => s
        end
    | None => s
    end
  else s.

(** [deleteDownload]: the handle is aborted and [deleteVideo] is issued
    at once, a storage failure is caught and logged; the metadata is
    removed only once [deleteVideo] has settled ([deleteSettled]). *)
Definition deleteDownload (k : string) (removeMetadata : bool) (avail : bool)
    (s : AppState) : AppState :=
  let s1 := abortHandle k s in
  let s2 := match deleteVideo avail k (storage s1) with
            | inr st => setStorage st s1
            | inl _ => s1
            end in
  if removeMetadata then setPending (cons k) s2 else s2.

Fixpoint removeFirst (k : string) (l : list string) : list string :=
  match l with
  | [] => []
  | x :: l' => if String.eqb x k then l' else x :: removeFirst k l'
  end.

(** The rest of [deleteDownload(k)] once [deleteVideo] has settled:
    [setDownloads(prev => prev.filter(d => d.movieId !== k))]. *)
Definition deleteSettled (k : string) (s : AppState) : AppState :=
  setPending (removeFirst k)
    (setDownloads (List.filter (fun d => negb (is_movie k d))) s).

(** The [newItem] of [requestDownload], for [active] items downloading. *)
Definition newItem (movie : Movie) (now : Z) (active : nat) : DownloadItem :=
  mkItem (id movie) 0
         (if (active =? 0)%nat then downloading else queued)
         (now + 172800000) 0 0 (Some 0%Q).

(** [requestDownload]; [now] is the reading of [Date.now()], [avail]
    the availability of the store for the [deleteVideo] issued when the
    entry is paused.  The existing entry is looked up and the active
    items are counted in [rendered], the collection of the render that
    made the handler; the new entry is written through [prev] and, with
    no active item counted, the transfer is started in the same
    synchronous run. *)
Definition requestDownload (rendered : list DownloadItem) (movie : Movie)
    (now : Z) (avail : bool) (s : AppState) : AppState :=
  let existing := List.find (is_movie (id movie)) rendered in
  let enqueue (s0 : AppState) :=
    let active := activeCount rendered in
    let s1 :=
      setDownloads
        (fun prev =>
           List.filter (fun d => negb (is_movie (id movie) d)) prev
           ++ [newItem movie now active]) s0 in
    if (0 <? active)%nat then s1 else executeDownload movie s1 in
  match existing with
  | Some e =>
      if has_status paused e
      then enqueue (deleteDownload (id movie) false avail s)
      else s
  | None => enqueue s
  end.

(** [pauseDownload]: the abort is guarded by the presence of a
    controller, the update of the collection is not. *)
Definition pauseDownload (k : string) (s : AppState) : AppState :=
  setDownloads (mapItem k (fun d => with_speed 0 (with_status paused d)))
               (abortHandle k s).

(** The [for ... await deleteVideo] loop of [clearCompleted]: the store
    after the loop, and the error that ended it early if one was thrown. *)
Fixpoint deleteEach (avail : string -> bool) (ks : list string) (st : Storage)
    : Storage * option StorageError :=
  match ks with
  | [] => (st, None)
  | k :: ks' =>
      match deleteVideo (avail k) k st with
      | inr st' => deleteEach avail ks' st'
      | inl e => (st, Some e)
      end
  end.

(** One turn of the loop of [clearCompleted], [await deleteVideo(k)]:
    the blob is deleted, or the store throws, which nothing catches. *)
Definition clearDelete (k : string) (avail : bool) (s : AppState)
    : AppState :=
  match deleteVideo avail k (storage s) with
  | inr st => setStorage st s
  | inl _ => s
  end.

(** The end of [clearCompleted], reached when no [deleteVideo] has
    thrown:
    [setDownloads(prev => prev.filter(d => d.status !== 'completed'))]. *)
Definition clearSettled (s : AppState) : AppState :=
  setDownloads (List.filter (fun d => negb (has_status completed d))) s.

(** [clearCompleted] run from its call to its end with no other piece
    of code running at its [await]s: the state it leaves, and the error
    its promise is rejected with when a [deleteVideo] throws.  The items
    to delete are the completed ones of [rendered], the collection of
    the render that made the handler; the last update filters [prev].
    What may happen at the [await]s is given by the events [ClearDelete]
    and [ClearSettled] below. *)
Definition clearCompleted (rendered : list DownloadItem)
    (avail : string -> bool) (s : AppState)
    : AppState * option StorageError :=
  let completedItems := List.filter (has_status completed) rendered in
  match deleteEach avail (List.map movieId completedItems) (storage s) with
  | (st, None) =>
      (setDownloads
         (List.filter (fun d => negb (has_status completed d)))
         (setStorage st s), None)
  | (st, Some e) => (setStorage st s, Some e)
  end.

(** [onAddMovie]: [setMovies([...movies, m])], on the [movies] of the
    render that made the handler. *)
Definition addMovie (catalogue : list Movie) (m : Movie) (s : AppState)
    : AppState :=
  mkApp (catalogue ++ [m]) (downloads s) (activeDownloadsRef s) (aborted s)
        (nextController s) (tasks s) (pendingRemovals s) (storage s).

(** ** Events and runs *)

Inductive Event :=
  | RequestDownload (movie : Movie) (now : Z) (avail : bool)
  | PauseDownload (k : string)
  | DeleteDownload (k : string) (avail : bool)
  | DeleteSettled (k : string)
  | ClearDelete (k : string) (avail : bool)
  | ClearSettled
  | QueueProcessor
  | FetchResolved (c : Controller) (hasBody : bool)
                  (contentLength : option Z) (now : Z)
  | ChunkRead (c : Controller) (value : Chunk) (now : Z)
  | StreamDone (c : Controller) (avail : bool)
  | SaveSettled (c : Controller)
  | Rejected (c : Controller) (name : string)
  | AddMovie (m : Movie).

(** A resolution is delivered only to an activation waiting for it whose
    signal has not fired; a fired signal makes the pending [fetch] or
    [read] reject instead.

    In a step a handler or the effect is the one of the render of the
    state it runs in: React has rendered again since the last update.
    What the handler or the effect of an older render does is what the
    function itself gives on the older collection.

    [ClearDelete] and [ClearSettled] are the pieces of an activation of
    [clearCompleted]; which blobs it deletes was fixed at its call
    ([clearing]), and any event may take place between two of them. *)
Definition live (c : Controller) (s : AppState) : bool :=
  bool_decide (c ∉ aborted s).

Definition step (e : Event) (s : AppState) : option AppState :=
  match e with
  | RequestDownload movie now avail =>
      Some (requestDownload (downloads s) movie now avail s)
  | PauseDownload k => Some (pauseDownload k s)
  | DeleteDownload k avail => Some (deleteDownload k true avail s)
  | DeleteSettled k =>
      if bool_decide (k ∈ pendingRemovals s)
      then Some (deleteSettled k s) else None
  | ClearDelete k avail => Some (clearDelete k avail s)
  | ClearSettled => Some (clearSettled s)
  | QueueProcessor => Some (queueProcessor (downloads s) (movies s) s)
  | FetchResolved c hasBody contentLength now =>
      match tasks s !! c with
      | Some t =>
          match t_phase t with
          | AwaitFetch =>
              if live c s
              then Some (fetchResolved c t hasBody contentLength now s)
              else None
          | _ => None
          end
      | None => None
      end
  | ChunkRead c value now =>
      match tasks s !! c with
      | Some t =>
          match t_phase t with
          | AwaitRead =>
              if live c s then Some (chunkRead c t value now s) else None
          | _ => None
          end
      | None => None
      end
  | StreamDone c avail =>
      match tasks s !! c with
      | Some t =>
          match t_phase t with
          | AwaitRead =>
              if live c s then Some (streamDone c t avail s) else None
          | _ => None
          end
      | None => None
      end
  | SaveSettled c =>
      match tasks s !! c with
      | Some t =>
          match t_phase t with
          | AwaitSave saved => Some (saveSettled c t saved s)
          | _ => None
          end
      | None => None
      end
  | Rejected c name =>
      match tasks s !! c with
      | Some t =>
          match t_phase t with
          | AwaitSave _ => None
          | _ => Some (rejected c t name s)
          end
      | None => None
      end
  | AddMovie m => Some (addMovie (movies s) m s)
  end.

Fixpoint run (es : list Event) (s : AppState) : option AppState :=
  match es with
  | [] => Some s
  | e :: es' =>
      match step e s with
      | Some s' => run es' s'
      | None => None
      end
  end.

(** The events of one activation of [clearCompleted] called on a render
    showing [rendered]: a deletion for each completed item in turn, up
    to the first one the store rejects, and the last update if none is
    rejected. *)
Fixpoint clearLoop (avail : string -> bool) (ks : list string) : list Event :=
  match ks with
  | [] => [ClearSettled]
  | k :: ks' =>
      if avail k then ClearDelete k true :: clearLoop avail ks'
      else [ClearDelete k false]
  end.

Definition clearing (rendered : list DownloadItem) (avail : string -> bool)
    : list Event :=
  clearLoop avail
    (List.map movieId (List.filter (has_status completed) rendered)).

(** ** Persistence of the collection ([localStorage]) *)

(** The text kept in [localStorage] is represented by the JSON value it
    denotes: [JSON.stringify] writes every own property of every item,
    leaving out a property whose value is [undefined], and [JSON.parse]
    reads the same value back. *)
Unset Elimination Schemes.
Inductive JSON :=
  | JNull
  | JBoolean (b : bool)
  | JNumber (q : Q)
  | JString (s : string)
  | JArray (l : list JSON)
  | JObject (fields : list (string * JSON)).
Set Elimination Schemes.

Definition statusString (st : Status) : string :=
  match st with
  | queued => "queued"
  | downloading => "downloading"
  | completed => "completed"
  | failed => "failed"
  | paused => "paused"
  end.

Definition statusOfString (x : string) : option Status :=
  if String.eqb x "queued" then Some queued
  else if String.eqb x "downloading" then Some downloading
  else if String.eqb x "completed" then Some completed
  else if String.eqb x "failed" then Some failed
  else if String.eqb x "paused" then Some paused
  else None.

Definition itemToJSON (d : DownloadItem) : JSON :=
  JObject
    ([("movieId", JString (movieId d));
      ("progress", JNumber (progress d));
      ("status", JString (statusString (status d)));
      ("expiry", JNumber (inject_Z (expiry d)));
      ("totalSizeMB", JNumber (totalSizeMB d));
      ("downloadedSizeMB", JNumber (downloadedSizeMB d))]
     ++ match speed d with
        | Some v => [("speed", JNumber v)]
        | None => []
        end).

(** [JSON.stringify(downloads)] *)
Definition stringify (ds : list DownloadItem) : JSON :=
  JArray (List.map itemToJSON ds).

Fixpoint property (k : string) (fields : list (string * JSON)) : option JSON :=
  match fields with
  | [] => None
  | (k', v) :: rest => if String.eqb k' k then Some v else property k rest
  end.

Definition asString (j : option JSON) : option string :=
  match j with Some (JString x) => Some x | _ => None end.
Definition asNumber (j : option JSON) : option Q :=
  match j with Some (JNumber q) => Some q | _ => None end.
Definition asInteger (j : option JSON) : option Z :=
  match j with Some (JNumber (Qmake n 1)) => Some n | _ => None end.

(** The items read back; [None] stands for a stored value that does not
    have the shape of a [DownloadItem]. *)
Definition itemOfJSON (j : JSON) : option DownloadItem :=
  match j with
  | JObject fields =>
      match asString (property "movieId" fields),
            asNumber (property "progress" fields),
            asString (property "status" fields),
            asInteger (property "expiry" fields),
            asNumber (property "totalSizeMB" fields),
            asNumber (property "downloadedSizeMB" fields) with
      | Some m, Some p, Some st, Some e, Some t, Some dl =>
          match statusOfString st with
          | Some st' =>
              match property "speed" fields with
              | None => Some (mkItem m p st' e t dl None)
              | Some (JNumber v) => Some (mkItem m p st' e t dl (Some v))
              | Some _ => None
              end
          | None => None
          end
      | _, _, _, _, _, _ => None
      end
  | _ => None
  end.

Fixpoint itemsOfJSON (l : list JSON) : option (list DownloadItem) :=
  match l with
  | [] => Some []
  | j :: l' =>
      match itemOfJSON j, itemsOfJSON l' with
      | Some d, Some ds => Some (d :: ds)
      | _, _ => None
      end
  end.

(** [JSON.parse(saved)] *)
Definition parse (j : JSON) : option (list DownloadItem) :=
  match j with
  | JArray l => itemsOfJSON l
  | _ => None
  end.

Definition LocalStorage := gmap string JSON.

(** [localStorage.setItem('downloads', JSON.stringify(downloads))] *)
Definition persistDownloads (ds : list DownloadItem) (ls : gmap string JSON)
    : gmap string JSON :=
  <["downloads" := stringify ds]> ls.

(** [const saved = localStorage.getItem('downloads');
     return saved ? JSON.parse(saved) : [];] *)
Definition loadDownloads (ls : gmap string JSON)
    : option (list DownloadItem) :=
  match ls !! "downloads" with
  | Some saved => parse saved
  | None => Some []
  end.

(** ** Presentation of the sizes (the downloads view) *)

(** [(item.totalSizeMB / 1024).toFixed(2)] GB, before rounding. *)
Definition displayGB (d : DownloadItem) : Q :=
  (totalSizeMB d / inject_Z 1024)%Q.

(** [(item.downloadedSizeMB).toFixed(1)] MB, before rounding. *)
Definition displayMB (d : DownloadItem) : Q := downloadedSizeMB d.

(** * Properties *)

Definition ids (ds : list DownloadItem) : list string := List.map movieId ds.

(** ** The collection under [map], [filter] and append *)

Section Collection.

Implicit Types (ds : list DownloadItem) (d : DownloadItem) (k : string).

Lemma is_movie_true k d : is_movie k d = true <-> movieId d = k.
Proof. unfold is_movie. apply String.eqb_eq. Qed.

Lemma is_movie_false k d : is_movie k d = false <-> movieId d <> k.
Proof. unfold is_movie. apply String.eqb_neq. Qed.

Lemma has_status_true st d : has_status st d = true <-> status d = st.
Proof. unfold has_status. apply bool_decide_eq_true. Qed.

Lemma has_status_false st d : has_status st d = false <-> status d <> st.
Proof. unfold has_status. apply bool_decide_eq_false. Qed.

Lemma ids_map (g : DownloadItem -> DownloadItem) ds :
  (forall d, movieId (g d) = movieId d) -> ids (List.map g ds) = ids ds.
Proof.
  intros Hg. unfold ids. rewrite List.map_map.
  apply List.map_ext. exact Hg.
Qed.

Lemma ids_mapItem k f ds :
  (forall d, movieId (f d) = movieId d) -> ids (mapItem k f ds) = ids ds.
Proof.
  intros Hf. apply ids_map. intros d. destruct (is_movie k d); auto.
Qed.

Lemma mapItem_absent k f ds : ~ In k (ids ds) -> mapItem k f ds = ds.
Proof.
  induction ds as [|d ds IH]; simpl; intros Hk; [reflexivity|].
  destruct (is_movie k d) eqn:E.
  - apply is_movie_true in E. tauto.
  - f_equal. apply IH. tauto.
Qed.

Lemma ids_filter_In k (p : DownloadItem -> bool) ds :
  In k (ids (List.filter p ds)) -> In k (ids ds).
Proof.
  unfold ids. rewrite !List.in_map_iff.
  intros (d & Hd & Hin). apply List.filter_In in Hin. exists d. tauto.
Qed.

Lemma ids_filter_other k ds :
  ~ In k (ids (List.filter (fun d => negb (is_movie k d)) ds)).
Proof.
  unfold ids. rewrite List.in_map_iff. intros (d & Hd & Hin).
  apply List.filter_In in Hin. destruct Hin as [_ Hne].
  apply negb_true_iff, is_movie_false in Hne. contradiction.
Qed.

Lemma NoDup_ids_filter (p : DownloadItem -> bool) ds :
  NoDup (ids ds) -> NoDup (ids (List.filter p ds)).
Proof.
  induction ds as [|d ds IH]; simpl; intros H; [constructor|].
  apply NoDup_cons in H as [Hnotin Hnd].
  destruct (p d); simpl; auto.
  apply NoDup_cons. split; auto.
  intros Hin. apply Hnotin. apply list_elem_of_In in Hin.
  apply list_elem_of_In. eapply ids_filter_In; eauto.
Qed.

Lemma activeCount_cons d ds :
  activeCount (d :: ds)
  = ((if has_status downloading d then 1 else 0) + activeCount ds)%nat.
Proof. unfold activeCount. simpl. destruct (has_status downloading d); reflexivity. Qed.

Lemma activeCount_app ds1 ds2 :
  activeCount (ds1 ++ ds2) = (activeCount ds1 + activeCount ds2)%nat.
Proof.
  unfold activeCount. rewrite List.filter_app, List.length_app. reflexivity.
Qed.

Lemma activeCount_filter_le (p : DownloadItem -> bool) ds :
  (activeCount (List.filter p ds) <= activeCount ds)%nat.
Proof.
  induction ds as [|d ds IH]; simpl; [lia|].
  destruct (p d); rewrite ?activeCount_cons; lia.
Qed.

(** A [map] that never turns an item into a downloading one cannot
    raise the number of active items. *)
Lemma activeCount_map_le (g : DownloadItem -> DownloadItem) ds :
  (forall d, status (g d) = downloading -> status d = downloading) ->
  (activeCount (List.map g ds) <= activeCount ds)%nat.
Proof.
  intros Hg. induction ds as [|d ds IH]; simpl; [lia|].
  rewrite !activeCount_cons.
  destruct (has_status downloading (g d)) eqn:E1;
    destruct (has_status downloading d) eqn:E2; try lia.
  apply has_status_true in E1. apply Hg in E1.
  apply has_status_false in E2. contradiction.
Qed.

(** Marking the item [k] as downloading adds at most one active item
    when no two entries share an id. *)
Lemma activeCount_promote k ds :
  NoDup (ids ds) ->
  (activeCount (mapItem k (with_status downloading) ds)
   <= S (activeCount ds))%nat.
Proof.
  induction ds as [|d ds IH]; simpl; intros H; [unfold activeCount; simpl; lia|].
  apply NoDup_cons in H as [Hnotin Hnd].
  rewrite !activeCount_cons.
  destruct (is_movie k d) eqn:E.
  - apply is_movie_true in E. subst k.
    fold (mapItem (movieId d) (with_status downloading) ds).
    rewrite mapItem_absent
      by (intros Hin; apply Hnotin, list_elem_of_In, Hin).
    destruct (has_status downloading d); simpl; lia.
  - fold (mapItem k (with_status downloading) ds).
    specialize (IH Hnd). lia.
Qed.

End Collection.

(** [Some x = Some y] read without unfolding [x]. *)
Ltac stepped H :=
  match type of H with
  | Some ?x = Some ?y =>
      let E := fresh in
      assert (E : y = x) by (symmetry; exact (Some_inj _ _ H));
      clear H; subst y
  | None = Some _ => discriminate H
  end.

(** ** What each piece does to the collection *)

Section Downloads.

Implicit Types (s : AppState) (k : string) (c : Controller) (t : Task).

Lemma downloads_abortHandle k s : downloads (abortHandle k s) = downloads s.
Proof. unfold abortHandle. destruct (activeDownloadsRef s !! k); reflexivity. Qed.

Lemma storage_abortHandle k s : storage (abortHandle k s) = storage s.
Proof. unfold abortHandle. destruct (activeDownloadsRef s !! k); reflexivity. Qed.

Lemma movies_abortHandle k s : movies (abortHandle k s) = movies s.
Proof. unfold abortHandle. destruct (activeDownloadsRef s !! k); reflexivity. Qed.

Lemma downloads_deleteDownload k rm avail s :
  downloads (deleteDownload k rm avail s) = downloads s.
Proof.
  unfold deleteDownload.
  destruct (deleteVideo avail k (storage (abortHandle k s)));
    destruct rm; simpl; apply downloads_abortHandle.
Qed.

Lemma movies_deleteDownload k rm avail s :
  movies (deleteDownload k rm avail s) = movies s.
Proof.
  unfold deleteDownload.
  destruct (deleteVideo avail k (storage (abortHandle k s)));
    destruct rm; simpl; apply movies_abortHandle.
Qed.

(** The collection after an accepted request: the entry of the movie is
    dropped, the new entry goes last, and when no transfer was active
    [executeDownload] marks it at once. *)
Definition enqueued (m : Movie) (now : Z) (ds : list DownloadItem)
    : list DownloadItem :=
  let ds1 := List.filter (fun d => negb (is_movie (id m) d)) ds
             ++ [newItem m now (activeCount ds)] in
  if (0 <? activeCount ds)%nat then ds1
  else mapItem (id m) (with_status downloading) ds1.

Lemma downloads_requestDownload m now avail s :
  downloads (requestDownload (downloads s) m now avail s)
  = match List.find (is_movie (id m)) (downloads s) with
    | Some e => if has_status paused e
                then enqueued m now (downloads s) else downloads s
    | None => enqueued m now (downloads s)
    end.
Proof.
  unfold requestDownload, enqueued.
  destruct (List.find (is_movie (id m)) (downloads s)) as [e|];
    [destruct (has_status paused e); [|reflexivity]|];
    destruct (0 <? activeCount (downloads s))%nat;
    cbn [downloads setDownloads executeDownload];
    rewrite ?downloads_deleteDownload; reflexivity.
Qed.

(** With no active transfer the mark only confirms the status the new
    entry was created with. *)
Lemma enqueued_idle_tail m now ds :
  activeCount ds = 0%nat ->
  mapItem (id m) (with_status downloading)
    (List.filter (fun d => negb (is_movie (id m) d)) ds
     ++ [newItem m now (activeCount ds)])
  = List.filter (fun d => negb (is_movie (id m) d)) ds
    ++ [newItem m now (activeCount ds)].
Proof.
  intros H0. unfold mapItem. rewrite List.map_app. f_equal.
  - apply (mapItem_absent (id m)), ids_filter_other.
  - simpl. unfold is_movie, newItem. simpl. rewrite String.eqb_refl.
    rewrite H0. reflexivity.
Qed.

Definition abortBranch (k : string) (d : DownloadItem) : DownloadItem :=
  if is_movie k d && has_status downloading d
  then with_speed 0 (with_status paused d) else d.

Lemma downloads_catchError name m s :
  downloads (catchError name m s)
  = if String.eqb name "AbortError"
    then List.map (abortBranch (id m)) (downloads s)
    else mapItem (id m) (fun d => with_speed 0 (with_status failed d))
                 (downloads s).
Proof. unfold catchError. destruct (String.eqb name "AbortError"); reflexivity. Qed.

Lemma storage_catchError name m s :
  storage (catchError name m s) = storage s.
Proof. unfold catchError. destruct (String.eqb name "AbortError"); reflexivity. Qed.

Lemma downloads_finally c m s : downloads (finally c m s) = downloads s.
Proof. reflexivity. Qed.

Lemma downloads_clearCompleted avail s :
  downloads (fst (clearCompleted (downloads s) avail s))
  = match snd (clearCompleted (downloads s) avail s) with
    | None => List.filter (fun d => negb (has_status completed d)) (downloads s)
    | Some _ => downloads s
    end.
Proof.
  unfold clearCompleted.
  destruct (deleteEach avail _ (storage s)) as [st [e|]]; reflexivity.
Qed.

End Downloads.

(** ** The single-transfer invariant *)

(** No two entries share a movie id, and at most one entry is
    downloading. *)
Definition QueueInv (ds : list DownloadItem) : Prop :=
  NoDup (ids ds) /\ (activeCount ds <= 1)%nat.

Section Invariant.

Implicit Types (ds : list DownloadItem) (s : AppState).

Lemma QueueInv_map (g : DownloadItem -> DownloadItem) ds :
  (forall d, movieId (g d) = movieId d) ->
  (forall d, status (g d) = downloading -> status d = downloading) ->
  QueueInv ds -> QueueInv (List.map g ds).
Proof.
  intros Hid Hst [Hnd Hle]. split.
  - rewrite ids_map; assumption.
  - pose proof (activeCount_map_le g ds Hst). lia.
Qed.

Lemma QueueInv_mapItem k f ds :
  (forall d, movieId (f d) = movieId d) ->
  (forall d, status (f d) = downloading -> status d = downloading) ->
  QueueInv ds -> QueueInv (mapItem k f ds).
Proof.
  intros Hid Hst. apply QueueInv_map; intros d; destruct (is_movie k d); auto.
Qed.

Lemma QueueInv_filter (p : DownloadItem -> bool) ds :
  QueueInv ds -> QueueInv (List.filter p ds).
Proof.
  intros [Hnd Hle]. split.
  - apply NoDup_ids_filter, Hnd.
  - pose proof (activeCount_filter_le p ds). lia.
Qed.

Lemma QueueInv_promote k ds :
  NoDup (ids ds) -> activeCount ds = 0%nat ->
  QueueInv (mapItem k (with_status downloading) ds).
Proof.
  intros Hnd H0. split.
  - rewrite ids_mapItem; auto.
  - pose proof (activeCount_promote k ds Hnd). lia.
Qed.

Lemma QueueInv_catchError name m s :
  QueueInv (downloads s) -> QueueInv (downloads (catchError name m s)).
Proof.
  intros H. rewrite downloads_catchError.
  destruct (String.eqb name "AbortError").
  - apply QueueInv_map; auto; intros d; unfold abortBranch;
      destruct (is_movie (id m) d && has_status downloading d); auto;
      simpl; discriminate.
  - apply QueueInv_mapItem; auto. simpl. discriminate.
Qed.

Lemma QueueInv_executeDownload m s :
  NoDup (ids (downloads s)) -> activeCount (downloads s) = 0%nat ->
  QueueInv (downloads (executeDownload m s)).
Proof. intros Hnd H0. simpl. apply QueueInv_promote; assumption. Qed.

Lemma QueueInv_queueProcessor s :
  QueueInv (downloads s) ->
  QueueInv (downloads (queueProcessor (downloads s) (movies s) s)).
Proof.
  intros [Hnd Hle]. unfold queueProcessor.
  destruct (activeCount (downloads s) =? 0)%nat eqn:E; [|split; assumption].
  apply Nat.eqb_eq in E.
  destruct (List.find (has_status queued) (downloads s)) as [q|];
    [|split; assumption].
  destruct (List.find _ (movies s)) as [m|]; [|split; assumption].
  apply QueueInv_executeDownload; assumption.
Qed.

(** Admission: the decision is taken on the count of active items of
    the very collection the new entry is appended to. *)
Lemma QueueInv_enqueued m now ds :
  QueueInv ds -> QueueInv (enqueued m now ds).
Proof.
  intros [Hnd Hle]. unfold enqueued.
  set (ds1 := List.filter (fun d => negb (is_movie (id m) d)) ds
              ++ [newItem m now (activeCount ds)]).
  assert (Hnd1 : NoDup (ids ds1)).
  { unfold ds1, ids. rewrite List.map_app. simpl.
    apply NoDup_app. split; [apply NoDup_ids_filter, Hnd|]. split.
    - intros x Hx Hx'. apply list_elem_of_In in Hx.
      apply list_elem_of_In in Hx'.
      destruct Hx' as [<-|[]]. revert Hx. apply ids_filter_other.
    - apply NoDup_singleton. }
  pose proof (activeCount_filter_le
                (fun d => negb (is_movie (id m) d)) ds) as Hf.
  assert (Hc : activeCount ds1
               = (activeCount (List.filter (fun d => negb (is_movie (id m) d)) ds)
                  + (if (activeCount ds =? 0)%nat then 1 else 0))%nat).
  { unfold ds1. rewrite activeCount_app. f_equal.
    unfold newItem. destruct (activeCount ds =? 0)%nat; reflexivity. }
  destruct (0 <? activeCount ds)%nat eqn:E.
  - apply Nat.ltb_lt in E. split; [exact Hnd1|].
    rewrite Hc. destruct (Nat.eqb_spec (activeCount ds) 0); lia.
  - apply Nat.ltb_ge in E. split.
    + rewrite ids_mapItem; auto.
    + pose proof (activeCount_promote (id m) ds1 Hnd1).
      destruct (Nat.eqb_spec (activeCount ds) 0); [|lia].
      unfold ds1 at 1.
      rewrite (enqueued_idle_tail m now ds) by assumption. fold ds1.
      rewrite Hc. lia.
Qed.

Lemma QueueInv_requestDownload m now avail s :
  QueueInv (downloads s) ->
  QueueInv (downloads (requestDownload (downloads s) m now avail s)).
Proof.
  intros H. rewrite downloads_requestDownload.
  destruct (List.find (is_movie (id m)) (downloads s)) as [e|].
  - destruct (has_status paused e); [|exact H].
    apply QueueInv_enqueued, H.
  - apply QueueInv_enqueued, H.
Qed.

Lemma QueueInv_pauseDownload k s :
  QueueInv (downloads s) -> QueueInv (downloads (pauseDownload k s)).
Proof.
  intros H. unfold pauseDownload. simpl. rewrite downloads_abortHandle.
  apply QueueInv_mapItem; auto. simpl. discriminate.
Qed.

Lemma QueueInv_fetchResolved c t hasBody len now s :
  QueueInv (downloads s) ->
  QueueInv (downloads (fetchResolved c t hasBody len now s)).
Proof.
  intros H. unfold fetchResolved. destruct hasBody; cbn [negb].
  - destruct (0 <? default 0 len); cbn [downloads setTasks setDownloads];
      [|exact H].
    apply QueueInv_mapItem; auto.
  - rewrite downloads_finally. apply QueueInv_catchError, H.
Qed.

Lemma QueueInv_chunkRead c t value now s :
  QueueInv (downloads s) ->
  QueueInv (downloads (chunkRead c t value now s)).
Proof.
  intros H. unfold chunkRead.
  destruct (800 <? now - t_lastTime t); simpl; [|exact H].
  apply QueueInv_mapItem; auto.
Qed.

Lemma QueueInv_streamDone c t avail s :
  QueueInv (downloads s) -> QueueInv (downloads (streamDone c t avail s)).
Proof.
  intros H. unfold streamDone.
  destruct (saveVideo avail _ _ (storage s)); exact H.
Qed.

Lemma QueueInv_saveSettled c t saved s :
  QueueInv (downloads s) -> QueueInv (downloads (saveSettled c t saved s)).
Proof.
  intros H. unfold saveSettled. destruct saved; rewrite downloads_finally.
  - apply QueueInv_mapItem; auto. simpl. discriminate.
  - apply QueueInv_catchError, H.
Qed.

Lemma QueueInv_step e s s' :
  QueueInv (downloads s) -> step e s = Some s' -> QueueInv (downloads s').
Proof.
  intros H Hstep. destruct e; cbn [step] in Hstep.
  - stepped Hstep. apply QueueInv_requestDownload, H.
  - stepped Hstep. apply QueueInv_pauseDownload, H.
  - stepped Hstep. rewrite downloads_deleteDownload. exact H.
  - destruct (bool_decide (k ∈ pendingRemovals s)); [|discriminate].
    stepped Hstep. apply QueueInv_filter, H.
  - stepped Hstep. unfold clearDelete.
    destruct (deleteVideo avail k (storage s)); exact H.
  - stepped Hstep. apply QueueInv_filter, H.
  - stepped Hstep. apply QueueInv_queueProcessor, H.
  - destruct (tasks s !! c) as [t|]; [|discriminate].
    destruct (t_phase t); try discriminate.
    destruct (live c s); [|discriminate].
    stepped Hstep. apply QueueInv_fetchResolved, H.
  - destruct (tasks s !! c) as [t|]; [|discriminate].
    destruct (t_phase t); try discriminate.
    destruct (live c s); [|discriminate].
    stepped Hstep. apply QueueInv_chunkRead, H.
  - destruct (tasks s !! c) as [t|]; [|discriminate].
    destruct (t_phase t); try discriminate.
    destruct (live c s); [|discriminate].
    stepped Hstep. apply QueueInv_streamDone, H.
  - destruct (tasks s !! c) as [t|]; [|discriminate].
    destruct (t_phase t); try discriminate.
    stepped Hstep. apply QueueInv_saveSettled, H.
  - destruct (tasks s !! c) as [t|]; [|discriminate].
    destruct (t_phase t); try discriminate;
      stepped Hstep; unfold rejected; rewrite downloads_finally;
      apply QueueInv_catchError, H.
  - stepped Hstep. exact H.
Qed.

Lemma QueueInv_run es : forall s s',
  QueueInv (downloads s) -> run es s = Some s' -> QueueInv (downloads s').
Proof.
  induction es as [|e es IH]; simpl; intros s s' H Hrun.
  - injection Hrun as <-. exact H.
  - destruct (step e s) as [s1|] eqn:E; [|discriminate].
    eapply IH; [|exact Hrun]. eapply QueueInv_step; eauto.
Qed.

End Invariant.

(** ** Looking an item up after an update *)

Section Lookup.

Implicit Types (ds : list DownloadItem) (d : DownloadItem) (k : string).

Lemma getDownloadStatus_map (g : DownloadItem -> DownloadItem) k ds :
  (forall d, movieId (g d) = movieId d) ->
  getDownloadStatus k (List.map g ds) = option_map g (getDownloadStatus k ds).
Proof.
  intros Hg. unfold getDownloadStatus.
  induction ds as [|d ds IH]; simpl; [reflexivity|].
  unfold is_movie at 1. rewrite Hg. fold (is_movie k d).
  destruct (is_movie k d); [reflexivity|exact IH].
Qed.

Lemma getDownloadStatus_movieId k ds d :
  getDownloadStatus k ds = Some d -> movieId d = k.
Proof.
  intros H. apply List.find_some in H as [_ H]. apply is_movie_true, H.
Qed.

Lemma getDownloadStatus_In k ds d :
  getDownloadStatus k ds = Some d -> In d ds.
Proof. intros H. apply List.find_some in H as [H _]. exact H. Qed.

Lemma getDownloadStatus_None k ds :
  getDownloadStatus k ds = None <-> ~ In k (ids ds).
Proof.
  unfold getDownloadStatus, ids. split.
  - intros H Hin. apply List.in_map_iff in Hin as (d & Hd & Hin).
    pose proof (List.find_none _ _ H d Hin) as Hf.
    apply is_movie_false in Hf. contradiction.
  - intros H. destruct (List.find (is_movie k) ds) as [d|] eqn:E; [|reflexivity].
    apply List.find_some in E as [Hin Hk]. apply is_movie_true in Hk.
    exfalso. apply H. apply List.in_map_iff. exists d. auto.
Qed.

Lemma getDownloadStatus_mapItem k f ds :
  (forall d, movieId (f d) = movieId d) ->
  getDownloadStatus k (mapItem k f ds) = option_map f (getDownloadStatus k ds).
Proof.
  intros Hf. unfold mapItem. rewrite getDownloadStatus_map.
  - destruct (getDownloadStatus k ds) as [d|] eqn:E; [|reflexivity].
    simpl. apply getDownloadStatus_movieId, is_movie_true in E.
    rewrite E. reflexivity.
  - intros d. destruct (is_movie k d); auto.
Qed.

Lemma getDownloadStatus_mapItem_other k k' f ds :
  k <> k' ->
  (forall d, movieId (f d) = movieId d) ->
  getDownloadStatus k' (mapItem k f ds) = getDownloadStatus k' ds.
Proof.
  intros Hne Hf. unfold mapItem. rewrite getDownloadStatus_map.
  - destruct (getDownloadStatus k' ds) as [d|] eqn:E; [|reflexivity].
    simpl. apply getDownloadStatus_movieId in E.
    destruct (is_movie k d) eqn:Ek; [|reflexivity].
    apply is_movie_true in Ek. congruence.
  - intros d. destruct (is_movie k d); auto.
Qed.

Lemma getDownloadStatus_abortBranch k ds :
  getDownloadStatus k (List.map (abortBranch k) ds)
  = option_map (abortBranch k) (getDownloadStatus k ds).
Proof.
  apply getDownloadStatus_map. intros d. unfold abortBranch.
  destruct (is_movie k d && has_status downloading d); reflexivity.
Qed.

(** A rewrite by [abortBranch] leaves every entry that is not
    downloading exactly as it was. *)
Lemma abortBranch_not_downloading k d :
  status d <> downloading -> abortBranch k d = d.
Proof.
  intros H. unfold abortBranch. apply has_status_false in H.
  rewrite H, andb_false_r. reflexivity.
Qed.

Lemma find_append (p : DownloadItem -> bool) ds1 ds2 :
  List.find p (ds1 ++ ds2)
  = match List.find p ds1 with
    | Some x => Some x
    | None => List.find p ds2
    end.
Proof.
  induction ds1 as [|x ds1 IH]; simpl; [reflexivity|].
  destruct (p x); [reflexivity|exact IH].
Qed.

Lemma getDownloadStatus_enqueued_tail k ds d :
  movieId d = k ->
  getDownloadStatus k
    (List.filter (fun x => negb (is_movie k x)) ds ++ [d]) = Some d.
Proof.
  intros Hk. unfold getDownloadStatus. rewrite find_append.
  destruct (List.find (is_movie k) (List.filter _ ds)) as [x|] eqn:E.
  - apply List.find_some in E as [Hin Hx].
    apply List.filter_In in Hin as [_ Hn]. rewrite Hx in Hn. discriminate.
  - simpl. apply is_movie_true in Hk. rewrite Hk. reflexivity.
Qed.

End Lookup.

(** An entry for [k] is tracked with status [st] and its speed cleared. *)
Definition settled (k : string) (st : Status) (s : AppState) : Prop :=
  exists d, getDownloadStatus k (downloads s) = Some d
            /\ status d = st /\ speed d = Some 0%Q.

(** * The claims *)

(** ** C1: one transfer at a time *)

Definition movieA : Movie := mkMovie "A" "Alpha" "https://cdn.example/a.mp4".
Definition movieB : Movie := mkMovie "B" "Beta" "https://cdn.example/b.mp4".
Definition movieC : Movie := mkMovie "C" "Gamma" "https://cdn.example/c.mp4".

Definition emptyStore : Storage := mkStorage ∅ 1000.
Definition freshApp : AppState :=
  initialState [movieA; movieB; movieC] [] emptyStore.

Definition fourBytes : Chunk := [Byte.x00; Byte.x01; Byte.x02; Byte.x03].

(** The scenario of the specification: A, B and C are requested in a
    row, A's transfer runs to its end, B is promoted and then paused. *)
Definition scenario : list Event :=
  [ RequestDownload movieA 0 true; QueueProcessor;
    RequestDownload movieB 1 true; QueueProcessor;
    RequestDownload movieC 2 true; QueueProcessor;
    FetchResolved 0%nat true (Some 4) 10;
    ChunkRead 0%nat fourBytes 20;
    StreamDone 0%nat true; SaveSettled 0%nat; QueueProcessor;
    PauseDownload "B"; Rejected 1%nat "AbortError"; QueueProcessor ].

Definition statuses (s : AppState) : list (string * Status) :=
  List.map (fun d => (movieId d, status d)) (downloads s).

Definition after (es : list Event) (s : AppState) : AppState :=
  match run es s with Some s' => s' | None => s end.

Example scenario_three_requests :
  statuses (after (firstn 6 scenario) freshApp)
  = [("A", downloading); ("B", queued); ("C", queued)].
Proof. vm_compute. reflexivity. Qed.

Example scenario_first_completes :
  statuses (after (firstn 11 scenario) freshApp)
  = [("A", completed); ("B", downloading); ("C", queued)].
Proof. vm_compute. reflexivity. Qed.

Example scenario_second_paused :
  statuses (after scenario freshApp)
  = [("A", completed); ("B", paused); ("C", downloading)].
Proof. vm_compute. reflexivity. Qed.

(** What the two guards do achieve.  As long as every handler and every
    run of the effect is the one of the render of the state it runs in,
    a collection without duplicate ids and with at most one downloading
    item is led by any sequence of events (requests, pauses, removals,
    clearing, runs of the queue processor, every piece of every
    transfer) to a collection with at most one downloading item. *)
Lemma single_active_download (es : list Event) (s s' : AppState) :
  NoDup (ids (downloads s)) ->
  (activeCount (downloads s) <= 1)%nat ->
  run es s = Some s' ->
  (activeCount (downloads s') <= 1)%nat.
Proof.
  intros Hnd Hle Hrun.
  apply (QueueInv_run es s s'); [split; assumption | exact Hrun].
Qed.

Lemma single_active_download_witness :
  run scenario freshApp = Some (after scenario freshApp)
  /\ (activeCount (downloads (after scenario freshApp)) <= 1)%nat.
Proof.
  split; [vm_compute; reflexivity|].
  apply (single_active_download scenario freshApp).
  - vm_compute. constructor.
  - vm_compute. lia.
  - vm_compute. reflexivity.
Defined.

(** A has been downloaded to the end while B waits in the queue. *)
Definition firstOfTwoDone : AppState :=
  after [ RequestDownload movieA 0 true; RequestDownload movieB 1 true;
          FetchResolved 0%nat true (Some 4) 10; ChunkRead 0%nat fourBytes 20;
          StreamDone 0%nat true; SaveSettled 0%nat ] freshApp.

(** C1, the code at the failing input.  A has completed and B is
    queued; React has committed the render that shows this collection,
    and before the queue processor effect of that render runs the user
    requests C.  The handler counts no downloading item in the
    collection of its render and starts C; the effect of the same render
    counts none either, finds B first in the queue and starts B.  Two
    items are downloading and two transfers are in flight.  Had the
    effect belonged to the render that shows C downloading, it would
    have done nothing. *)
Theorem two_downloads_from_one_render :
  let rendered := downloads firstOfTwoDone in
  let clicked := requestDownload rendered movieC 30 true firstOfTwoDone in
  let s' := queueProcessor rendered (movies firstOfTwoDone) clicked in
  run [ RequestDownload movieA 0 true; RequestDownload movieB 1 true;
        FetchResolved 0%nat true (Some 4) 10; ChunkRead 0%nat fourBytes 20;
        StreamDone 0%nat true; SaveSettled 0%nat ] freshApp
  = Some firstOfTwoDone
  /\ statuses firstOfTwoDone = [("A", completed); ("B", queued)]
  /\ statuses clicked
     = [("A", completed); ("B", queued); ("C", downloading)]
  /\ statuses s'
     = [("A", completed); ("B", downloading); ("C", downloading)]
  /\ activeCount (downloads s') = 2%nat
  /\ option_map t_movie (tasks s' !! 1%nat) = Some movieC
  /\ option_map t_movie (tasks s' !! 2%nat) = Some movieB
  /\ queueProcessor (downloads clicked) (movies clicked) clicked = clicked.
Proof. repeat split; vm_compute; reflexivity. Qed.

(** ** C2: how a transfer that throws ends *)

Section TransferEnd.

Implicit Types (s : AppState) (k : string) (c : Controller) (t : Task).

Lemma step_Rejected c t name s :
  tasks s !! c = Some t ->
  t_phase t = AwaitFetch \/ t_phase t = AwaitRead ->
  step (Rejected c name) s = Some (rejected c t name s).
Proof. intros Ht [Hp|Hp]; cbn [step]; rewrite Ht, Hp; reflexivity. Qed.

Lemma storage_rejected c t name s : storage (rejected c t name s) = storage s.
Proof. unfold rejected, finally. simpl. apply storage_catchError. Qed.

Lemma tasks_rejected c t name s : tasks (rejected c t name s) !! c = None.
Proof.
  unfold rejected, finally, catchError.
  destruct (String.eqb name "AbortError"); simpl; apply lookup_delete_eq.
Qed.

Lemma settled_abort c t s d :
  getDownloadStatus (id (t_movie t)) (downloads s) = Some d ->
  status d = downloading \/ (status d = paused /\ speed d = Some 0%Q) ->
  settled (id (t_movie t)) paused (rejected c t "AbortError" s).
Proof.
  intros Hd Hst. unfold settled, rejected.
  rewrite downloads_finally, downloads_catchError, String.eqb_refl.
  rewrite getDownloadStatus_abortBranch, Hd. simpl.
  eexists. split; [reflexivity|].
  unfold abortBranch.
  apply getDownloadStatus_movieId, is_movie_true in Hd. rewrite Hd.
  destruct Hst as [Hst|[Hst Hsp]].
  - apply has_status_true in Hst. rewrite Hst. simpl. auto.
  - assert (Hn : has_status downloading d = false)
      by (apply has_status_false; congruence).
    rewrite Hn. simpl. auto.
Qed.

Lemma settled_failure name m s d :
  String.eqb name "AbortError" = false ->
  getDownloadStatus (id m) (downloads s) = Some d ->
  settled (id m) failed (catchError name m s).
Proof.
  intros Hname Hd. unfold settled.
  rewrite downloads_catchError, Hname.
  rewrite getDownloadStatus_mapItem by reflexivity. rewrite Hd. simpl.
  eexists. split; [reflexivity|]. simpl. auto.
Qed.

Lemma tasks_abortHandle k s : tasks (abortHandle k s) = tasks s.
Proof. unfold abortHandle. destruct (activeDownloadsRef s !! k); reflexivity. Qed.

Lemma aborted_abortHandle k c s :
  activeDownloadsRef s !! k = Some c ->
  c ∈ aborted (abortHandle k s)
  /\ activeDownloadsRef (abortHandle k s) !! k = None.
Proof.
  intros H. unfold abortHandle. rewrite H. simpl. split.
  - set_solver.
  - apply lookup_delete_eq.
Qed.

(** Only the end of a stream writes to the store: any other step adds
    no blob and replaces none. *)
Lemma only_stream_end_writes e s s' k b :
  step e s = Some s' ->
  (forall c avail, e <> StreamDone c avail) ->
  blobs (storage s') !! k = Some b -> blobs (storage s) !! k = Some b.
Proof.
  intros Hstep Hne. destruct e; cbn [step] in Hstep.
  - stepped Hstep. unfold requestDownload.
    assert (Hdel : forall rm, blobs (storage (deleteDownload (id movie) rm avail s)) !! k = Some b
                   -> blobs (storage s) !! k = Some b).
    { intros rm. unfold deleteDownload, deleteVideo.
      destruct avail, rm; simpl; rewrite ?storage_abortHandle; auto;
        intros H; apply lookup_delete_Some in H; tauto. }
    destruct (List.find (is_movie (id movie)) (downloads s)) as [x|].
    + destruct (has_status paused x); [|auto].
      destruct (0 <? activeCount (downloads s))%nat;
        cbn [storage setDownloads executeDownload]; apply (Hdel false).
    + destruct (0 <? activeCount (downloads s))%nat;
        cbn [storage setDownloads executeDownload]; auto.
  - stepped Hstep. unfold pauseDownload. simpl.
    rewrite storage_abortHandle. auto.
  - stepped Hstep. unfold deleteDownload, deleteVideo.
    destruct avail; simpl; rewrite ?storage_abortHandle; auto.
    intros H. apply lookup_delete_Some in H. tauto.
  - destruct (bool_decide (k0 ∈ pendingRemovals s)); [|discriminate].
    stepped Hstep. auto.
  - stepped Hstep. unfold clearDelete, deleteVideo.
    destruct avail; simpl; auto.
    intros H. apply lookup_delete_Some in H. tauto.
  - stepped Hstep. auto.
  - stepped Hstep. unfold queueProcessor.
    destruct (activeCount (downloads s) =? 0)%nat; [|auto].
    destruct (List.find (has_status queued) (downloads s)); [|auto].
    destruct (List.find _ (movies s)); auto.
  - destruct (tasks s !! c) as [t|]; [|discriminate].
    destruct (t_phase t); try discriminate.
    destruct (live c s); [|discriminate]. stepped Hstep.
    unfold fetchResolved. destruct hasBody; cbn [negb].
    + destruct (0 <? default 0 contentLength); auto.
    + unfold finally. simpl. auto.
  - destruct (tasks s !! c) as [t|]; [|discriminate].
    destruct (t_phase t); try discriminate.
    destruct (live c s); [|discriminate]. stepped Hstep.
    unfold chunkRead. destruct (800 <? now - t_lastTime t); auto.
  - exfalso. eapply Hne. reflexivity.
  - destruct (tasks s !! c) as [t|]; [|discriminate].
    destruct (t_phase t) as [| |saved]; try discriminate. stepped Hstep.
    unfold saveSettled, finally. destruct saved; simpl; auto.
  - destruct (tasks s !! c) as [t|]; [|discriminate].
    destruct (t_phase t); try discriminate; stepped Hstep;
      rewrite storage_rejected; auto.
  - stepped Hstep. auto.
Qed.

End TransferEnd.

(** C2. Take a transfer in flight (its activation is waiting for the
    fetch or for a chunk, the item's registered handle is its
    controller) whose item is downloading.  (1) Pausing the item fires
    the signal, and when the pending wait then rejects with AbortError
    the item is paused with speed 0 and the store is as before.  (2) The
    cancellation branch on its own turns the downloading item into a
    paused one with speed 0 and writes nothing.  (3) A rejection with
    any other error name marks the item failed with speed 0 and writes
    nothing.  (4) When the stream ends but the store rejects the write,
    the item is marked failed with speed 0 and the store is as before. *)
Theorem transfer_cancelled_or_failed
    (c : Controller) (t : Task) (d : DownloadItem) (s : AppState) :
  tasks s !! c = Some t ->
  t_phase t = AwaitFetch \/ t_phase t = AwaitRead ->
  activeDownloadsRef s !! id (t_movie t) = Some c ->
  getDownloadStatus (id (t_movie t)) (downloads s) = Some d ->
  status d = downloading ->
  (exists s1 s2,
      step (PauseDownload (id (t_movie t))) s = Some s1
      /\ c ∈ aborted s1
      /\ step (Rejected c "AbortError") s1 = Some s2
      /\ settled (id (t_movie t)) paused s2
      /\ storage s2 = storage s
      /\ tasks s2 !! c = None)
  /\ (exists s',
      step (Rejected c "AbortError") s = Some s'
      /\ settled (id (t_movie t)) paused s'
      /\ storage s' = storage s)
  /\ (forall name, name <> "AbortError" ->
      exists s',
        step (Rejected c name) s = Some s'
        /\ settled (id (t_movie t)) failed s'
        /\ storage s' = storage s)
  /\ (forall avail e,
      t_phase t = AwaitRead -> c ∉ aborted s ->
      saveVideo avail (id (t_movie t)) (newBlob (t_chunks t)) (storage s)
        = inl e ->
      exists s1 s2,
        step (StreamDone c avail) s = Some s1
        /\ downloads s1 = downloads s
        /\ step (SaveSettled c) s1 = Some s2
        /\ settled (id (t_movie t)) failed s2
        /\ storage s2 = storage s).
Proof.
  intros Ht Hp Href Hd Hst. repeat split.
  - exists (pauseDownload (id (t_movie t)) s),
           (rejected c t "AbortError" (pauseDownload (id (t_movie t)) s)).
    assert (Ht1 : tasks (pauseDownload (id (t_movie t)) s) !! c = Some t)
      by (unfold pauseDownload; simpl; rewrite tasks_abortHandle; exact Ht).
    split; [reflexivity|]. split.
    { unfold pauseDownload. simpl. apply (aborted_abortHandle _ _ _ Href). }
    split; [apply step_Rejected; assumption|]. split.
    { eapply settled_abort.
      - unfold pauseDownload. simpl. rewrite downloads_abortHandle.
        rewrite getDownloadStatus_mapItem by reflexivity.
        rewrite Hd. reflexivity.
      - right. simpl. auto. }
    split; [|apply tasks_rejected].
    rewrite storage_rejected. unfold pauseDownload. simpl.
    apply storage_abortHandle.
  - exists (rejected c t "AbortError" s).
    split; [apply step_Rejected; assumption|].
    split; [eapply settled_abort; eauto | apply storage_rejected].
  - intros name Hname. exists (rejected c t name s).
    split; [apply step_Rejected; assumption|].
    split; [|apply storage_rejected].
    unfold rejected. unfold settled. rewrite downloads_finally.
    apply (settled_failure name (t_movie t) s d); [|exact Hd].
    apply String.eqb_neq, Hname.
  - intros avail e Hread Hlive Hsave.
    assert (Hstep1 : step (StreamDone c avail) s = Some (streamDone c t avail s)).
    { cbn [step]. rewrite Ht, Hread. unfold live.
      rewrite bool_decide_eq_true_2 by exact Hlive. reflexivity. }
    assert (Hs1 : streamDone c t avail s
                  = setTasks (<[c := mkTask (t_movie t) (AwaitSave false)
                                  (t_totalLength t) (t_chunks t)
                                  (t_receivedLength t) (t_lastTime t)
                                  (t_lastReceived t)]>) s).
    { unfold streamDone. rewrite Hsave. reflexivity. }
    eexists. eexists. split; [exact Hstep1|]. rewrite Hs1.
    split; [reflexivity|]. split.
    { cbn [step]. simpl. rewrite lookup_insert_eq. simpl. reflexivity. }
    split; [|unfold saveSettled, finally; simpl; reflexivity].
    unfold saveSettled. unfold settled. rewrite downloads_finally.
    apply (settled_failure "StorageError" (t_movie t) _ d); [reflexivity|].
    exact Hd.
Qed.

Definition midTransfer : AppState :=
  after [ RequestDownload movieA 0 true;
          FetchResolved 0%nat true (Some 8) 10;
          ChunkRead 0%nat fourBytes 20 ] freshApp.

Definition midTask : Task := mkTask movieA AwaitRead 8 [fourBytes] 4 10 0.

Definition midItem : DownloadItem :=
  mkItem "A" 0 downloading 172800000 (inject_Z 8 / MiB)%Q 0 (Some 0%Q).

Lemma transfer_cancelled_or_failed_witness :
  exists s',
    step (Rejected 0%nat "AbortError") midTransfer = Some s'
    /\ settled "A" paused s'
    /\ storage s' = storage midTransfer.
Proof.
  refine (proj1 (proj2
    (transfer_cancelled_or_failed 0%nat midTask midItem midTransfer
       _ _ _ _ _))).
  - vm_compute. reflexivity.
  - right. reflexivity.
  - vm_compute. reflexivity.
  - vm_compute. reflexivity.
  - reflexivity.
Defined.

(** ** C3: the end of the stream *)

Section StreamEnd.

Implicit Types (s : AppState) (c : Controller) (t : Task) (d : DownloadItem).

Lemma MiB_nonzero : ~ (MiB == 0)%Q.
Proof. unfold MiB, Qeq. simpl. lia. Qed.

Lemma MiB_positive : (0 < MiB)%Q.
Proof. unfold MiB, Qlt. simpl. lia. Qed.

Lemma bytes_of_MB (n : Z) : (inject_Z n / MiB * MiB == inject_Z n)%Q.
Proof. field. apply MiB_nonzero. Qed.

Lemma blobSize_snoc (chunks : list Chunk) (value : Chunk) :
  blobSize (newBlob (chunks ++ [value]))
  = blobSize (newBlob chunks) + Z.of_nat (length value).
Proof.
  unfold blobSize, newBlob.
  rewrite List.concat_app, List.length_app. simpl.
  rewrite List.app_nil_r. lia.
Qed.

Lemma step_ChunkRead c t value now s :
  tasks s !! c = Some t -> t_phase t = AwaitRead -> c ∉ aborted s ->
  step (ChunkRead c value now) s = Some (chunkRead c t value now s).
Proof.
  intros Ht Hp Hlive. cbn [step]. rewrite Ht, Hp. unfold live.
  rewrite bool_decide_eq_true_2 by exact Hlive. reflexivity.
Qed.

Lemma step_StreamDone c t avail s :
  tasks s !! c = Some t -> t_phase t = AwaitRead -> c ∉ aborted s ->
  step (StreamDone c avail) s = Some (streamDone c t avail s).
Proof.
  intros Ht Hp Hlive. cbn [step]. rewrite Ht, Hp. unfold live.
  rewrite bool_decide_eq_true_2 by exact Hlive. reflexivity.
Qed.

Lemma step_FetchResolved c t hasBody len now s :
  tasks s !! c = Some t -> t_phase t = AwaitFetch -> c ∉ aborted s ->
  step (FetchResolved c hasBody len now) s
  = Some (fetchResolved c t hasBody len now s).
Proof.
  intros Ht Hp Hlive. cbn [step]. rewrite Ht, Hp. unfold live.
  rewrite bool_decide_eq_true_2 by exact Hlive. reflexivity.
Qed.

(** What holds of an activation reading its stream and of its item. *)
Record Reading (c : Controller) (m : Movie) (chunks : list Chunk)
    (st : Status) (s : AppState) : Prop := {
  reading_task : exists t,
    tasks s !! c = Some t /\ t_movie t = m /\ t_phase t = AwaitRead
    /\ t_chunks t = chunks
    /\ t_receivedLength t = blobSize (newBlob chunks);
  reading_live : c ∉ aborted s;
  reading_item : exists d,
    getDownloadStatus (id m) (downloads s) = Some d /\ status d = st
    /\ (downloadedSizeMB d * MiB <= inject_Z (blobSize (newBlob chunks)))%Q;
}.

Lemma Reading_chunkRead c m chunks st value now s :
  Reading c m chunks st s ->
  exists s',
    step (ChunkRead c value now) s = Some s'
    /\ storage s' = storage s
    /\ Reading c m (chunks ++ [value]) st s'.
Proof.
  intros [(t & Ht & Hm & Hp & Hc & Hr) Hlive (d & Hd & Hst & Hle)].
  exists (chunkRead c t value now s).
  split; [apply step_ChunkRead; assumption|].
  assert (Hgrow : (inject_Z (blobSize (newBlob chunks))
                   <= inject_Z (blobSize (newBlob (chunks ++ [value]))))%Q).
  { rewrite <- Zle_Qle. rewrite blobSize_snoc. lia. }
  unfold chunkRead. rewrite Hm, Hc, Hr, <- blobSize_snoc.
  destruct (800 <? now - t_lastTime t).
  - split; [reflexivity|]. split.
    + eexists. split; [simpl; apply lookup_insert_eq|]. simpl. auto.
    + exact Hlive.
    + cbn [downloads setTasks setDownloads].
      rewrite getDownloadStatus_mapItem by reflexivity. rewrite Hd.
      eexists. split; [reflexivity|]. simpl. split; [exact Hst|].
      rewrite bytes_of_MB. apply Qle_refl.
  - split; [reflexivity|]. split.
    + eexists. split; [simpl; apply lookup_insert_eq|]. simpl. auto.
    + exact Hlive.
    + exists d. cbn [downloads setTasks]. split; [exact Hd|].
      split; [exact Hst|]. eapply Qle_trans; eassumption.
Qed.

(** The [ChunkRead] events of a stream delivering [vs], each chunk with
    the clock reading taken after it. *)
Definition reads (c : Controller) (vs : list (Chunk * Z)) : list Event :=
  List.map (fun v => ChunkRead c (fst v) (snd v)) vs.

Lemma Reading_reads c m st vs : forall chunks s,
  Reading c m chunks st s ->
  exists s',
    run (reads c vs) s = Some s'
    /\ storage s' = storage s
    /\ Reading c m (chunks ++ List.map fst vs) st s'.
Proof.
  induction vs as [|[value now] vs IH]; intros chunks s H.
  - exists s. simpl. rewrite List.app_nil_r. auto.
  - destruct (Reading_chunkRead c m chunks st value now s H)
      as (s1 & Hstep & Hsto & H1).
    destruct (IH _ _ H1) as (s' & Hrun & Hsto' & H').
    exists s'.
    change (run (reads c ((value, now) :: vs)) s)
      with (match step (ChunkRead c value now) s with
            | Some s2 => run (reads c vs) s2
            | None => None
            end).
    rewrite Hstep. split; [exact Hrun|].
    split; [congruence|].
    rewrite <- List.app_assoc in H'. exact H'.
Qed.

Lemma run_app es1 es2 s s1 :
  run es1 s = Some s1 -> run (es1 ++ es2) s = run es2 s1.
Proof.
  revert s. induction es1 as [|e es1 IH]; simpl; intros s H.
  - congruence.
  - destruct (step e s); [auto|discriminate].
Qed.

Lemma Reading_fetchResolved c t d len now s :
  tasks s !! c = Some t -> t_phase t = AwaitFetch -> c ∉ aborted s ->
  getDownloadStatus (id (t_movie t)) (downloads s) = Some d ->
  (downloadedSizeMB d == 0)%Q ->
  exists s',
    step (FetchResolved c true len now) s = Some s'
    /\ storage s' = storage s
    /\ Reading c (t_movie t) [] (status d) s'.
Proof.
  intros Ht Hp Hlive Hd Hz.
  exists (fetchResolved c t true len now s).
  split; [apply step_FetchResolved; assumption|].
  unfold fetchResolved. cbn [negb].
  assert (H0 : (downloadedSizeMB d * MiB <= inject_Z (blobSize (newBlob [])))%Q).
  { rewrite Hz. unfold blobSize, newBlob. simpl. rewrite Qmult_0_l.
    apply Qle_refl. }
  destruct (0 <? default 0 len).
  - split; [reflexivity|]. split.
    + eexists. split; [simpl; apply lookup_insert_eq|]. simpl. auto.
    + exact Hlive.
    + cbn [downloads setTasks setDownloads].
      rewrite getDownloadStatus_mapItem by reflexivity. rewrite Hd.
      eexists. split; [reflexivity|]. simpl. auto.
  - split; [reflexivity|]. split.
    + eexists. split; [simpl; apply lookup_insert_eq|]. simpl. auto.
    + exact Hlive.
    + exists d. auto.
Qed.

End StreamEnd.

Lemma saveVideo_stored avail k b st st' :
  saveVideo avail k b st = inr st' ->
  getVideo k st' = Some b
  /\ forall k', k' <> k -> getVideo k' st' = getVideo k' st.
Proof.
  unfold saveVideo, getVideo. destruct (negb avail); [discriminate|].
  destruct (quota st <? usage (<[k:=b]> (blobs st))); [discriminate|].
  intros H. injection H as <-. simpl. split.
  - apply lookup_insert_eq.
  - intros k' Hk. apply lookup_insert_ne. congruence.
Qed.

(** The transfer of the scenario at its end: A is completed, its blob
    holds the four bytes received, and the recorded downloaded size is
    still 0, no sample having been taken in the 10 ms the stream lasted. *)
Definition firstDone : AppState := after (firstn 10 scenario) freshApp.

(** C3, as stated, fails: a stream that ends normally leaves a completed
    item whose recorded downloaded size (0 MB) does not match the size of
    the stored blob (4 bytes), in bytes or in MB. *)
Lemma completed_size_mismatch :
  exists d b,
    run (firstn 10 scenario) freshApp = Some firstDone
    /\ getDownloadStatus "A" (downloads firstDone) = Some d
    /\ status d = completed
    /\ getVideo "A" (storage firstDone) = Some b
    /\ blobSize b = 4
    /\ ~ (downloadedSizeMB d == inject_Z (blobSize b))%Q
    /\ ~ (downloadedSizeMB d == inject_Z (blobSize b) / MiB)%Q.
Proof.
  eexists. eexists.
  split; [vm_compute; reflexivity|].
  split; [vm_compute; reflexivity|].
  split; [reflexivity|].
  split; [vm_compute; reflexivity|].
  split; [reflexivity|].
  split; vm_compute; discriminate.
Qed.

(** C3, amended.  An uninterrupted transfer (the fetch resolves with a
    body, the chunks [vs] arrive, the stream ends) of an item whose
    recorded downloaded size is 0 assembles exactly the chunks received
    into one blob and issues the write; up to there the item keeps its
    status.  If the store accepts the write, the blob is retrievable
    under the item's id and the step after the write marks the item
    completed with progress 100 and speed 0.  If the store rejects it,
    the store is unchanged and the item is marked failed, not completed.
    The completion step does not change the recorded downloaded size,
    which is at most the size of the blob (in megabytes) and need not
    equal it. *)
Theorem stream_end_outcome
    (c : Controller) (t : Task) (d : DownloadItem) (s : AppState)
    (len : option Z) (now : Z) (vs : list (Chunk * Z)) (avail : bool) :
  tasks s !! c = Some t ->
  t_phase t = AwaitFetch ->
  c ∉ aborted s ->
  getDownloadStatus (id (t_movie t)) (downloads s) = Some d ->
  (downloadedSizeMB d == 0)%Q ->
  exists s1 d1,
    run (FetchResolved c true len now :: reads c vs ++ [StreamDone c avail]) s
      = Some s1
    /\ getDownloadStatus (id (t_movie t)) (downloads s1) = Some d1
    /\ status d1 = status d
    /\ (downloadedSizeMB d1 * MiB
        <= inject_Z (blobSize (newBlob (List.map fst vs))))%Q
    /\ match saveVideo avail (id (t_movie t)) (newBlob (List.map fst vs))
                       (storage s) with
       | inr st =>
           storage s1 = st
           /\ getVideo (id (t_movie t)) st = Some (newBlob (List.map fst vs))
           /\ exists s2 d2,
                step (SaveSettled c) s1 = Some s2
                /\ storage s2 = st
                /\ getDownloadStatus (id (t_movie t)) (downloads s2) = Some d2
                /\ status d2 = completed
                /\ progress d2 = inject_Z 100
                /\ speed d2 = Some 0%Q
                /\ downloadedSizeMB d2 = downloadedSizeMB d1
       | inl _ =>
           storage s1 = storage s
           /\ exists s2 d2,
                step (SaveSettled c) s1 = Some s2
                /\ storage s2 = storage s
                /\ getDownloadStatus (id (t_movie t)) (downloads s2) = Some d2
                /\ status d2 = failed
                /\ speed d2 = Some 0%Q
       end.
Proof.
  intros Ht Hp Hlive Hd Hz.
  destruct (Reading_fetchResolved c t d len now s Ht Hp Hlive Hd Hz)
    as (sa & Hstepa & Hstoa & Ha).
  destruct (Reading_reads c (t_movie t) (status d) vs [] sa Ha)
    as (sb & Hrunb & Hstob & Hb).
  simpl in Hb.
  destruct Hb as [(tb & Htb & Hm & Hpb & Hc & Hr) Hliveb (d1 & Hd1 & Hst1 & Hle)].
  exists (streamDone c tb avail sb), d1.
  assert (Hrun : run (FetchResolved c true len now
                        :: reads c vs ++ [StreamDone c avail]) s
                 = Some (streamDone c tb avail sb)).
  { change (run (FetchResolved c true len now
                   :: reads c vs ++ [StreamDone c avail]) s)
      with (match step (FetchResolved c true len now) s with
            | Some s2 => run (reads c vs ++ [StreamDone c avail]) s2
            | None => None
            end).
    rewrite Hstepa, (run_app _ _ _ _ Hrunb).
    cbn [run]. rewrite (step_StreamDone c tb avail sb Htb Hpb Hliveb).
    reflexivity. }
  split; [exact Hrun|].
  assert (Hdl : downloads (streamDone c tb avail sb) = downloads sb).
  { unfold streamDone. destruct (saveVideo avail _ _ (storage sb)); reflexivity. }
  rewrite Hdl. split; [exact Hd1|]. split; [exact Hst1|]. split; [exact Hle|].
  assert (Hsto : storage sb = storage s) by congruence.
  unfold streamDone. rewrite Hm, Hc, Hsto.
  destruct (saveVideo avail (id (t_movie t)) (newBlob (List.map fst vs))
                      (storage s)) as [e|st] eqn:Esave.
  - split; [simpl; exact Hsto|].
    eexists. eexists.
    split; [cbn [step]; simpl; rewrite lookup_insert_eq; simpl; reflexivity|].
    split; [simpl; exact Hsto|].
    unfold saveSettled. rewrite downloads_finally, downloads_catchError.
    cbn [String.eqb Ascii.eqb Bool.eqb]. cbn [t_movie downloads setTasks].
    rewrite getDownloadStatus_mapItem by reflexivity. rewrite Hd1.
    split; [reflexivity|]. simpl. auto.
  - split; [reflexivity|].
    split; [apply (saveVideo_stored _ _ _ _ _ Esave)|].
    eexists. eexists.
    split; [cbn [step]; simpl; rewrite lookup_insert_eq; simpl; reflexivity|].
    split; [reflexivity|].
    unfold saveSettled. rewrite downloads_finally.
    cbn [t_movie downloads setTasks setDownloads setStorage].
    rewrite getDownloadStatus_mapItem by reflexivity. rewrite Hd1.
    split; [reflexivity|]. simpl. auto.
Qed.

Definition startedA : AppState := after [RequestDownload movieA 0 true] freshApp.

Lemma stream_end_outcome_witness :
  exists s1 d1,
    run (FetchResolved 0%nat true (Some 4) 10
           :: reads 0%nat [(fourBytes, 20)] ++ [StreamDone 0%nat true])
        startedA = Some s1
    /\ getDownloadStatus "A" (downloads s1) = Some d1
    /\ status d1 = downloading.
Proof.
  destruct (stream_end_outcome 0%nat (mkTask movieA AwaitFetch 0 [] 0 0 0)
              (newItem movieA 0 0) startedA (Some 4) 10 [(fourBytes, 20)] true)
    as (s1 & d1 & Hrun & Hd1 & Hst & _).
  - vm_compute. reflexivity.
  - reflexivity.
  - vm_compute. discriminate.
  - vm_compute. reflexivity.
  - reflexivity.
  - exists s1, d1. auto.
Defined.

(** ** C4: admission in insertion order *)

Section Fifo.

Implicit Types (ds : list DownloadItem) (d : DownloadItem) (k : string).

Lemma find_split (p : DownloadItem -> bool) ds q :
  List.find p ds = Some q ->
  exists l1 l2,
    ds = l1 ++ q :: l2 /\ Forall (fun d => p d = false) l1 /\ p q = true.
Proof.
  induction ds as [|d ds IH]; simpl; [discriminate|].
  destruct (p d) eqn:E.
  - intros H. injection H as <-. exists [], ds. auto.
  - intros H. destruct (IH H) as (l1 & l2 & -> & Hall & Hq).
    exists (d :: l1), l2. auto.
Qed.

Lemma filter_absent k ds :
  ~ In k (ids ds) -> List.filter (fun d => negb (is_movie k d)) ds = ds.
Proof.
  induction ds as [|d ds IH]; simpl; intros H; [reflexivity|].
  destruct (is_movie k d) eqn:E.
  - apply is_movie_true in E. tauto.
  - simpl. f_equal. apply IH. tauto.
Qed.

Lemma filter_other_idem k ds :
  List.filter (fun d => negb (is_movie k d))
    (List.filter (fun d => negb (is_movie k d)) ds)
  = List.filter (fun d => negb (is_movie k d)) ds.
Proof. apply filter_absent, ids_filter_other. Qed.

(** Dropping the entry of an item that is not downloading does not
    change the number of active items. *)
Lemma activeCount_drop_inactive k ds e :
  NoDup (ids ds) ->
  getDownloadStatus k ds = Some e -> status e <> downloading ->
  activeCount (List.filter (fun d => negb (is_movie k d)) ds)
  = activeCount ds.
Proof.
  unfold getDownloadStatus.
  induction ds as [|d ds IH]; simpl; intros Hnd Hfind Hst; [reflexivity|].
  apply NoDup_cons in Hnd as [Hnotin Hnd].
  destruct (is_movie k d) eqn:E; simpl.
  - injection Hfind as ->. apply is_movie_true in E. subst k.
    rewrite filter_absent
      by (intros Hin; apply Hnotin, list_elem_of_In, Hin).
    rewrite activeCount_cons.
    apply has_status_false in Hst. rewrite Hst. reflexivity.
  - rewrite !activeCount_cons. f_equal. apply IH; assumption.
Qed.

(** The collection after an accepted request, in both cases of the
    admission decision: the new entry, created downloading or queued,
    stands last. *)
Lemma enqueued_eq m now ds :
  enqueued m now ds
  = List.filter (fun d => negb (is_movie (id m) d)) ds
    ++ [newItem m now (activeCount ds)].
Proof.
  unfold enqueued. destruct (0 <? activeCount ds)%nat eqn:E; [reflexivity|].
  apply enqueued_idle_tail. apply Nat.ltb_ge in E. lia.
Qed.

End Fifo.

(** A movie uploaded in the admin panel.  The catalogue is not
    persisted, the collection is. *)
Definition movieU : Movie :=
  mkMovie "m1711111111111" "Home video" "https://cdn.example/u.mp4".

(** The page was reloaded while A was downloading and the uploaded
    movie and B were queued behind it, and A has then been paused. *)
Definition strandedApp : AppState :=
  after [ PauseDownload "A" ]
    (initialState [movieA; movieB; movieC]
       [ newItem movieA 0 0; newItem movieU 1 1; newItem movieB 2 1 ]
       emptyStore).

(** C4, as stated, fails: no item is downloading and two entries are
    queued, but the queue processor promotes neither, because the movie
    of the earliest queued entry is not in the catalogue and it looks no
    further; B stays queued, and C, requested after B, is downloading
    at once while B still waits. *)
Lemma queue_stalls_on_missing_movie :
  statuses strandedApp
  = [("A", paused); ("m1711111111111", queued); ("B", queued)]
  /\ activeCount (downloads strandedApp) = 0%nat
  /\ queueProcessor (downloads strandedApp) (movies strandedApp) strandedApp
     = strandedApp
  /\ statuses (after [ QueueProcessor; RequestDownload movieC 9 true;
                       QueueProcessor ] strandedApp)
     = [("A", paused); ("m1711111111111", queued); ("B", queued);
        ("C", downloading)].
Proof. repeat split; vm_compute; reflexivity. Qed.

(** C4, amended.  The effect and the handler are those of the render of
    the state they run in, whose collection has no duplicate ids.
    (1) When no item is downloading and the earliest queued entry in
    list order is [q] (every entry before it is not queued) and its
    movie is in the catalogue, the queue processor turns [q], and no
    other entry, into a downloading one and starts a transfer for its
    movie.  (2) A request for a paused item drops its entry and appends
    a new one at the end of the list, created downloading when no
    transfer is active and queued otherwise, exactly as a request for an
    item that is not tracked would; when no transfer is active, a
    transfer for it is started at once.  (3) When no item is downloading
    and the movie of the earliest queued entry is not in the catalogue,
    the queue processor does nothing, so no entry queued behind it is
    promoted either, and a request for an item that is not tracked is
    appended as downloading and started at once, ahead of every queued
    entry. *)
Theorem fifo_admission (s : AppState) :
  NoDup (ids (downloads s)) ->
  (forall q m,
      activeCount (downloads s) = 0%nat ->
      List.find (has_status queued) (downloads s) = Some q ->
      List.find (fun m => String.eqb (id m) (movieId q)) (movies s) = Some m ->
      exists l1 l2,
        downloads s = l1 ++ q :: l2
        /\ Forall (fun d => status d <> queued) l1
        /\ downloads (queueProcessor (downloads s) (movies s) s)
           = l1 ++ with_status downloading q :: l2
        /\ id m = movieId q
        /\ tasks (queueProcessor (downloads s) (movies s) s) !! nextController s
           = Some (mkTask m AwaitFetch 0 [] 0 0 0))
  /\ (forall m e now avail,
      getDownloadStatus (id m) (downloads s) = Some e ->
      status e = paused ->
      let s' := requestDownload (downloads s) m now avail s in
      downloads s'
      = List.filter (fun d => negb (is_movie (id m) d)) (downloads s)
        ++ [newItem m now (activeCount (downloads s))]
      /\ status (newItem m now (activeCount (downloads s)))
         = (if (activeCount (downloads s) =? 0)%nat
            then downloading else queued)
      /\ downloads s'
         = downloads
             (requestDownload (downloads (setDownloads
                   (List.filter (fun d => negb (is_movie (id m) d))) s)) m now avail
                (setDownloads
                   (List.filter (fun d => negb (is_movie (id m) d))) s))
      /\ (activeCount (downloads s) = 0%nat ->
          tasks s' !! nextController s = Some (mkTask m AwaitFetch 0 [] 0 0 0)
          /\ activeDownloadsRef s' !! id m = Some (nextController s)))
  /\ (forall q,
      activeCount (downloads s) = 0%nat ->
      List.find (has_status queued) (downloads s) = Some q ->
      List.find (fun m => String.eqb (id m) (movieId q)) (movies s) = None ->
      queueProcessor (downloads s) (movies s) s = s
      /\ (forall m now avail,
            getDownloadStatus (id m) (downloads s) = None ->
            let s' := requestDownload (downloads s) m now avail s in
            downloads s' = downloads s ++ [newItem m now 0]
            /\ status (newItem m now 0) = downloading
            /\ In q (downloads s') /\ status q = queued
            /\ tasks s' !! nextController s
               = Some (mkTask m AwaitFetch 0 [] 0 0 0))).
Proof.
  intros Hnd. split; [|split].
  - intros q m H0 Hq Hm. unfold queueProcessor. rewrite H0, Hq, Hm. simpl.
    destruct (find_split _ _ _ Hq) as (l1 & l2 & Hds & Hall & Hqq).
    apply List.find_some in Hm as [_ Hid]. apply String.eqb_eq in Hid.
    exists l1, l2. split; [exact Hds|]. split.
    { eapply Forall_impl; [exact Hall|]. intros d Hd.
      apply has_status_false, Hd. }
    split; [|split; [exact Hid | apply lookup_insert_eq]].
    rewrite Hid, Hds. rewrite Hds in Hnd. unfold ids in Hnd.
    rewrite List.map_app in Hnd. simpl in Hnd.
    apply NoDup_app in Hnd as (_ & Hdisj & Hnd2).
    apply NoDup_cons in Hnd2 as [Hq2 _].
    unfold mapItem. rewrite List.map_app. simpl.
    unfold is_movie at 2. rewrite String.eqb_refl. f_equal.
    + apply (mapItem_absent (movieId q)). intros Hin.
      apply list_elem_of_In in Hin. apply (Hdisj _ Hin). left.
    + f_equal. apply (mapItem_absent (movieId q)). intros Hin.
      apply Hq2, list_elem_of_In, Hin.
  - intros m e now avail He Hst s'.
    assert (Hdl : downloads s'
                  = List.filter (fun d => negb (is_movie (id m) d)) (downloads s)
                    ++ [newItem m now (activeCount (downloads s))]).
    { unfold s'. rewrite downloads_requestDownload.
      unfold getDownloadStatus in He. rewrite He.
      apply has_status_true in Hst. rewrite Hst. apply enqueued_eq. }
    split; [exact Hdl|]. split; [reflexivity|]. split.
    + rewrite Hdl, downloads_requestDownload.
      cbn [downloads setDownloads].
      pose proof (ids_filter_other (id m) (downloads s)) as Habs.
      apply getDownloadStatus_None in Habs.
      unfold getDownloadStatus in Habs. rewrite Habs.
      rewrite enqueued_eq, filter_other_idem.
      rewrite (activeCount_drop_inactive (id m) (downloads s) e); auto.
      congruence.
    + intros H0. unfold s', requestDownload.
      unfold getDownloadStatus in He. rewrite He.
      apply has_status_true in Hst. rewrite Hst, H0. cbn [Nat.ltb Nat.leb].
      unfold executeDownload. cbn [tasks activeDownloadsRef setDownloads nextController].
      assert (Hn : nextController (deleteDownload (id m) false avail s)
                   = nextController s).
      { unfold deleteDownload, abortHandle.
        destruct (activeDownloadsRef s !! id m);
          destruct (deleteVideo avail (id m) _); reflexivity. }
      rewrite Hn. split; apply lookup_insert_eq.
  - intros q H0 Hq Hm. split.
    { unfold queueProcessor. rewrite H0, Hq, Hm. reflexivity. }
    intros m now avail Hnone s'.
    assert (Hdl : downloads s' = downloads s ++ [newItem m now 0]).
    { unfold s'. rewrite downloads_requestDownload.
      unfold getDownloadStatus in Hnone. rewrite Hnone.
      rewrite enqueued_eq, H0. f_equal.
      apply filter_absent. apply getDownloadStatus_None, Hnone. }
    split; [exact Hdl|]. split; [reflexivity|].
    apply List.find_some in Hq as [Hin Hst]. apply has_status_true in Hst.
    split; [rewrite Hdl; apply List.in_or_app; left; exact Hin|].
    split; [exact Hst|].
    unfold s', requestDownload.
    unfold getDownloadStatus in Hnone. rewrite Hnone, H0.
    cbn [Nat.ltb Nat.leb].
    unfold executeDownload. cbn [tasks setDownloads nextController].
    apply lookup_insert_eq.
Qed.

Lemma fifo_admission_witness :
  exists l1 l2,
    downloads firstDone = l1 ++ newItem movieB 1 1 :: l2
    /\ Forall (fun d => status d <> queued) l1
    /\ downloads (queueProcessor (downloads firstDone) (movies firstDone) firstDone)
       = l1 ++ with_status downloading (newItem movieB 1 1) :: l2.
Proof.
  assert (Hnd : NoDup (ids (downloads firstDone))).
  { apply (bool_decide_unpack _). vm_compute. exact I. }
  destruct (proj1 (fifo_admission firstDone Hnd) (newItem movieB 1 1) movieB)
    as (l1 & l2 & H1 & H2 & H3 & _).
  - vm_compute. reflexivity.
  - vm_compute. reflexivity.
  - vm_compute. reflexivity.
  - exists l1, l2. auto.
Defined.

(** ** C5: a request for an item that is already tracked *)

Section Request.

Implicit Types (s : AppState) (k : string) (m : Movie).

Lemma storage_deleteDownload k rm s :
  getVideo k (storage (deleteDownload k rm true s)) = None.
Proof.
  unfold deleteDownload, deleteVideo, getVideo.
  destruct rm; simpl; apply lookup_delete_eq.
Qed.

Lemma storage_requestDownload m now avail s :
  storage (requestDownload (downloads s) m now avail s)
  = match List.find (is_movie (id m)) (downloads s) with
    | Some e => if has_status paused e
                then storage (deleteDownload (id m) false avail s)
                else storage s
    | None => storage s
    end.
Proof.
  unfold requestDownload.
  destruct (List.find (is_movie (id m)) (downloads s)) as [e|];
    [destruct (has_status paused e); [|reflexivity]|];
    destruct (0 <? activeCount (downloads s))%nat; reflexivity.
Qed.

Lemma getDownloadStatus_enqueued m now ds :
  getDownloadStatus (id m) (enqueued m now ds)
  = Some (newItem m now (activeCount ds)).
Proof.
  rewrite enqueued_eq. apply getDownloadStatus_enqueued_tail. reflexivity.
Qed.

End Request.

(** An item whose transfer failed: the fetch of A rejects with a network
    error. *)
Definition failedApp : AppState :=
  after [RequestDownload movieA 0 true; Rejected 0%nat "TypeError"] freshApp.

(** C5, as stated, fails: a request for the failed item A changes
    nothing, the entry stays failed, whereas the same request on a
    collection that does not track A creates a downloading entry. *)
Lemma failed_rerequest_is_ignored :
  (exists d, getDownloadStatus "A" (downloads failedApp) = Some d
             /\ status d = failed)
  /\ requestDownload (downloads failedApp) movieA 5 true failedApp = failedApp
  /\ (exists d, getDownloadStatus "A"
                  (downloads (requestDownload (downloads freshApp) movieA 5
                                true freshApp)) = Some d
                /\ status d = downloading).
Proof.
  split; [eexists; split; [vm_compute; reflexivity | reflexivity]|].
  split; [vm_compute; reflexivity|].
  eexists; split; [vm_compute; reflexivity | reflexivity].
Qed.

(** C5, amended.  A request for an item whose entry is failed is a
    no-op, as it is for a downloading, queued or completed entry: the
    state is left untouched.  Only a paused entry is reset: its partial
    data is discarded from the store and the item is tracked by a new
    entry, downloading when no transfer is active and queued otherwise,
    which is also what a request for an untracked item creates. *)
Theorem request_for_tracked_item
    (m : Movie) (now : Z) (avail : bool) (s : AppState) :
  (forall e,
      getDownloadStatus (id m) (downloads s) = Some e ->
      status e <> paused ->
      requestDownload (downloads s) m now avail s = s)
  /\ (forall e,
      getDownloadStatus (id m) (downloads s) = Some e ->
      status e = paused ->
      getDownloadStatus (id m) (downloads (requestDownload (downloads s) m now avail s))
        = Some (newItem m now (activeCount (downloads s)))
      /\ (avail = true ->
          getVideo (id m)
            (storage (requestDownload (downloads s) m now avail s)) = None))
  /\ (getDownloadStatus (id m) (downloads s) = None ->
      getDownloadStatus (id m) (downloads (requestDownload (downloads s) m now avail s))
        = Some (newItem m now (activeCount (downloads s)))
      /\ storage (requestDownload (downloads s) m now avail s) = storage s).
Proof.
  split; [|split].
  - intros e He Hst. unfold getDownloadStatus in He.
    unfold requestDownload. rewrite He.
    apply has_status_false in Hst. rewrite Hst. reflexivity.
  - intros e He Hst. unfold getDownloadStatus in He.
    apply has_status_true in Hst. split.
    + rewrite downloads_requestDownload, He, Hst.
      apply getDownloadStatus_enqueued.
    + intros ->. rewrite storage_requestDownload, He, Hst.
      apply storage_deleteDownload.
  - intros Hn. unfold getDownloadStatus in Hn. split.
    + rewrite downloads_requestDownload, Hn. apply getDownloadStatus_enqueued.
    + rewrite storage_requestDownload, Hn. reflexivity.
Qed.

Lemma request_for_tracked_item_witness :
  requestDownload (downloads failedApp) movieA 5 true failedApp = failedApp.
Proof.
  refine (proj1 (request_for_tracked_item movieA 5 true failedApp)
            (mkItem "A" 0 failed 172800000 0 0 (Some 0%Q)) _ _).
  - vm_compute. reflexivity.
  - simpl. discriminate.
Defined.

(** ** C6: pause *)

(** A is downloading and B waits in the queue. *)
Definition queuedApp : AppState :=
  after [RequestDownload movieA 0 true; RequestDownload movieB 1 true] freshApp.

(** C6, as stated, fails: B is queued, not downloading, and pausing it is
    not a no-op: its entry becomes paused. *)
Lemma pause_changes_queued_item :
  (exists d, getDownloadStatus "B" (downloads queuedApp) = Some d
             /\ status d = queued)
  /\ (exists d, getDownloadStatus "B" (downloads (pauseDownload "B" queuedApp))
                = Some d
                /\ status d = paused)
  /\ pauseDownload "B" queuedApp <> queuedApp.
Proof.
  split; [eexists; split; [vm_compute; reflexivity | reflexivity]|].
  split; [eexists; split; [vm_compute; reflexivity | reflexivity]|].
  intros H. apply (f_equal statuses) in H. vm_compute in H. discriminate H.
Qed.

(** C6, amended.  [pause] marks the entry of the item paused and clears
    its speed whatever its status was, downloading or not; if a transfer
    handle is registered for the item it is cancelled and released, and
    otherwise no signal fires.  The other entries and the store are left
    as they were, and the collection is unchanged when the item is not
    tracked. *)
Theorem pause_marks_tracked_item (k : string) (s : AppState) :
  (forall d, getDownloadStatus k (downloads s) = Some d ->
             settled k paused (pauseDownload k s))
  /\ (getDownloadStatus k (downloads s) = None ->
      downloads (pauseDownload k s) = downloads s)
  /\ (forall k', k' <> k ->
      getDownloadStatus k' (downloads (pauseDownload k s))
      = getDownloadStatus k' (downloads s))
  /\ (forall c, activeDownloadsRef s !! k = Some c ->
      c ∈ aborted (pauseDownload k s)
      /\ activeDownloadsRef (pauseDownload k s) !! k = None)
  /\ (activeDownloadsRef s !! k = None ->
      aborted (pauseDownload k s) = aborted s)
  /\ storage (pauseDownload k s) = storage s.
Proof.
  unfold pauseDownload.
  cbn [downloads setDownloads storage aborted activeDownloadsRef].
  rewrite downloads_abortHandle, storage_abortHandle.
  split; [|split; [|split; [|split; [|split]]]].
  - intros d Hd. unfold settled. cbn [downloads setDownloads].
    rewrite downloads_abortHandle.
    rewrite getDownloadStatus_mapItem by reflexivity. rewrite Hd.
    eexists. split; [reflexivity|]. simpl. auto.
  - intros H. apply mapItem_absent. apply getDownloadStatus_None, H.
  - intros k' Hk. apply getDownloadStatus_mapItem_other; [congruence|reflexivity].
  - intros c H. apply (aborted_abortHandle k c s H).
  - intros H. unfold abortHandle. rewrite H. reflexivity.
  - reflexivity.
Qed.

Lemma pause_marks_tracked_item_witness :
  settled "B" paused (pauseDownload "B" queuedApp).
Proof.
  refine (proj1 (pause_marks_tracked_item "B" queuedApp)
            (newItem movieB 1 1) _).
  vm_compute. reflexivity.
Defined.

(** ** C7: what is persisted and what is loaded *)

Section Persistence.

Lemma statusOfString_statusString st :
  statusOfString (statusString st) = Some st.
Proof. destruct st; reflexivity. Qed.

Lemma itemOfJSON_itemToJSON d : itemOfJSON (itemToJSON d) = Some d.
Proof.
  destruct d as [m p st e t dl [v|]]; unfold itemToJSON, itemOfJSON;
    cbn -[statusOfString statusString];
    rewrite statusOfString_statusString; reflexivity.
Qed.

Lemma parse_stringify ds : parse (stringify ds) = Some ds.
Proof.
  unfold parse, stringify.
  induction ds as [|d ds IH]; [reflexivity|].
  cbn [List.map itemsOfJSON]. rewrite itemOfJSON_itemToJSON, IH. reflexivity.
Qed.

Lemma speed_is_persisted d :
  exists fields,
    itemToJSON d = JObject fields
    /\ property "speed" fields = option_map JNumber (speed d).
Proof.
  eexists. split; [reflexivity|].
  destruct (speed d); reflexivity.
Qed.

End Persistence.

(** C7, as stated, fails: the entry that [requestDownload] created for A
    is persisted with its [speed] property, and, persisted as
    downloading, it is loaded as downloading, not as paused. *)
Lemma persisted_with_speed_loaded_downloading :
  exists d fields,
    downloads startedA = [d]
    /\ status d = downloading
    /\ itemToJSON d = JObject fields
    /\ property "speed" fields = Some (JNumber 0)
    /\ loadDownloads (persistDownloads (downloads startedA) ∅) = Some [d].
Proof.
  eexists. eexists.
  split; [vm_compute; reflexivity|].
  split; [reflexivity|].
  split; [reflexivity|].
  split; [reflexivity|].
  vm_compute. reflexivity.
Qed.

(** C7, amended.  The persisted metadata of an item is the whole item:
    it carries the [speed] property whenever the item has a speed.
    Loading returns the collection exactly as it was persisted, so every
    item comes back with the status it was persisted with, downloading
    included. *)
Theorem persisted_collection_is_loaded_unchanged
    (ds : list DownloadItem) (ls : gmap string JSON) :
  loadDownloads (persistDownloads ds ls) = Some ds
  /\ Forall (fun d =>
       exists fields,
         itemToJSON d = JObject fields
         /\ property "speed" fields = option_map JNumber (speed d)) ds.
Proof.
  split.
  - unfold loadDownloads, persistDownloads. rewrite lookup_insert_eq.
    apply parse_stringify.
  - apply Forall_forall. intros d _. apply speed_is_persisted.
Qed.

(** ** C8: the units of the size figures *)

Section Units.

Lemma inject_Z_nonzero z : z <> 0 -> ~ (inject_Z z == 0)%Q.
Proof. intros H. unfold Qeq. simpl. lia. Qed.

(** The ratio of two byte counts is the ratio of their megabytes. *)
Lemma ratio_units (r T : Q) :
  ~ (T == 0)%Q ->
  (r / T * inject_Z 100 == r / MiB / (T / MiB) * inject_Z 100)%Q.
Proof. intros H. pose proof MiB_nonzero. field. auto. Qed.

Lemma gigabyte_units (x : Q) : (x / inject_Z 1024 * inject_Z 1024 == x)%Q.
Proof. field. Qed.

End Units.

(** A transfer of A whose response announces 2 MiB, sampled one second
    after the response with four bytes received. *)
Definition sampledApp : AppState :=
  after [ RequestDownload movieA 0 true;
          FetchResolved 0%nat true (Some 2097152) 0;
          ChunkRead 0%nat fourBytes 1000 ] freshApp.

(** C8, as stated, fails: with 2097152 bytes announced and 4 bytes
    received in one second, the size fields of the item hold 2 and
    4/1048576, which are megabytes, and the speed holds 4/1048576, which
    is megabytes per second; none of them is the byte figure. *)
Lemma size_fields_are_megabytes :
  exists d v,
    getDownloadStatus "A" (downloads sampledApp) = Some d
    /\ speed d = Some v
    /\ (totalSizeMB d == 2)%Q
    /\ ~ (totalSizeMB d == inject_Z 2097152)%Q
    /\ (downloadedSizeMB d * MiB == 4)%Q
    /\ ~ (downloadedSizeMB d == 4)%Q
    /\ (v * MiB == 4)%Q
    /\ ~ (v == 4)%Q.
Proof.
  eexists. eexists.
  split; [vm_compute; reflexivity|].
  split; [reflexivity|].
  repeat split; vm_compute; discriminate || reflexivity.
Qed.

(** C8, amended.  The byte counts live in the loop variables of the
    transfer; what the item records is megabytes.  (1) A response that
    announces [n > 0] bytes sets the item's total size to [n / 1048576].
    (2) A published sample sets the downloaded size to the bytes
    received divided by 1048576, the total size to the announced length
    divided by 1048576 (or to the downloaded size when no length was
    announced), and the speed to the bytes received since the last
    sample divided by 1048576 and by the seconds elapsed, that is
    megabytes per second.  The percentage is computed from the byte
    counts: when a length was announced it is the bytes received over
    the announced length times 100, which is also the ratio of the two
    recorded megabyte figures times 100; when none was announced it is
    0, although the two recorded sizes are then equal.  The view only
    divides the recorded total by 1024 to show gigabytes and shows the
    recorded downloaded size as it is.  (3) The completion update sets
    the percentage to 100 and leaves both recorded sizes as they are.
    The percentage thus need not be the ratio of the recorded sizes: it
    is at the samples of a transfer whose length was announced, it is 0
    against two equal sizes at the samples of one whose length was not,
    and it is 100 after completion whatever the recorded sizes. *)
Theorem sizes_recorded_in_megabytes
    (c : Controller) (t : Task) (d : DownloadItem) (s : AppState) :
  getDownloadStatus (id (t_movie t)) (downloads s) = Some d ->
  (forall n now,
      0 < n ->
      exists d',
        getDownloadStatus (id (t_movie t))
          (downloads (fetchResolved c t true (Some n) now s)) = Some d'
        /\ (totalSizeMB d' * MiB == inject_Z n)%Q)
  /\ (forall value now,
      800 < now - t_lastTime t ->
      let received := t_receivedLength t + Z.of_nat (length value) in
      exists d' v,
        getDownloadStatus (id (t_movie t))
          (downloads (chunkRead c t value now s)) = Some d'
        /\ speed d' = Some v
        /\ (downloadedSizeMB d' * MiB == inject_Z received)%Q
        /\ (v == inject_Z (received - t_lastReceived t) / MiB
                 / (inject_Z (now - t_lastTime t) / inject_Z 1000))%Q
        /\ (0 < t_totalLength t ->
            (totalSizeMB d' * MiB == inject_Z (t_totalLength t))%Q
            /\ (progress d'
                == inject_Z received / inject_Z (t_totalLength t)
                   * inject_Z 100)%Q
            /\ (progress d'
                == downloadedSizeMB d' / totalSizeMB d' * inject_Z 100)%Q)
        /\ (t_totalLength t <= 0 ->
            (totalSizeMB d' == downloadedSizeMB d')%Q
            /\ (progress d' == 0)%Q)
        /\ (displayGB d' * inject_Z 1024 == totalSizeMB d')%Q
        /\ (displayMB d' == downloadedSizeMB d')%Q)
  /\ (exists d',
        getDownloadStatus (id (t_movie t))
          (downloads (saveSettled c t true s)) = Some d'
        /\ status d' = completed
        /\ progress d' = inject_Z 100
        /\ totalSizeMB d' = totalSizeMB d
        /\ downloadedSizeMB d' = downloadedSizeMB d).
Proof.
  intros Hd. split; [|split].
  - intros n now Hn. unfold fetchResolved. cbn [negb].
    change (default 0 (Some n)) with n.
    apply Z.ltb_lt in Hn. rewrite Hn.
    cbn [downloads setTasks setDownloads].
    rewrite getDownloadStatus_mapItem by reflexivity. rewrite Hd.
    eexists. split; [reflexivity|]. simpl. apply bytes_of_MB.
  - intros value now Hnow received. unfold chunkRead.
    assert (Hnow' : (800 <? now - t_lastTime t) = true) by (apply Z.ltb_lt, Hnow).
    rewrite Hnow'. cbn [downloads setTasks setDownloads].
    rewrite getDownloadStatus_mapItem by reflexivity. rewrite Hd.
    eexists. eexists. split; [reflexivity|]. split; [reflexivity|].
    fold received. cbn [downloadedSizeMB totalSizeMB progress with_speed
      with_totalSizeMB with_downloadedSizeMB with_progress displayGB displayMB].
    split; [apply bytes_of_MB|].
    split; [reflexivity|].
    split; [|split; [|split; [apply gigabyte_units | reflexivity]]].
    + intros Hpos. assert (Hpos' : (0 <? t_totalLength t) = true)
        by (apply Z.ltb_lt, Hpos).
      rewrite Hpos'.
      assert (HT : ~ (inject_Z (t_totalLength t) == 0)%Q)
        by (apply inject_Z_nonzero; lia).
      split; [apply bytes_of_MB|]. split; [reflexivity|].
      apply ratio_units, HT.
    + intros Hle. assert (Hle' : (0 <? t_totalLength t) = false)
        by (apply Z.ltb_ge, Hle).
      rewrite Hle'. split; reflexivity.
  - unfold saveSettled. rewrite downloads_finally.
    cbn [downloads setDownloads].
    rewrite getDownloadStatus_mapItem by reflexivity. rewrite Hd.
    eexists. split; [reflexivity|]. simpl. auto.
Qed.

Lemma sizes_recorded_in_megabytes_witness :
  exists d',
    getDownloadStatus "A"
      (downloads (fetchResolved 0%nat (mkTask movieA AwaitFetch 0 [] 0 0 0)
                    true (Some 2097152) 0 startedA)) = Some d'
    /\ (totalSizeMB d' * MiB == inject_Z 2097152)%Q.
Proof.
  refine (proj1 (sizes_recorded_in_megabytes 0%nat
                   (mkTask movieA AwaitFetch 0 [] 0 0 0)
                   (newItem movieA 0 0) startedA _) 2097152 0 _).
  - vm_compute. reflexivity.
  - lia.
Defined.

(** ** C9: clearing the completed items *)

Section ClearCompleted.

Implicit Types (s : AppState) (st : Storage) (ks : list string).

Lemma deleteEach_keeps_absent avail ks : forall st k,
  blobs st !! k = None -> blobs (fst (deleteEach avail ks st)) !! k = None.
Proof.
  induction ks as [|x ks IH]; intros st k H; simpl; [exact H|].
  unfold deleteVideo. destruct (avail x); simpl; [|exact H].
  apply IH. simpl. rewrite lookup_delete_None. auto.
Qed.

(** While the store answers, the loop deletes every blob it is given. *)
Lemma deleteEach_available avail ks : forall st,
  (forall k, In k ks -> avail k = true) ->
  snd (deleteEach avail ks st) = None
  /\ forall k, In k ks -> blobs (fst (deleteEach avail ks st)) !! k = None.
Proof.
  induction ks as [|x ks IH]; intros st Hav; simpl; [split; [reflexivity|tauto]|].
  unfold deleteVideo. rewrite (Hav x) by (left; reflexivity). simpl.
  destruct (IH (mkStorage (delete x (blobs st)) (quota st))) as [Hn Hd].
  { intros k Hk. apply Hav. right. exact Hk. }
  split; [exact Hn|]. intros k [<-|Hk].
  - apply deleteEach_keeps_absent. simpl. apply lookup_delete_eq.
  - apply Hd, Hk.
Qed.

(** With the store available throughout, [clearCompleted] removes the
    entry and the blob of every completed item. *)
Lemma clearCompleted_available avail s :
  (forall k, avail k = true) ->
  snd (clearCompleted (downloads s) avail s) = None
  /\ downloads (fst (clearCompleted (downloads s) avail s))
     = List.filter (fun d => negb (has_status completed d)) (downloads s)
  /\ forall d, In d (downloads s) -> status d = completed ->
       getVideo (movieId d)
         (storage (fst (clearCompleted (downloads s) avail s))) = None.
Proof.
  intros Hav. unfold clearCompleted.
  destruct (deleteEach_available avail
              (List.map movieId
                 (List.filter (has_status completed) (downloads s)))
              (storage s)) as [Hn Hd]; [auto|].
  destruct (deleteEach avail _ (storage s)) as [st [e|]]; simpl in *;
    [discriminate|].
  split; [reflexivity|]. split; [reflexivity|].
  intros d Hin Hst. apply Hd. apply List.in_map, List.filter_In.
  split; [exact Hin|]. apply has_status_true, Hst.
Qed.

(** A [deleteVideo] that throws is not caught: the promise is rejected
    and no metadata is removed. *)
Lemma clearCompleted_rejected avail s e :
  snd (clearCompleted (downloads s) avail s) = Some e ->
  downloads (fst (clearCompleted (downloads s) avail s)) = downloads s.
Proof.
  intros H. rewrite downloads_clearCompleted, H. reflexivity.
Qed.

End ClearCompleted.

(** A and B have both been downloaded to the end. *)
Definition twoCompleted : AppState :=
  after [ RequestDownload movieA 0 true; RequestDownload movieB 1 true;
          FetchResolved 0%nat true (Some 4) 10; ChunkRead 0%nat fourBytes 20;
          StreamDone 0%nat true; SaveSettled 0%nat; QueueProcessor;
          FetchResolved 1%nat true (Some 4) 30; ChunkRead 1%nat fourBytes 40;
          StreamDone 1%nat true; SaveSettled 1%nat ] freshApp.

(** The store is unavailable for the blob of [k] and available otherwise. *)
Definition failsOn (k : string) : string -> bool :=
  fun x => negb (String.eqb x k).

(** C9, the code at the failing input.  A and B are completed and the
    store fails while deleting A's blob: [clearCompleted] is rejected
    with the storage error, the loop has stopped before B, whose blob is
    still stored, and both entries are still in the collection.  On the
    same state [deleteDownload] catches the same failure and goes on to
    remove the entry of A. *)
Theorem clearCompleted_aborts_on_delete_failure :
  statuses twoCompleted = [("A", completed); ("B", completed)]
  /\ snd (clearCompleted (downloads twoCompleted) (failsOn "A") twoCompleted)
     = Some Unavailable
  /\ statuses (fst (clearCompleted (downloads twoCompleted) (failsOn "A")
                     twoCompleted))
     = [("A", completed); ("B", completed)]
  /\ getVideo "B" (storage (fst (clearCompleted (downloads twoCompleted)
                                   (failsOn "A") twoCompleted)))
     = Some fourBytes
  /\ statuses (after [DeleteDownload "A" false; DeleteSettled "A"] twoCompleted)
     = [("B", completed)].
Proof. repeat split; vm_compute; reflexivity. Qed.

(** ** C10: a removed item does not come back *)

(** [e] is a request for the item [k]. *)
Definition requests (k : string) (e : Event) : bool :=
  match e with
  | RequestDownload m _ _ => String.eqb (id m) k
  | _ => false
  end.

Section Removal.

Implicit Types (s : AppState) (k x : string).

Lemma ids_abortBranch k ds :
  ids (List.map (abortBranch k) ds) = ids ds.
Proof.
  apply ids_map. intros d. unfold abortBranch.
  destruct (is_movie k d && has_status downloading d); reflexivity.
Qed.

Lemma abortBranch_absent k ds :
  ~ In k (ids ds) -> List.map (abortBranch k) ds = ds.
Proof.
  induction ds as [|d ds IH]; simpl; intros H; [reflexivity|].
  f_equal; [|apply IH; tauto].
  unfold abortBranch. destruct (is_movie k d) eqn:E; [|reflexivity].
  apply is_movie_true in E. tauto.
Qed.

Lemma ids_catchError name m s :
  ids (downloads (catchError name m s)) = ids (downloads s).
Proof.
  rewrite downloads_catchError. destruct (String.eqb name "AbortError").
  - apply ids_abortBranch.
  - apply ids_mapItem. reflexivity.
Qed.

Lemma ids_queueProcessor s :
  ids (downloads (queueProcessor (downloads s) (movies s) s)) = ids (downloads s).
Proof.
  unfold queueProcessor.
  destruct (activeCount (downloads s) =? 0)%nat; [|reflexivity].
  destruct (List.find (has_status queued) (downloads s)); [|reflexivity].
  destruct (List.find _ (movies s)); [|reflexivity].
  simpl. apply ids_mapItem. reflexivity.
Qed.

Lemma ids_enqueued m now ds x :
  In x (ids (enqueued m now ds)) -> In x (ids ds) \/ x = id m.
Proof.
  rewrite enqueued_eq. unfold ids. rewrite List.map_app, List.in_app_iff.
  intros [H|[H|[]]].
  - left. eapply ids_filter_In, H.
  - right. symmetry. exact H.
Qed.

(** No step adds an id to the collection, except a request for it. *)
Lemma ids_step e s s' x :
  step e s = Some s' ->
  In x (ids (downloads s')) ->
  In x (ids (downloads s)) \/ requests x e = true.
Proof.
  intros Hstep. destruct e; cbn [step requests] in *.
  - stepped Hstep. rewrite downloads_requestDownload.
    destruct (List.find (is_movie (id movie)) (downloads s)) as [e|];
      [destruct (has_status paused e); [|auto]|];
      intros H; apply ids_enqueued in H as [H| ->]; auto;
      right; apply String.eqb_refl.
  - stepped Hstep. unfold pauseDownload. cbn [downloads setDownloads].
    rewrite downloads_abortHandle, ids_mapItem by reflexivity. auto.
  - stepped Hstep. rewrite downloads_deleteDownload. auto.
  - destruct (bool_decide (k ∈ pendingRemovals s)); [|discriminate].
    stepped Hstep. cbn [deleteSettled downloads setPending setDownloads].
    intros H. left. eapply ids_filter_In, H.
  - stepped Hstep. unfold clearDelete.
    destruct (deleteVideo avail k (storage s)); auto.
  - stepped Hstep. cbn [clearSettled downloads setDownloads].
    intros H. left. eapply ids_filter_In, H.
  - stepped Hstep. rewrite ids_queueProcessor. auto.
  - destruct (tasks s !! c) as [t|]; [|discriminate].
    destruct (t_phase t); try discriminate.
    destruct (live c s); [|discriminate]. stepped Hstep.
    unfold fetchResolved. destruct hasBody; cbn [negb].
    + destruct (0 <? default 0 contentLength);
        cbn [downloads setTasks setDownloads];
        rewrite ?ids_mapItem by reflexivity; auto.
    + rewrite downloads_finally, ids_catchError. auto.
  - destruct (tasks s !! c) as [t|]; [|discriminate].
    destruct (t_phase t); try discriminate.
    destruct (live c s); [|discriminate]. stepped Hstep.
    unfold chunkRead. destruct (800 <? now - t_lastTime t);
      cbn [downloads setTasks setDownloads];
      rewrite ?ids_mapItem by reflexivity; auto.
  - destruct (tasks s !! c) as [t|]; [|discriminate].
    destruct (t_phase t); try discriminate.
    destruct (live c s); [|discriminate]. stepped Hstep.
    unfold streamDone. destruct (saveVideo avail _ _ (storage s)); auto.
  - destruct (tasks s !! c) as [t|]; [|discriminate].
    destruct (t_phase t) as [| |saved]; try discriminate. stepped Hstep.
    unfold saveSettled. destruct saved; rewrite downloads_finally.
    + cbn [downloads setDownloads]. rewrite ids_mapItem by reflexivity. auto.
    + rewrite ids_catchError. auto.
  - destruct (tasks s !! c) as [t|]; [|discriminate].
    destruct (t_phase t); try discriminate; stepped Hstep;
      unfold rejected; rewrite downloads_finally, ids_catchError; auto.
  - stepped Hstep. auto.
Qed.

Lemma absent_run k es : forall s s',
  Forall (fun e => requests k e = false) es ->
  run es s = Some s' ->
  ~ In k (ids (downloads s)) -> ~ In k (ids (downloads s')).
Proof.
  induction es as [|e es IH]; simpl; intros s s' Hall Hrun Habs.
  - stepped Hrun. exact Habs.
  - apply Forall_cons in Hall as [He Hall].
    destruct (step e s) as [s1|] eqn:E; [|discriminate].
    apply (IH s1 s' Hall Hrun). intros Hin.
    destruct (ids_step e s s1 k E Hin) as [H|H]; [auto|congruence].
Qed.

End Removal.

(** The transfer of A is in flight when the user removes A; the pending
    read rejects with AbortError, [deleteVideo] settles, and the queue
    processor runs after each change. *)
Definition removalRace : list Event :=
  [ DeleteDownload "A" true; Rejected 0%nat "AbortError"; QueueProcessor;
    DeleteSettled "A"; QueueProcessor ].

(** C10.  Once the removal of the item [k] has settled, its id is not in
    the collection, and it stays out through every later sequence of
    events that contains no request for [k]: the pieces of any transfer
    (the cancellation branch, the failure branch, samples, completion),
    pauses, removals, clearing and the queue processor only map over or
    filter the collection.  In particular the cancellation branch of a
    transfer of [k] then leaves the collection exactly as it is; and in
    any state that branch rewrites only entries that are downloading,
    every other entry being kept as it is. *)
Theorem removed_item_never_reappears
    (k : string) (es : list Event) (s s1 s2 : AppState) :
  step (DeleteSettled k) s = Some s1 ->
  Forall (fun e => requests k e = false) es ->
  run es s1 = Some s2 ->
  ~ In k (ids (downloads s1))
  /\ ~ In k (ids (downloads s2))
  /\ getDownloadStatus k (downloads s2) = None
  /\ (forall m, id m = k ->
        downloads (catchError "AbortError" m s2) = downloads s2)
  /\ (forall m d s0, In d (downloads s0) -> status d <> downloading ->
        List.map (abortBranch (id m)) (downloads s0)
          = downloads (catchError "AbortError" m s0)
        /\ abortBranch (id m) d = d
        /\ In d (downloads (catchError "AbortError" m s0))).
Proof.
  intros Hdel Hall Hrun.
  assert (H1 : ~ In k (ids (downloads s1))).
  { cbn [step] in Hdel.
    destruct (bool_decide (k ∈ pendingRemovals s)); [|discriminate].
    stepped Hdel. cbn [deleteSettled downloads setPending setDownloads].
    apply ids_filter_other. }
  pose proof (absent_run k es s1 s2 Hall Hrun H1) as H2.
  split; [exact H1|]. split; [exact H2|].
  split; [apply getDownloadStatus_None, H2|]. split.
  - intros m <-. rewrite downloads_catchError, String.eqb_refl.
    apply abortBranch_absent, H2.
  - intros m d s0 Hin Hst.
    rewrite downloads_catchError, String.eqb_refl.
    pose proof (abortBranch_not_downloading (id m) d Hst) as Hsame.
    split; [reflexivity|]. split; [exact Hsame|].
    rewrite <- Hsame at 1. apply List.in_map, Hin.
Qed.

Lemma removed_item_never_reappears_witness :
  getDownloadStatus "A"
    (downloads (after removalRace
                  (after [FetchResolved 0%nat true (Some 8) 10] startedA)))
  = None.
Proof.
  refine (proj1 (proj2 (proj2
    (removed_item_never_reappears "A" [QueueProcessor]
       (after (firstn 3 removalRace)
          (after [FetchResolved 0%nat true (Some 8) 10] startedA))
       (after (firstn 4 removalRace)
          (after [FetchResolved 0%nat true (Some 8) 10] startedA))
       (after removalRace
          (after [FetchResolved 0%nat true (Some 8) 10] startedA))
       _ _ _)))).
  - vm_compute. reflexivity.
  - repeat constructor.
  - vm_compute. reflexivity.
Defined.


(** * Further properties of the queue manager *)

(** ** How a step can change the collection *)

(** Every step rewrites the entries in place, drops some of them, or is
    an accepted request, which drops the entry of the movie and appends
    a new one. *)
Inductive Reshaped (e : Event) (ds ds' : list DownloadItem) : Prop :=
  | reshaped_map (g : DownloadItem -> DownloadItem) :
      (forall d, movieId (g d) = movieId d) ->
      ds' = List.map g ds -> Reshaped e ds ds'
  | reshaped_filter (p : DownloadItem -> bool) :
      ds' = List.filter p ds -> Reshaped e ds ds'
  | reshaped_request (m : Movie) (now : Z) (avail : bool) :
      e = RequestDownload m now avail ->
      ds' = enqueued m now ds -> Reshaped e ds ds'.

Definition isRequest (e : Event) : bool :=
  match e with
  | RequestDownload _ _ _ => true
  | _ => false
  end.

Section Shape.

Implicit Types (s : AppState) (ds : list DownloadItem) (k : string).

Lemma Reshaped_same e ds : Reshaped e ds ds.
Proof.
  apply (reshaped_map e ds ds (fun d => d)); [reflexivity|].
  symmetry. apply List.map_id.
Qed.

Lemma Reshaped_mapItem e k f ds :
  (forall d, movieId (f d) = movieId d) -> Reshaped e ds (mapItem k f ds).
Proof.
  intros Hf. eapply reshaped_map; [|reflexivity].
  intros d. simpl. destruct (is_movie k d); auto.
Qed.

Lemma Reshaped_catchError e name m s :
  Reshaped e (downloads s) (downloads (catchError name m s)).
Proof.
  rewrite downloads_catchError. destruct (String.eqb name "AbortError").
  - eapply reshaped_map; [|reflexivity]. intros d. unfold abortBranch.
    destruct (is_movie (id m) d && has_status downloading d); reflexivity.
  - apply Reshaped_mapItem. reflexivity.
Qed.

Lemma step_reshapes e s s' :
  step e s = Some s' -> Reshaped e (downloads s) (downloads s').
Proof.
  intros Hstep. destruct e; cbn [step] in Hstep.
  - stepped Hstep. rewrite downloads_requestDownload.
    destruct (List.find (is_movie (id movie)) (downloads s)) as [x|];
      [destruct (has_status paused x); [|apply Reshaped_same]|];
      eapply reshaped_request; reflexivity.
  - stepped Hstep. unfold pauseDownload. cbn [downloads setDownloads].
    rewrite downloads_abortHandle. apply Reshaped_mapItem. reflexivity.
  - stepped Hstep. rewrite downloads_deleteDownload. apply Reshaped_same.
  - destruct (bool_decide (k ∈ pendingRemovals s)); [|discriminate].
    stepped Hstep. eapply reshaped_filter. reflexivity.
  - stepped Hstep. unfold clearDelete.
    destruct (deleteVideo avail k (storage s)); apply Reshaped_same.
  - stepped Hstep. eapply reshaped_filter. reflexivity.
  - stepped Hstep. unfold queueProcessor.
    destruct (activeCount (downloads s) =? 0)%nat; [|apply Reshaped_same].
    destruct (List.find (has_status queued) (downloads s));
      [|apply Reshaped_same].
    destruct (List.find _ (movies s)); [|apply Reshaped_same].
    apply Reshaped_mapItem. reflexivity.
  - destruct (tasks s !! c) as [t|]; [|discriminate].
    destruct (t_phase t); try discriminate.
    destruct (live c s); [|discriminate]. stepped Hstep.
    unfold fetchResolved. destruct hasBody; cbn [negb].
    + destruct (0 <? default 0 contentLength);
        cbn [downloads setTasks setDownloads];
        [apply Reshaped_mapItem; reflexivity | apply Reshaped_same].
    + rewrite downloads_finally. apply Reshaped_catchError.
  - destruct (tasks s !! c) as [t|]; [|discriminate].
    destruct (t_phase t); try discriminate.
    destruct (live c s); [|discriminate]. stepped Hstep.
    unfold chunkRead. destruct (800 <? now - t_lastTime t);
      cbn [downloads setTasks setDownloads];
      [apply Reshaped_mapItem; reflexivity | apply Reshaped_same].
  - destruct (tasks s !! c) as [t|]; [|discriminate].
    destruct (t_phase t); try discriminate.
    destruct (live c s); [|discriminate]. stepped Hstep.
    unfold streamDone. destruct (saveVideo avail _ _ (storage s));
      apply Reshaped_same.
  - destruct (tasks s !! c) as [t|]; [|discriminate].
    destruct (t_phase t) as [| |saved]; try discriminate. stepped Hstep.
    unfold saveSettled. destruct saved; rewrite downloads_finally.
    + cbn [downloads setDownloads]. apply Reshaped_mapItem. reflexivity.
    + apply Reshaped_catchError.
  - destruct (tasks s !! c) as [t|]; [|discriminate].
    destruct (t_phase t); try discriminate; stepped Hstep;
      unfold rejected; rewrite downloads_finally; apply Reshaped_catchError.
  - stepped Hstep. apply Reshaped_same.
Qed.

Lemma NoDup_ids_enqueued m now ds :
  NoDup (ids ds) -> NoDup (ids (enqueued m now ds)).
Proof.
  intros Hnd. rewrite enqueued_eq. unfold ids. rewrite List.map_app. simpl.
  apply NoDup_app. split; [apply NoDup_ids_filter, Hnd|]. split.
  - intros x Hx Hx'. apply list_elem_of_In in Hx.
    apply list_elem_of_In in Hx'.
    destruct Hx' as [<-|[]]. revert Hx. apply ids_filter_other.
  - apply NoDup_singleton.
Qed.

Lemma sublist_ids_filter (p : DownloadItem -> bool) ds :
  sublist (ids (List.filter p ds)) (ids ds).
Proof.
  induction ds as [|d ds IH]; simpl; [constructor|].
  destruct (p d); simpl; [apply sublist_skip | apply sublist_cons]; exact IH.
Qed.

End Shape.

(** X1. No two entries of the collection ever share a movie id: from a
    collection without duplicate ids, every sequence of events (requests
    included) leads to a collection without duplicate ids. *)
Theorem one_entry_per_movie (es : list Event) (s s' : AppState) :
  NoDup (ids (downloads s)) ->
  run es s = Some s' ->
  NoDup (ids (downloads s')).
Proof.
  revert s. induction es as [|e es IH]; simpl; intros s Hnd Hrun.
  - stepped Hrun. exact Hnd.
  - destruct (step e s) as [s1|] eqn:E; [|discriminate].
    apply (IH s1); [|exact Hrun].
    destruct (step_reshapes e s s1 E) as [g Hg ->|p ->|m now avail _ ->].
    + rewrite ids_map; assumption.
    + apply NoDup_ids_filter, Hnd.
    + apply NoDup_ids_enqueued, Hnd.
Qed.

Lemma one_entry_per_movie_witness :
  NoDup (ids (downloads (after scenario freshApp))).
Proof.
  apply (one_entry_per_movie scenario freshApp).
  - vm_compute. constructor.
  - vm_compute. reflexivity.
Defined.

(** X2. No step that is not a request adds or reorders entries: after
    any sequence of pauses, removals, clearings, queue-processor runs
    and transfer events, the list of tracked ids is a sublist of the one
    before, the surviving entries standing in their original order. *)
Theorem entries_keep_their_order (es : list Event) (s s' : AppState) :
  Forall (fun e => isRequest e = false) es ->
  run es s = Some s' ->
  sublist (ids (downloads s')) (ids (downloads s)).
Proof.
  revert s. induction es as [|e es IH]; simpl; intros s Hall Hrun.
  - stepped Hrun. reflexivity.
  - apply Forall_cons in Hall as [He Hall].
    destruct (step e s) as [s1|] eqn:E; [|discriminate].
    etrans; [apply (IH s1 Hall Hrun)|].
    destruct (step_reshapes e s s1 E) as [g Hg ->|p ->|m now avail -> _].
    + rewrite ids_map by assumption. reflexivity.
    + apply sublist_ids_filter.
    + discriminate He.
Qed.

Lemma entries_keep_their_order_witness :
  sublist (ids (downloads (after (skipn 6 scenario)
                             (after (firstn 6 scenario) freshApp))))
          (ids (downloads (after (firstn 6 scenario) freshApp))).
Proof.
  apply (entries_keep_their_order (skipn 6 scenario)).
  - vm_compute. repeat constructor.
  - vm_compute. reflexivity.
Defined.

(** ** The queue processor and repeated requests *)

Section Stability.

Implicit Types (s : AppState) (ds : list DownloadItem) (k : string).

Lemma activeCount_promoted k ds q :
  In q ds -> movieId q = k ->
  (1 <= activeCount (mapItem k (with_status downloading) ds))%nat.
Proof.
  induction ds as [|d ds IH]; simpl; intros Hin Hk; [contradiction|].
  rewrite activeCount_cons. destruct Hin as [->|Hin].
  - apply is_movie_true in Hk. rewrite Hk. simpl. lia.
  - specialize (IH Hin Hk). fold (mapItem k (with_status downloading) ds).
    lia.
Qed.

End Stability.

(** X3. The queue processor settles in one run: the effect of the
    render that shows the collection it has just produced changes
    nothing.  So the update it makes, which triggers it again, never
    promotes a second item. *)
Theorem queueProcessor_settles (s : AppState) :
  let s1 := queueProcessor (downloads s) (movies s) s in
  queueProcessor (downloads s1) (movies s1) s1 = s1.
Proof.
  intros s1. unfold s1. unfold queueProcessor at 2 3.
  destruct (activeCount (downloads s) =? 0)%nat eqn:E0.
  - destruct (List.find (has_status queued) (downloads s)) as [q|] eqn:Eq.
    + destruct (List.find _ (movies s)) as [m|] eqn:Em.
      * apply List.find_some in Eq as [Hin _].
        apply List.find_some in Em as [_ Hid]. apply String.eqb_eq in Hid.
        pose proof (activeCount_promoted (id m) (downloads s) q Hin
                      (eq_sym Hid)) as H1.
        unfold queueProcessor. cbn [downloads executeDownload].
        destruct (Nat.eqb_spec
                    (activeCount (mapItem (id m) (with_status downloading)
                                    (downloads s))) 0); [lia|reflexivity].
      * unfold queueProcessor. rewrite E0, Eq, Em. reflexivity.
    + unfold queueProcessor. rewrite E0, Eq. reflexivity.
  - unfold queueProcessor. rewrite E0. reflexivity.
Qed.

(** X4. A second request for a movie.  Made by the handler of the render
    that shows what the first request did, it leaves the state
    untouched, whatever the first request did (nothing, or a new
    downloading or queued entry): no second transfer is started.  Made
    by the handler of the render of the first request (a second call
    before React has rendered again), it does not see the new entry: for
    a movie that was not tracked, with no item downloading, it replaces
    the entry and starts a second transfer of the same movie.  Both
    transfers are then in flight, and the handle registered for the
    movie is the controller of the second one only. *)
Theorem requestDownload_twice
    (m : Movie) (now now' : Z) (avail avail' : bool) (s : AppState) :
  let s1 := requestDownload (downloads s) m now avail s in
  requestDownload (downloads s1) m now' avail' s1 = s1
  /\ (getDownloadStatus (id m) (downloads s) = None ->
      activeCount (downloads s) = 0%nat ->
      let s2 := requestDownload (downloads s) m now' avail' s1 in
      downloads s2 = downloads s ++ [newItem m now' 0]
      /\ tasks s2 !! nextController s
         = Some (mkTask m AwaitFetch 0 [] 0 0 0)
      /\ tasks s2 !! S (nextController s)
         = Some (mkTask m AwaitFetch 0 [] 0 0 0)
      /\ activeDownloadsRef s2 !! id m = Some (S (nextController s))).
Proof.
  intros s1. split.
  - assert (Hex : exists e,
               List.find (is_movie (id m)) (downloads s1) = Some e
               /\ has_status paused e = false).
    { unfold s1. rewrite downloads_requestDownload.
      assert (Hnew : exists e,
                 List.find (is_movie (id m)) (enqueued m now (downloads s))
                   = Some e /\ has_status paused e = false).
      { exists (newItem m now (activeCount (downloads s))). split.
        - apply getDownloadStatus_enqueued.
        - unfold newItem, has_status. simpl.
          destruct (activeCount (downloads s) =? 0)%nat; reflexivity. }
      destruct (List.find (is_movie (id m)) (downloads s)) as [e|] eqn:E;
        [|exact Hnew].
      destruct (has_status paused e) eqn:Ep; [exact Hnew|].
      exists e. auto. }
    destruct Hex as (e & He & Hp).
    unfold requestDownload at 1. rewrite He, Hp. reflexivity.
  - intros Hnone H0 s2.
    assert (Habs : ~ In (id m) (ids (downloads s)))
      by (apply getDownloadStatus_None, Hnone).
    unfold getDownloadStatus in Hnone.
    assert (Hs1 : s1 = executeDownload m
                         (setDownloads
                            (fun prev =>
                               List.filter (fun d => negb (is_movie (id m) d)) prev
                               ++ [newItem m now 0]) s)).
    { unfold s1, requestDownload. rewrite Hnone, H0. reflexivity. }
    assert (Hs2 : s2 = executeDownload m
                         (setDownloads
                            (fun prev =>
                               List.filter (fun d => negb (is_movie (id m) d)) prev
                               ++ [newItem m now' 0]) s1)).
    { unfold s2, requestDownload. rewrite Hnone, H0. reflexivity. }
    assert (Hd1 : downloads s1 = downloads s ++ [newItem m now 0]).
    { unfold s1. rewrite downloads_requestDownload, Hnone, enqueued_eq, H0.
      rewrite filter_absent by exact Habs. reflexivity. }
    rewrite Hs2. unfold executeDownload at 1.
    cbn [downloads tasks activeDownloadsRef nextController setDownloads].
    rewrite Hd1. rewrite Hs1. unfold executeDownload.
    cbn [downloads tasks activeDownloadsRef nextController setDownloads].
    split; [|split; [|split]].
    + rewrite List.filter_app, filter_absent by exact Habs.
      assert (Hf : List.filter (fun d => negb (is_movie (id m) d))
                     [newItem m now 0] = []).
      { simpl. unfold is_movie. simpl. rewrite String.eqb_refl. reflexivity. }
      rewrite Hf, List.app_nil_r.
      pose proof (mapItem_absent (id m) (with_status downloading)
                    (downloads s) Habs) as Hm.
      unfold mapItem in Hm |- *. rewrite List.map_app, Hm. simpl.
      unfold is_movie, newItem. simpl. rewrite String.eqb_refl. reflexivity.
    + rewrite lookup_insert_ne by lia. apply lookup_insert_eq.
    + apply lookup_insert_eq.
    + apply lookup_insert_eq.
Qed.

Lemma requestDownload_twice_witness :
  let s1 := requestDownload (downloads freshApp) movieA 0 true freshApp in
  let s2 := requestDownload (downloads freshApp) movieA 5 true s1 in
  activeDownloadsRef s2 !! "A" = Some 1%nat.
Proof.
  refine (proj2 (proj2 (proj2
    (proj2 (requestDownload_twice movieA 0 5 true true freshApp) _ _)))).
  - reflexivity.
  - reflexivity.
Defined.

(** ** Controllers are never reused *)

(** Every controller that has been aborted, is registered for an item or
    belongs to an activation in flight was made by an earlier
    [new AbortController()]. *)
Definition Fresh (s : AppState) : Prop :=
  (forall c, c ∈ aborted s -> (c < nextController s)%nat)
  /\ (forall k c, activeDownloadsRef s !! k = Some c ->
                  (c < nextController s)%nat)
  /\ (forall c t, tasks s !! c = Some t -> (c < nextController s)%nat).

Section Controllers.

Implicit Types (s : AppState) (k : string) (c : Controller).

Lemma Fresh_setDownloads f s : Fresh s -> Fresh (setDownloads f s).
Proof. intros H. exact H. Qed.

Lemma Fresh_setStorage st s : Fresh s -> Fresh (setStorage st s).
Proof. intros H. exact H. Qed.

Lemma Fresh_setPending f s : Fresh s -> Fresh (setPending f s).
Proof. intros H. exact H. Qed.

Lemma Fresh_releaseHandle k s : Fresh s -> Fresh (releaseHandle k s).
Proof.
  intros (Ha & Hr & Ht). split; [exact Ha|]. split; [|exact Ht].
  intros k' c H. simpl in H. apply lookup_delete_Some in H as [_ H].
  eapply Hr, H.
Qed.

Lemma Fresh_abortHandle k s : Fresh s -> Fresh (abortHandle k s).
Proof.
  intros (Ha & Hr & Ht). unfold abortHandle.
  destruct (activeDownloadsRef s !! k) as [c|] eqn:E; [|repeat split; auto].
  split; [|split; [|exact Ht]]; simpl.
  - intros c' Hc. apply elem_of_union in Hc as [Hc|Hc]; [|auto].
    apply elem_of_singleton in Hc. subst c'. eapply Hr, E.
  - intros k' c' H. apply lookup_delete_Some in H as [_ H]. eapply Hr, H.
Qed.

Lemma Fresh_endTask c s : Fresh s -> Fresh (setTasks (delete c) s).
Proof.
  intros (Ha & Hr & Ht). split; [exact Ha|]. split; [exact Hr|].
  intros c' t H. simpl in H. apply lookup_delete_Some in H as [_ H].
  eapply Ht, H.
Qed.

Lemma Fresh_updateTask c t t' s :
  tasks s !! c = Some t -> Fresh s -> Fresh (setTasks (<[c := t']>) s).
Proof.
  intros Hc (Ha & Hr & Ht). split; [exact Ha|]. split; [exact Hr|].
  intros c' t0 H. simpl in H.
  destruct (decide (c = c')) as [<-|Hne].
  - eapply Ht, Hc.
  - rewrite lookup_insert_ne in H by exact Hne. eapply Ht, H.
Qed.

Lemma Fresh_executeDownload m s : Fresh s -> Fresh (executeDownload m s).
Proof.
  intros (Ha & Hr & Ht). unfold executeDownload.
  split; [|split]; simpl.
  - intros c Hc. specialize (Ha c Hc). lia.
  - intros k c H. destruct (decide (id m = k)) as [<-|Hne].
    + rewrite lookup_insert_eq in H. injection H as <-. lia.
    + rewrite lookup_insert_ne in H by exact Hne. specialize (Hr k c H). lia.
  - intros c t H. destruct (decide (nextController s = c)) as [<-|Hne].
    + lia.
    + rewrite lookup_insert_ne in H by exact Hne. specialize (Ht c t H). lia.
Qed.

Lemma Fresh_catchError name m s : Fresh s -> Fresh (catchError name m s).
Proof.
  intros H. unfold catchError.
  destruct (String.eqb name "AbortError"); apply Fresh_setDownloads, H.
Qed.

Lemma Fresh_finally c m s : Fresh s -> Fresh (finally c m s).
Proof. intros H. apply Fresh_endTask, Fresh_releaseHandle, H. Qed.

Lemma Fresh_deleteDownload k rm avail s :
  Fresh s -> Fresh (deleteDownload k rm avail s).
Proof.
  intros H. unfold deleteDownload.
  pose proof (Fresh_abortHandle k s H) as H1.
  destruct (deleteVideo avail k (storage (abortHandle k s)));
    destruct rm; auto.
Qed.

Lemma Fresh_requestDownload m now avail s :
  Fresh s -> Fresh (requestDownload (downloads s) m now avail s).
Proof.
  intros H. unfold requestDownload.
  pose proof (Fresh_deleteDownload (id m) false avail s H) as Hd.
  destruct (List.find (is_movie (id m)) (downloads s)) as [e|];
    [destruct (has_status paused e); [|exact H]|];
    destruct (0 <? activeCount (downloads s))%nat;
    try apply Fresh_executeDownload; apply Fresh_setDownloads; assumption.
Qed.

Lemma Fresh_step e s s' : Fresh s -> step e s = Some s' -> Fresh s'.
Proof.
  intros H Hstep. destruct e; cbn [step] in Hstep.
  - stepped Hstep. apply Fresh_requestDownload, H.
  - stepped Hstep. apply Fresh_setDownloads, Fresh_abortHandle, H.
  - stepped Hstep. apply Fresh_deleteDownload, H.
  - destruct (bool_decide (k ∈ pendingRemovals s)); [|discriminate].
    stepped Hstep. exact H.
  - stepped Hstep. unfold clearDelete.
    destruct (deleteVideo avail k (storage s)); exact H.
  - stepped Hstep. exact H.
  - stepped Hstep. unfold queueProcessor.
    destruct (activeCount (downloads s) =? 0)%nat; [|exact H].
    destruct (List.find (has_status queued) (downloads s)); [|exact H].
    destruct (List.find _ (movies s)); [|exact H].
    apply Fresh_executeDownload, H.
  - destruct (tasks s !! c) as [t|] eqn:Et; [|discriminate].
    destruct (t_phase t); try discriminate.
    destruct (live c s); [|discriminate]. stepped Hstep.
    unfold fetchResolved. destruct hasBody; cbn [negb].
    + destruct (0 <? default 0 contentLength);
        eapply Fresh_updateTask; eauto.
    + apply Fresh_finally, Fresh_catchError, H.
  - destruct (tasks s !! c) as [t|] eqn:Et; [|discriminate].
    destruct (t_phase t); try discriminate.
    destruct (live c s); [|discriminate]. stepped Hstep.
    unfold chunkRead. destruct (800 <? now - t_lastTime t);
      eapply Fresh_updateTask; eauto.
  - destruct (tasks s !! c) as [t|] eqn:Et; [|discriminate].
    destruct (t_phase t); try discriminate.
    destruct (live c s); [|discriminate]. stepped Hstep.
    unfold streamDone. destruct (saveVideo avail _ _ (storage s));
      eapply Fresh_updateTask; eauto.
  - destruct (tasks s !! c) as [t|]; [|discriminate].
    destruct (t_phase t) as [| |saved]; try discriminate. stepped Hstep.
    unfold saveSettled. destruct saved; apply Fresh_finally.
    + apply Fresh_setDownloads, H.
    + apply Fresh_catchError, H.
  - destruct (tasks s !! c) as [t|]; [|discriminate].
    destruct (t_phase t); try discriminate; stepped Hstep;
      apply Fresh_finally, Fresh_catchError, H.
  - stepped Hstep. exact H.
Qed.

Lemma Fresh_initialState catalog saved st :
  Fresh (initialState catalog saved st).
Proof.
  split; [|split]; simpl.
  - intros c Hc. apply elem_of_empty in Hc. contradiction.
  - intros k c H. rewrite lookup_empty in H. discriminate.
  - intros c t H. rewrite lookup_empty in H. discriminate.
Qed.

End Controllers.

(** X5. Whatever has happened since the application started, the
    controller the next transfer will be given has never been used: it
    has not been aborted, it is not registered as the handle of any
    item, and no activation in flight owns it.  A cancelled handle is
    thus never handed to a new transfer. *)
Theorem next_controller_is_unused
    (catalog : list Movie) (saved : list DownloadItem) (st : Storage)
    (es : list Event) (s' : AppState) :
  run es (initialState catalog saved st) = Some s' ->
  (nextController s' ∉ aborted s')
  /\ (forall k, activeDownloadsRef s' !! k <> Some (nextController s'))
  /\ tasks s' !! nextController s' = None.
Proof.
  intros Hrun.
  assert (HF : Fresh s').
  { pose proof (Fresh_initialState catalog saved st) as H0.
    revert H0 Hrun. generalize (initialState catalog saved st).
    induction es as [|e es IH]; simpl; intros s H0 Hrun.
    - stepped Hrun. exact H0.
    - destruct (step e s) as [s1|] eqn:E; [|discriminate].
      apply (IH s1); [eapply Fresh_step; eauto | exact Hrun]. }
  destruct HF as (Ha & Hr & Ht). split; [|split].
  - intros Hin. specialize (Ha _ Hin). lia.
  - intros k H. specialize (Hr _ _ H). lia.
  - destruct (tasks s' !! nextController s') as [t|] eqn:E; [|reflexivity].
    specialize (Ht _ _ E). lia.
Qed.

Lemma next_controller_is_unused_witness :
  tasks (after scenario freshApp) !! nextController (after scenario freshApp)
  = None.
Proof.
  refine (proj2 (proj2
    (next_controller_is_unused [movieA; movieB; movieC] [] emptyStore
       scenario (after scenario freshApp) _))).
  vm_compute. reflexivity.
Defined.

(** ** Removal, isolation and the store *)

Section RemovalAndIsolation.

Implicit Types (s : AppState) (ds : list DownloadItem) (k : string).

Lemma getDownloadStatus_filter_other k k' ds :
  k' <> k ->
  getDownloadStatus k' (List.filter (fun d => negb (is_movie k d)) ds)
  = getDownloadStatus k' ds.
Proof.
  intros Hne. unfold getDownloadStatus.
  induction ds as [|d ds IH]; simpl; [reflexivity|].
  destruct (is_movie k d) eqn:Ek; simpl.
  - apply is_movie_true in Ek.
    assert (Hk' : is_movie k' d = false) by (apply is_movie_false; congruence).
    rewrite Hk'. exact IH.
  - destruct (is_movie k' d); [reflexivity|exact IH].
Qed.

Lemma getDownloadStatus_map_other (g : DownloadItem -> DownloadItem) k' ds :
  (forall d, movieId (g d) = movieId d) ->
  (forall d, movieId d = k' -> g d = d) ->
  getDownloadStatus k' (List.map g ds) = getDownloadStatus k' ds.
Proof.
  intros Hid Hsame. rewrite getDownloadStatus_map by exact Hid.
  destruct (getDownloadStatus k' ds) as [d|] eqn:E; [|reflexivity].
  simpl. f_equal. apply Hsame. eapply getDownloadStatus_movieId, E.
Qed.

Lemma getDownloadStatus_catchError_other name m k' s :
  k' <> id m ->
  getDownloadStatus k' (downloads (catchError name m s))
  = getDownloadStatus k' (downloads s).
Proof.
  intros Hne. rewrite downloads_catchError.
  destruct (String.eqb name "AbortError").
  - apply getDownloadStatus_map_other.
    + intros d. unfold abortBranch.
      destruct (is_movie (id m) d && has_status downloading d); reflexivity.
    + intros d Hd. unfold abortBranch.
      assert (H : is_movie (id m) d = false)
        by (apply is_movie_false; congruence).
      rewrite H. reflexivity.
  - apply getDownloadStatus_mapItem_other; [congruence|reflexivity].
Qed.

Lemma pendingRemovals_abortHandle k s :
  pendingRemovals (abortHandle k s) = pendingRemovals s.
Proof. unfold abortHandle. destruct (activeDownloadsRef s !! k); reflexivity. Qed.

Lemma only_stream_end_writes_run es : forall s s' k b,
  Forall (fun e => forall c avail, e <> StreamDone c avail) es ->
  run es s = Some s' ->
  blobs (storage s') !! k = Some b -> blobs (storage s) !! k = Some b.
Proof.
  induction es as [|e es IH]; simpl; intros s s' k b Hall Hrun Hb.
  - stepped Hrun. exact Hb.
  - apply Forall_cons in Hall as [He Hall].
    destruct (step e s) as [s1|] eqn:E; [|discriminate].
    eapply only_stream_end_writes; [exact E | exact He |].
    eapply IH; eauto.
Qed.

End RemovalAndIsolation.

(** The events by which the activation [c] moves on. *)
Definition transferEvent (c : Controller) (e : Event) : bool :=
  match e with
  | FetchResolved c' _ _ _ | ChunkRead c' _ _ | StreamDone c' _
  | SaveSettled c' | Rejected c' _ => Nat.eqb c' c
  | _ => false
  end.

(** X6. Removing an item: [deleteDownload] fires the signal of the
    item's handle and releases it, deletes the item's blob when the
    store answers and leaves the store alone when it does not, and in
    both cases the metadata is removed once the deletion has settled;
    the entries of the other items are not touched. *)
Theorem remove_cancels_and_forgets (k : string) (avail : bool) (s : AppState) :
  let s1 := deleteDownload k true avail s in
  (forall c, activeDownloadsRef s !! k = Some c -> c ∈ aborted s1)
  /\ activeDownloadsRef s1 !! k = None
  /\ downloads s1 = downloads s
  /\ (avail = true -> getVideo k (storage s1) = None)
  /\ (avail = false -> storage s1 = storage s)
  /\ exists s2,
       step (DeleteSettled k) s1 = Some s2
       /\ getDownloadStatus k (downloads s2) = None
       /\ (forall k', k' <> k ->
             getDownloadStatus k' (downloads s2)
             = getDownloadStatus k' (downloads s))
       /\ storage s2 = storage s1.
Proof.
  intros s1.
  assert (Hd1 : downloads s1 = downloads s) by apply downloads_deleteDownload.
  assert (Hp1 : pendingRemovals s1 = k :: pendingRemovals s).
  { unfold s1, deleteDownload.
    destruct (deleteVideo avail k (storage (abortHandle k s))); simpl;
      rewrite pendingRemovals_abortHandle; reflexivity. }
  assert (Hr1 : activeDownloadsRef s1
                = activeDownloadsRef (abortHandle k s)
                /\ aborted s1 = aborted (abortHandle k s)).
  { unfold s1, deleteDownload.
    destruct (deleteVideo avail k (storage (abortHandle k s))); auto. }
  destruct Hr1 as [Hr1 Ha1].
  split; [|split; [|split; [exact Hd1|split; [|split]]]].
  - intros c Hc. rewrite Ha1. apply (aborted_abortHandle k c s Hc).
  - rewrite Hr1. unfold abortHandle.
    destruct (activeDownloadsRef s !! k) eqn:E; [apply lookup_delete_eq|exact E].
  - intros ->. apply storage_deleteDownload.
  - intros ->. unfold s1, deleteDownload, deleteVideo. simpl.
    apply storage_abortHandle.
  - exists (deleteSettled k s1). split.
    { cbn [step]. rewrite Hp1.
      rewrite bool_decide_eq_true_2 by apply list_elem_of_here. reflexivity. }
    cbn [deleteSettled downloads setPending setDownloads storage].
    rewrite Hd1. split; [|split; [|reflexivity]].
    + apply getDownloadStatus_None, ids_filter_other.
    + intros k' Hne. apply getDownloadStatus_filter_other, Hne.
Qed.

(** X7. A transfer only ever writes to the entry of its own movie: no
    event of the activation [c], be it the response, a sample, the end
    of the stream, the completion or either branch of the [catch],
    changes the entry of any other item. *)
Theorem transfer_touches_only_its_item
    (c : Controller) (t : Task) (e : Event) (s s' : AppState) (k : string) :
  tasks s !! c = Some t ->
  transferEvent c e = true ->
  step e s = Some s' ->
  k <> id (t_movie t) ->
  getDownloadStatus k (downloads s') = getDownloadStatus k (downloads s).
Proof.
  intros Ht He Hstep Hk.
  assert (Hk' : id (t_movie t) <> k) by congruence.
  destruct e; cbn [transferEvent] in He; try discriminate;
    apply Nat.eqb_eq in He; subst c0; cbn [step] in Hstep;
    rewrite Ht in Hstep.
  - destruct (t_phase t); try discriminate.
    destruct (live c s); [|discriminate]. stepped Hstep.
    unfold fetchResolved. destruct hasBody; cbn [negb].
    + destruct (0 <? default 0 contentLength);
        cbn [downloads setTasks setDownloads]; [|reflexivity].
      apply getDownloadStatus_mapItem_other; [exact Hk'|reflexivity].
    + rewrite downloads_finally.
      apply getDownloadStatus_catchError_other, Hk.
  - destruct (t_phase t); try discriminate.
    destruct (live c s); [|discriminate]. stepped Hstep.
    unfold chunkRead. destruct (800 <? now - t_lastTime t);
      cbn [downloads setTasks setDownloads]; [|reflexivity].
    apply getDownloadStatus_mapItem_other; [exact Hk'|reflexivity].
  - destruct (t_phase t); try discriminate.
    destruct (live c s); [|discriminate]. stepped Hstep.
    unfold streamDone. destruct (saveVideo avail _ _ (storage s)); reflexivity.
  - destruct (t_phase t) as [| |saved]; try discriminate. stepped Hstep.
    unfold saveSettled. destruct saved; rewrite downloads_finally.
    + cbn [downloads setDownloads].
      apply getDownloadStatus_mapItem_other; [exact Hk'|reflexivity].
    + apply getDownloadStatus_catchError_other, Hk.
  - destruct (t_phase t); try discriminate; stepped Hstep;
      unfold rejected; rewrite downloads_finally;
      apply getDownloadStatus_catchError_other, Hk.
Qed.

Lemma transfer_touches_only_its_item_witness :
  getDownloadStatus "B"
    (downloads (after [SaveSettled 0%nat] (after (firstn 9 scenario) freshApp)))
  = getDownloadStatus "B" (downloads (after (firstn 9 scenario) freshApp)).
Proof.
  apply (transfer_touches_only_its_item 0%nat
           (mkTask movieA (AwaitSave true) 4 [fourBytes] 4 10 0)
           (SaveSettled 0%nat)).
  - vm_compute. reflexivity.
  - reflexivity.
  - vm_compute. reflexivity.
  - discriminate.
Defined.

(** X8. Blobs are written by the end of a stream and by nothing else:
    over any sequence of events in which no stream ends (requests,
    pauses, removals, cancellations, failures, samples, ...) every blob
    found in the store afterwards was there before, unchanged.  In
    particular a transfer that is paused or fails leaves no blob. *)
Theorem no_blob_without_stream_end
    (es : list Event) (s s' : AppState) (k : string) (b : Blob) :
  Forall (fun e => forall c avail, e <> StreamDone c avail) es ->
  run es s = Some s' ->
  getVideo k (storage s') = Some b ->
  getVideo k (storage s) = Some b.
Proof. unfold getVideo. apply only_stream_end_writes_run. Qed.

(** A is requested, receives a chunk, is paused, and its pending read
    rejects. *)
Definition pausedMidway : list Event :=
  [ RequestDownload movieA 0 true; FetchResolved 0%nat true (Some 8) 10;
    ChunkRead 0%nat fourBytes 900; PauseDownload "A";
    Rejected 0%nat "AbortError"; QueueProcessor ].

Lemma no_blob_without_stream_end_witness :
  getVideo "A" (storage (after pausedMidway freshApp)) = None.
Proof.
  destruct (getVideo "A" (storage (after pausedMidway freshApp)))
    as [b|] eqn:E; [|reflexivity].
  exfalso.
  assert (H : getVideo "A" (storage freshApp) = Some b).
  { apply (no_blob_without_stream_end pausedMidway freshApp
             (after pausedMidway freshApp)).
    - repeat constructor; discriminate.
    - vm_compute. reflexivity.
    - exact E. }
  vm_compute in H. discriminate H.
Defined.

Lemma remove_cancels_and_forgets_witness :
  0%nat ∈ aborted (deleteDownload "A" true false startedA).
Proof.
  refine (proj1 (remove_cancels_and_forgets "A" false startedA) 0%nat _).
  vm_compute. reflexivity.
Defined.

(** ** Pause followed by a new request *)

Section Resume.

Implicit Types (s : AppState) (ds : list DownloadItem) (k : string).




Lemma abortHandle_unregistered k s :
  activeDownloadsRef s !! k = None -> abortHandle k s = s.
Proof. intros H. unfold abortHandle. rewrite H. reflexivity. Qed.

End Resume.



(** ** The handle table at the end of a transfer *)

(** X10. [finally] releases whatever handle is registered under the
    movie's id, whichever activation registered it.  When an older
    activation of a movie [c] ends while a newer one [c'] of the same
    movie is registered, the newer activation stays in flight but has no
    handle any more, so that a later [pauseDownload] of the movie fires
    no signal. *)
Theorem finally_releases_registered_handle
    (c c' : Controller) (t t' : Task) (saved : bool) (s : AppState) :
  tasks s !! c = Some t ->
  t_phase t = AwaitSave saved ->
  c' <> c ->
  tasks s !! c' = Some t' ->
  activeDownloadsRef s !! id (t_movie t) = Some c' ->
  exists s',
    step (SaveSettled c) s = Some s'
    /\ activeDownloadsRef s' !! id (t_movie t) = None
    /\ tasks s' !! c' = Some t'
    /\ aborted (pauseDownload (id (t_movie t)) s') = aborted s.
Proof.
  intros Ht Hp Hne Ht' Href.
  exists (saveSettled c t saved s). split.
  { cbn [step]. rewrite Ht, Hp. reflexivity. }
  assert (Hr : activeDownloadsRef (saveSettled c t saved s) !! id (t_movie t)
               = None).
  { unfold saveSettled, finally, catchError.
    destruct saved; [|destruct (String.eqb "StorageError" "AbortError")];
      simpl; apply lookup_delete_eq. }
  split; [exact Hr|]. split.
  - unfold saveSettled, finally, catchError.
    destruct saved; [|destruct (String.eqb "StorageError" "AbortError")];
      simpl; rewrite lookup_delete_ne by congruence; exact Ht'.
  - unfold pauseDownload. cbn [aborted setDownloads].
    rewrite (abortHandle_unregistered _ _ Hr).
    unfold saveSettled, finally, catchError.
    destruct saved; [|destruct (String.eqb "StorageError" "AbortError")];
      reflexivity.
Qed.

(** A's stream has ended and its blob is being saved when the user
    pauses A and resumes it at once: a second activation starts while
    the first one still waits for the store. *)
Definition resumedWhileSaving : AppState :=
  after [ RequestDownload movieA 0 true; FetchResolved 0%nat true (Some 4) 10;
          ChunkRead 0%nat fourBytes 20; StreamDone 0%nat true;
          PauseDownload "A"; RequestDownload movieA 30 true ] freshApp.

Lemma finally_releases_registered_handle_witness :
  exists s',
    step (SaveSettled 0%nat) resumedWhileSaving = Some s'
    /\ activeDownloadsRef s' !! "A" = None
    /\ tasks s' !! 1%nat = Some (mkTask movieA AwaitFetch 0 [] 0 0 0)
    /\ aborted (pauseDownload "A" s') = aborted resumedWhileSaving.
Proof.
  apply (finally_releases_registered_handle 0%nat 1%nat
           (mkTask movieA (AwaitSave true) 4 [fourBytes] 4 10 0)
           (mkTask movieA AwaitFetch 0 [] 0 0 0) true resumedWhileSaving).
  - vm_compute. reflexivity.
  - reflexivity.
  - discriminate.
  - vm_compute. reflexivity.
  - vm_compute. reflexivity.
Defined.

(** ** Byte accounting of an activation *)

(** The counter of received bytes is the size of the chunks held, and
    the counter of the last sample lies between 0 and it. *)
Definition Counted (t : Task) : Prop :=
  t_receivedLength t = blobSize (newBlob (t_chunks t))
  /\ 0 <= t_lastReceived t <= t_receivedLength t.

Definition AllCounted (s : AppState) : Prop :=
  forall c t, tasks s !! c = Some t -> Counted t.

Section Accounting.

Implicit Types (s : AppState) (k : string) (c : Controller) (t : Task).

Lemma Counted_start m ph total now : Counted (mkTask m ph total [] 0 now 0).
Proof. unfold Counted, blobSize, newBlob. simpl. lia. Qed.

Lemma blobSize_nonneg (b : Blob) : 0 <= blobSize b.
Proof. unfold blobSize. lia. Qed.

Lemma AllCounted_update c t' s :
  Counted t' -> AllCounted s -> AllCounted (setTasks (<[c := t']>) s).
Proof.
  intros Ht' H c0 t0 H0. simpl in H0.
  destruct (decide (c = c0)) as [<-|Hne].
  - rewrite lookup_insert_eq in H0. injection H0 as <-. exact Ht'.
  - rewrite lookup_insert_ne in H0 by exact Hne. eapply H, H0.
Qed.

Lemma AllCounted_finally c m s : AllCounted s -> AllCounted (finally c m s).
Proof.
  intros H c0 t0 H0. unfold finally in H0. simpl in H0.
  apply lookup_delete_Some in H0 as [_ H0]. eapply H, H0.
Qed.

Lemma AllCounted_catchError name m s :
  AllCounted s -> AllCounted (catchError name m s).
Proof.
  intros H. unfold catchError.
  destruct (String.eqb name "AbortError"); exact H.
Qed.

Lemma AllCounted_abortHandle k s : AllCounted s -> AllCounted (abortHandle k s).
Proof.
  intros H c t. rewrite tasks_abortHandle. apply H.
Qed.

Lemma AllCounted_deleteDownload k rm avail s :
  AllCounted s -> AllCounted (deleteDownload k rm avail s).
Proof.
  intros H. unfold deleteDownload.
  pose proof (AllCounted_abortHandle k s H) as H1.
  destruct (deleteVideo avail k (storage (abortHandle k s)));
    destruct rm; exact H1.
Qed.

Lemma AllCounted_executeDownload m s :
  AllCounted s -> AllCounted (executeDownload m s).
Proof.
  intros H c t H0. unfold executeDownload in H0. simpl in H0.
  destruct (decide (nextController s = c)) as [<-|Hne].
  - rewrite lookup_insert_eq in H0. injection H0 as <-. apply Counted_start.
  - rewrite lookup_insert_ne in H0 by exact Hne. eapply H, H0.
Qed.

Lemma AllCounted_step e s s' :
  AllCounted s -> step e s = Some s' -> AllCounted s'.
Proof.
  intros H Hstep. destruct e; cbn [step] in Hstep.
  - stepped Hstep. unfold requestDownload.
    pose proof (AllCounted_deleteDownload (id movie) false avail s H) as Hd.
    destruct (List.find (is_movie (id movie)) (downloads s)) as [x|];
      [destruct (has_status paused x); [|exact H]|];
      destruct (0 <? activeCount (downloads s))%nat;
      try apply AllCounted_executeDownload; assumption.
  - stepped Hstep. apply (AllCounted_abortHandle k s H).
  - stepped Hstep. apply AllCounted_deleteDownload, H.
  - destruct (bool_decide (k ∈ pendingRemovals s)); [|discriminate].
    stepped Hstep. exact H.
  - stepped Hstep. unfold clearDelete.
    destruct (deleteVideo avail k (storage s)); exact H.
  - stepped Hstep. exact H.
  - stepped Hstep. unfold queueProcessor.
    destruct (activeCount (downloads s) =? 0)%nat; [|exact H].
    destruct (List.find (has_status queued) (downloads s)); [|exact H].
    destruct (List.find _ (movies s)); [|exact H].
    apply AllCounted_executeDownload, H.
  - destruct (tasks s !! c) as [t|] eqn:Et; [|discriminate].
    destruct (t_phase t); try discriminate.
    destruct (live c s); [|discriminate]. stepped Hstep.
    unfold fetchResolved. destruct hasBody; cbn [negb].
    + destruct (0 <? default 0 contentLength);
        apply AllCounted_update; try apply Counted_start; exact H.
    + apply AllCounted_finally, AllCounted_catchError, H.
  - destruct (tasks s !! c) as [t|] eqn:Et; [|discriminate].
    destruct (t_phase t); try discriminate.
    destruct (live c s); [|discriminate]. stepped Hstep.
    destruct (H c t Et) as [Hr [Hl0 Hl1]].
    pose proof (blobSize_snoc (t_chunks t) value) as Hsn.
    unfold chunkRead. destruct (800 <? now - t_lastTime t);
      apply AllCounted_update; try exact H;
      unfold Counted; cbn [t_receivedLength t_chunks t_lastReceived];
      rewrite Hsn; lia.
  - destruct (tasks s !! c) as [t|] eqn:Et; [|discriminate].
    destruct (t_phase t); try discriminate.
    destruct (live c s); [|discriminate]. stepped Hstep.
    pose proof (H c t Et) as Hc.
    unfold streamDone. destruct (saveVideo avail _ _ (storage s));
      apply AllCounted_update; try exact H; exact Hc.
  - destruct (tasks s !! c) as [t|]; [|discriminate].
    destruct (t_phase t) as [| |saved]; try discriminate. stepped Hstep.
    unfold saveSettled. destruct saved; apply AllCounted_finally.
    + exact H.
    + apply AllCounted_catchError, H.
  - destruct (tasks s !! c) as [t|]; [|discriminate].
    destruct (t_phase t); try discriminate; stepped Hstep;
      apply AllCounted_finally, AllCounted_catchError, H.
  - stepped Hstep. exact H.
Qed.

Lemma AllCounted_run es : forall s s',
  AllCounted s -> run es s = Some s' -> AllCounted s'.
Proof.
  induction es as [|e es IH]; simpl; intros s s' H Hrun.
  - stepped Hrun. exact H.
  - destruct (step e s) as [s1|] eqn:E; [|discriminate].
    apply (IH s1 s'); [eapply AllCounted_step; eauto | exact Hrun].
Qed.

Lemma AllCounted_initialState catalog saved st :
  AllCounted (initialState catalog saved st).
Proof.
  intros c t H. simpl in H. rewrite lookup_empty in H. discriminate.
Qed.

Lemma Qdiv_nonneg (a b : Q) : (0 <= a)%Q -> (0 < b)%Q -> (0 <= a / b)%Q.
Proof.
  intros Ha Hb. apply Qle_shift_div_l; [exact Hb|].
  rewrite Qmult_0_l. exact Ha.
Qed.

End Accounting.

(** X11. However the events of the application interleave, every
    activation in flight counts its bytes exactly: its counter of
    received bytes equals the size of the blob its chunks would be
    assembled into, and the counter kept at the last sample is between 0
    and it. *)
Theorem received_bytes_are_counted
    (catalog : list Movie) (saved : list DownloadItem) (st : Storage)
    (es : list Event) (s : AppState) (c : Controller) (t : Task) :
  run es (initialState catalog saved st) = Some s ->
  tasks s !! c = Some t ->
  t_receivedLength t = blobSize (newBlob (t_chunks t))
  /\ 0 <= t_lastReceived t <= t_receivedLength t.
Proof.
  intros Hrun Ht.
  refine (AllCounted_run es (initialState catalog saved st) s _ Hrun c t Ht).
  apply AllCounted_initialState.
Qed.

Lemma received_bytes_are_counted_witness :
  t_receivedLength midTask = blobSize (newBlob (t_chunks midTask))
  /\ 0 <= t_lastReceived midTask <= t_receivedLength midTask.
Proof.
  apply (received_bytes_are_counted [movieA; movieB; movieC] [] emptyStore
           [ RequestDownload movieA 0 true;
             FetchResolved 0%nat true (Some 8) 10;
             ChunkRead 0%nat fourBytes 20 ] midTransfer 0%nat).
  - vm_compute. reflexivity.
  - vm_compute. reflexivity.
Defined.

(** X12. In any state the application can reach, a chunk that arrives
    more than 800 ms after the last sample publishes a sample in which
    the recorded downloaded size is exactly the size of the bytes
    received so far (the blob that would be assembled, in megabytes) and
    the speed is not negative. *)
Theorem sample_is_exact
    (catalog : list Movie) (saved : list DownloadItem) (st : Storage)
    (es : list Event) (s : AppState) (c : Controller) (t : Task)
    (d : DownloadItem) (value : Chunk) (now : Z) :
  run es (initialState catalog saved st) = Some s ->
  tasks s !! c = Some t ->
  t_phase t = AwaitRead ->
  c ∉ aborted s ->
  getDownloadStatus (id (t_movie t)) (downloads s) = Some d ->
  800 < now - t_lastTime t ->
  exists s' d' v,
    step (ChunkRead c value now) s = Some s'
    /\ getDownloadStatus (id (t_movie t)) (downloads s') = Some d'
    /\ (downloadedSizeMB d' * MiB
        == inject_Z (blobSize (newBlob (t_chunks t ++ [value]))))%Q
    /\ speed d' = Some v
    /\ (0 <= v)%Q
    /\ status d' = status d.
Proof.
  intros Hrun Ht Hp Hlive Hd Hnow.
  destruct (AllCounted_run es (initialState catalog saved st) s
              (AllCounted_initialState catalog saved st) Hrun c t Ht)
    as [Hr [Hl0 Hl1]].
  exists (chunkRead c t value now s).
  assert (Hnow' : (800 <? now - t_lastTime t) = true) by (apply Z.ltb_lt, Hnow).
  unfold chunkRead. rewrite Hnow'.
  cbn [downloads setTasks setDownloads].
  rewrite getDownloadStatus_mapItem by reflexivity. rewrite Hd.
  eexists. eexists.
  split; [rewrite (step_ChunkRead c t value now s Ht Hp Hlive);
          unfold chunkRead; rewrite Hnow'; reflexivity|].
  split; [reflexivity|].
  cbn [downloadedSizeMB speed status with_speed with_totalSizeMB
       with_downloadedSizeMB with_progress].
  split; [|split; [reflexivity|split; [|reflexivity]]].
  - rewrite blobSize_snoc, <- Hr. apply bytes_of_MB.
  - apply Qdiv_nonneg.
    + apply Qdiv_nonneg; [|apply MiB_positive].
      change 0%Q with (inject_Z 0). rewrite <- Zle_Qle. lia.
    + apply Qlt_shift_div_l.
      * unfold Qlt. simpl. lia.
      * rewrite Qmult_0_l. change 0%Q with (inject_Z 0).
        rewrite <- Zlt_Qlt. lia.
Qed.

Lemma sample_is_exact_witness :
  exists s' d' v,
    step (ChunkRead 0%nat fourBytes 900) midTransfer = Some s'
    /\ getDownloadStatus "A" (downloads s') = Some d'
    /\ (downloadedSizeMB d' * MiB
        == inject_Z (blobSize (newBlob ([fourBytes] ++ [fourBytes]))))%Q
    /\ speed d' = Some v
    /\ (0 <= v)%Q
    /\ status d' = downloading.
Proof.
  apply (sample_is_exact [movieA; movieB; movieC] [] emptyStore
           [ RequestDownload movieA 0 true;
             FetchResolved 0%nat true (Some 8) 10;
             ChunkRead 0%nat fourBytes 20 ] midTransfer 0%nat midTask midItem
           fourBytes 900).
  - vm_compute. reflexivity.
  - vm_compute. reflexivity.
  - reflexivity.
  - vm_compute. discriminate.
  - vm_compute. reflexivity.
  - vm_compute. reflexivity.
Defined.

(** ** Clearing the completed items *)

(** The deletions of an activation of [clearCompleted] that the store
    answers. *)
Definition deletions (ks : list string) : list Event :=
  List.map (fun k => ClearDelete k true) ks.

Section ClearExactly.

Implicit Types (s : AppState) (ks : list string) (k : string).

Lemma deleteEach_other avail ks : forall st k,
  ~ In k ks ->
  blobs (fst (deleteEach avail ks st)) !! k = blobs st !! k.
Proof.
  induction ks as [|x ks IH]; intros st k Hk; simpl; [reflexivity|].
  unfold deleteVideo. destruct (avail x); simpl; [|reflexivity].
  rewrite IH by (intros H; apply Hk; right; exact H).
  simpl. apply lookup_delete_ne. intros ->. apply Hk. left. reflexivity.
Qed.

(** With no other event at its [await]s, the pieces of [clearCompleted]
    add up to the whole. *)
Lemma run_clearLoop avail ks : forall s,
  run (clearLoop avail ks) s
  = Some (match deleteEach avail ks (storage s) with
          | (st, None) => clearSettled (setStorage st s)
          | (st, Some _) => setStorage st s
          end).
Proof.
  induction ks as [|k ks IH]; intros s.
  - destruct s; reflexivity.
  - cbn [clearLoop deleteEach]. destruct (avail k) eqn:E.
    + change (run (ClearDelete k true :: clearLoop avail ks) s)
        with (run (clearLoop avail ks) (clearDelete k true s)).
      rewrite IH. unfold clearDelete, deleteVideo. cbn [negb storage setStorage].
      destruct (deleteEach avail ks _) as [st [e|]]; reflexivity.
    + unfold deleteVideo. cbn [negb]. destruct s; reflexivity.
Qed.

Lemma clearing_uninterrupted rendered avail s :
  run (clearing rendered avail) s
  = Some (fst (clearCompleted rendered avail s)).
Proof.
  unfold clearing, clearCompleted. rewrite run_clearLoop.
  destruct (deleteEach avail _ (storage s)) as [st [e|]]; reflexivity.
Qed.

Lemma clearLoop_available avail ks :
  (forall k, avail k = true) ->
  clearLoop avail ks = deletions ks ++ [ClearSettled].
Proof.
  intros Hav. induction ks as [|k ks IH]; simpl; [reflexivity|].
  rewrite Hav, IH. reflexivity.
Qed.

(** Deletions touch the store only, and in it only the blobs they name. *)
Lemma run_deletions ks : forall s,
  exists s1,
    run (deletions ks) s = Some s1
    /\ downloads s1 = downloads s
    /\ tasks s1 = tasks s
    /\ forall k, ~ In k ks ->
         blobs (storage s1) !! k = blobs (storage s) !! k.
Proof.
  induction ks as [|x ks IH]; intros s.
  - exists s. auto.
  - destruct (IH (clearDelete x true s)) as (s1 & Hrun & Hd & Ht & Hb).
    exists s1. split; [exact Hrun|]. split; [exact Hd|]. split; [exact Ht|].
    intros k Hk. rewrite Hb by (intros H; apply Hk; right; exact H).
    unfold clearDelete, deleteVideo. simpl.
    apply lookup_delete_ne. intros ->. apply Hk. left. reflexivity.
Qed.

(** An entry that has just been marked completed does not survive the
    last update of [clearCompleted]. *)
Lemma cleared_after_completion k (f : DownloadItem -> DownloadItem)
    (ds : list DownloadItem) :
  (forall d, status (f d) = completed) ->
  getDownloadStatus k
    (List.filter (fun d => negb (has_status completed d)) (mapItem k f ds))
  = None.
Proof.
  intros Hf. unfold getDownloadStatus.
  induction ds as [|d ds IH]; simpl; [reflexivity|].
  destruct (is_movie k d) eqn:E.
  - assert (Hc : has_status completed (f d) = true)
      by (apply has_status_true, Hf).
    rewrite Hc. simpl. exact IH.
  - destruct (has_status completed d); simpl; [exact IH|].
    rewrite E. exact IH.
Qed.

End ClearExactly.

(** X13. [clearCompleted] deletes the blobs of the items that the
    render of its handler shows as completed, and then drops every entry
    that is completed by then.  When the store answers every deletion
    and nothing else happens at its [await]s, it removes exactly the
    completed items: the entries left are the entries that were not
    completed, in their order; the blob of every completed item is gone;
    and the blob of an item none of whose entries is completed is still
    there.  But a transfer whose store write settles while the deletions
    are awaited, at whatever point between them, is marked completed and
    loses its entry in the last update, while its blob, which was not
    among those to delete, stays in the store. *)
Theorem clearCompleted_removes_exactly
    (avail : string -> bool) (s : AppState) :
  (forall k, avail k = true) ->
  let s' := fst (clearCompleted (downloads s) avail s) in
  let ks := List.map movieId
              (List.filter (has_status completed) (downloads s)) in
  clearing (downloads s) avail = deletions ks ++ [ClearSettled]
  /\ run (clearing (downloads s) avail) s = Some s'
  /\ snd (clearCompleted (downloads s) avail s) = None
  /\ downloads s'
     = List.filter (fun d => negb (has_status completed d)) (downloads s)
  /\ (forall d, In d (downloads s') <->
                In d (downloads s) /\ status d <> completed)
  /\ (forall d, In d (downloads s) -> status d = completed ->
        getVideo (movieId d) (storage s') = None)
  /\ (forall k,
        (forall d, In d (downloads s) -> movieId d = k ->
                   status d <> completed) ->
        getVideo k (storage s') = getVideo k (storage s))
  /\ (forall c t b ks1 ks2,
        ks = ks1 ++ ks2 ->
        tasks s !! c = Some t ->
        t_phase t = AwaitSave true ->
        getVideo (id (t_movie t)) (storage s) = Some b ->
        (forall d, In d (downloads s) -> movieId d = id (t_movie t) ->
                   status d <> completed) ->
        exists s2,
          run (deletions ks1 ++ SaveSettled c :: deletions ks2
               ++ [ClearSettled]) s = Some s2
          /\ getDownloadStatus (id (t_movie t)) (downloads s2) = None
          /\ getVideo (id (t_movie t)) (storage s2) = Some b).
Proof.
  intros Hav s' ks.
  destruct (clearCompleted_available avail s Hav) as (Hn & Hd & Hb).
  split; [apply clearLoop_available, Hav|].
  split; [apply clearing_uninterrupted|].
  split; [exact Hn|]. split; [exact Hd|].
  split; [|split; [exact Hb|split]].
  - intros d. unfold s'. rewrite Hd, List.filter_In.
    rewrite negb_true_iff. unfold has_status.
    rewrite bool_decide_eq_false. reflexivity.
  - intros k Hk. unfold s', clearCompleted, getVideo.
    pose proof (deleteEach_other avail
                  (List.map movieId
                     (List.filter (has_status completed) (downloads s)))
                  (storage s) k) as Ho.
    destruct (deleteEach avail _ (storage s)) as [st' [e|]]; simpl in *;
      apply Ho; intros Hin; apply List.in_map_iff in Hin as (d & Hdk & Hin);
      apply List.filter_In in Hin as [Hin Hc];
      apply has_status_true in Hc; exact (Hk d Hin Hdk Hc).
  - intros c t b ks1 ks2 Hks Ht Hp Hblob Hnot.
    assert (Hout : ~ In (id (t_movie t)) (ks1 ++ ks2)).
    { rewrite <- Hks. unfold ks. intros Hin.
      apply List.in_map_iff in Hin as (d & Hdk & Hin).
      apply List.filter_In in Hin as [Hin Hc].
      apply has_status_true in Hc. exact (Hnot d Hin Hdk Hc). }
    destruct (run_deletions ks1 s) as (s1 & Hrun1 & Hd1 & Ht1 & Hb1).
    set (s1' := saveSettled c t true s1).
    destruct (run_deletions ks2 s1') as (s1'' & Hrun2 & Hd2 & Ht2 & Hb2).
    exists (clearSettled s1''). split; [|split].
    + rewrite (run_app _ _ _ _ Hrun1).
      change (run (SaveSettled c :: deletions ks2 ++ [ClearSettled]) s1)
        with (match step (SaveSettled c) s1 with
              | Some x => run (deletions ks2 ++ [ClearSettled]) x
              | None => None
              end).
      cbn [step]. rewrite Ht1, Ht, Hp. fold s1'.
      rewrite (run_app _ _ _ _ Hrun2). reflexivity.
    + cbn [clearSettled downloads setDownloads]. rewrite Hd2.
      unfold s1', saveSettled. rewrite downloads_finally.
      cbn [downloads setDownloads]. rewrite Hd1.
      apply cleared_after_completion. reflexivity.
    + unfold getVideo in *. cbn [clearSettled storage setDownloads].
      rewrite Hb2 by (intros H; apply Hout, List.in_or_app; right; exact H).
      unfold s1', saveSettled, finally.
      cbn [storage setTasks releaseHandle setDownloads].
      rewrite Hb1 by (intros H; apply Hout, List.in_or_app; left; exact H).
      exact Hblob.
Qed.

(** A has been downloaded to the end and the store write of B has just
    succeeded: B is still shown as downloading. *)
Definition secondSaved : AppState :=
  after [ RequestDownload movieA 0 true; RequestDownload movieB 1 true;
          FetchResolved 0%nat true (Some 4) 10; ChunkRead 0%nat fourBytes 20;
          StreamDone 0%nat true; SaveSettled 0%nat; QueueProcessor;
          FetchResolved 1%nat true (Some 4) 30; ChunkRead 1%nat fourBytes 40;
          StreamDone 1%nat true ] freshApp.

Lemma clearCompleted_removes_exactly_witness :
  exists s2,
    run [ClearDelete "A" true; SaveSettled 1%nat; ClearSettled] secondSaved
    = Some s2
    /\ getDownloadStatus "B" (downloads s2) = None
    /\ getVideo "B" (storage s2) = Some fourBytes.
Proof.
  refine (proj2 (proj2 (proj2 (proj2 (proj2 (proj2 (proj2
    (clearCompleted_removes_exactly (fun _ => true) secondSaved
       (fun _ => eq_refl))))))))
    1%nat (mkTask movieB (AwaitSave true) 4 [fourBytes] 4 30 0) fourBytes
    ["A"] [] _ _ _ _ _).
  - vm_compute. reflexivity.
  - vm_compute. reflexivity.
  - reflexivity.
  - vm_compute. reflexivity.
  - intros d [<-|[<-|[]]]; vm_compute; discriminate.
Defined.

(** * The rest of the application component *)

(** ** Export of a completed download ([handleExport]) *)

(** A JS string as the sequence of its UTF-16 code units; a [string] of
    this development holds the units below 256. *)
Definition codeUnits (x : string) : list N :=
  List.map Ascii.N_of_ascii (String.list_ascii_of_string x).

(** A unit kept by [/[^a-z0-9]/gi]: without the [u] flag the
    case-insensitive class matches the ASCII letters and digits only. *)
Definition isAlnumUnit (u : N) : bool :=
  ((48 <=? u) && (u <=? 57) || (65 <=? u) && (u <=? 90)
   || (97 <=? u) && (u <=? 122))%N.

(** [.replace(/[^a-z0-9]/gi, '_')], one unit. *)
Definition replaceUnit (u : N) : N := if isAlnumUnit u then u else 95%N.

(** [.toLowerCase()], one unit; it is applied after the replacement, to
    ASCII letters, digits and underscores, among which it maps A-Z to
    a-z and fixes the others. *)
Definition lowerUnit (u : N) : N :=
  if ((65 <=? u) && (u <=? 90))%N then (u + 32)%N else u.

Definition exportStem (title : list N) : list N :=
  List.map lowerUnit (List.map replaceUnit title).

(** [".mp4"] *)
Definition mp4 : list N := [46; 109; 112; 52]%N.

(** [`${movie.title.replace(/[^a-z0-9]/gi, '_').toLowerCase()}.mp4`] *)
Definition exportFilename (title : list N) : list N := exportStem title ++ mp4.

Inductive ExportOutcome :=
  | ExportIgnored                                  (* [return] before the [try] *)
  | ExportSaved (filename : list N) (blob : Blob)  (* "Saved to Device Downloads" *)
  | ExportNotFound                                 (* "File not found in storage" *)
  | ExportFailed.                                  (* "Failed to export" *)

(** [handleExport]; [avail] tells whether the store answers [getVideo]
    or throws.  The item is looked up in [rendered], the collection of
    the render that made the handler. *)
Definition handleExport (rendered : list DownloadItem) (avail : bool)
    (movie : Movie) (s : AppState) : ExportOutcome :=
  match List.find (is_movie (id movie)) rendered with
  | Some item =>
      if negb (has_status completed item) then ExportIgnored
      else if negb avail then ExportFailed
      else match getVideo (id movie) (storage s) with
           | Some blob =>
               ExportSaved (exportFilename (codeUnits (title movie))) blob
           | None => ExportNotFound
           end
  | None => ExportIgnored
  end.

(** A lowercase ASCII letter, a digit or an underscore. *)
Definition isSafeUnit (u : N) : bool :=
  ((48 <=? u) && (u <=? 57) || (97 <=? u) && (u <=? 122) || (u =? 95))%N.

Section ExportFile.

(** Case analysis on the comparisons of a goal, innermost first. *)
Ltac plain a :=
  lazymatch a with
  | context [if _ then _ else _] => fail
  | _ => idtac
  end.

Ltac units :=
  unfold isSafeUnit, lowerUnit, replaceUnit, isAlnumUnit;
  repeat (match goal with
          | |- context [(?a <=? ?b)%N] =>
              plain a; plain b; destruct (N.leb_spec a b)
          | |- context [(?a =? ?b)%N] =>
              plain a; plain b; destruct (N.eqb_spec a b)
          end; cbn [andb orb negb]; cbv iota);
  try reflexivity; try lia.

Lemma safe_after_export u : isSafeUnit (lowerUnit (replaceUnit u)) = true.
Proof. units. Qed.

Lemma safe_is_kept u : isSafeUnit u = true -> lowerUnit (replaceUnit u) = u.
Proof. units; discriminate. Qed.

Lemma case_is_ignored u :
  lowerUnit (replaceUnit (lowerUnit u)) = lowerUnit (replaceUnit u).
Proof. units. Qed.

End ExportFile.

(** X14. The name under which a download is exported: it has one unit
    per unit of the title, so characters are replaced and none is
    dropped, followed by ".mp4"; its stem holds only lowercase ASCII
    letters, digits and underscores; a title made of such units only is
    kept as it is; and titles that differ only in the case of their
    ASCII letters get the same name. *)
Theorem export_filename_shape (title : list N) :
  length (exportFilename title) = (length title + 4)%nat
  /\ exportFilename title = exportStem title ++ mp4
  /\ Forall (fun u => isSafeUnit u = true) (exportStem title)
  /\ (Forall (fun u => isSafeUnit u = true) title -> exportStem title = title)
  /\ exportStem (exportStem title) = exportStem title
  /\ exportStem (List.map lowerUnit title) = exportStem title.
Proof.
  assert (Hsafe : Forall (fun u => isSafeUnit u = true) (exportStem title)).
  { unfold exportStem. rewrite List.map_map. apply Forall_forall.
    intros u Hu. apply list_elem_of_In, List.in_map_iff in Hu as (x & <- & _).
    apply safe_after_export. }
  assert (Hkeep : forall l, Forall (fun u => isSafeUnit u = true) l ->
                            exportStem l = l).
  { intros l Hl. unfold exportStem. rewrite List.map_map.
    induction Hl as [|u l Hu _ IH]; simpl; [reflexivity|].
    rewrite (safe_is_kept u Hu), IH. reflexivity. }
  split; [|split; [reflexivity|split; [exact Hsafe|split; [apply Hkeep|split]]]].
  - unfold exportFilename, exportStem.
    rewrite List.length_app, !List.length_map. reflexivity.
  - apply Hkeep, Hsafe.
  - unfold exportStem. rewrite !List.map_map. apply List.map_ext.
    intros u. apply case_is_ignored.
Qed.

Lemma export_filename_shape_witness :
  exportStem (codeUnits "big_buck_bunny") = codeUnits "big_buck_bunny".
Proof.
  refine (proj1 (proj2 (proj2 (proj2
    (export_filename_shape (codeUnits "big_buck_bunny"))))) _).
  apply Forall_forall. intros u Hu. apply list_elem_of_In in Hu.
  vm_compute in Hu.
  repeat (destruct Hu as [<-|Hu]; [reflexivity|]). contradiction.
Defined.

(** X15. Export after a successful transfer: when the stream of an
    activation ends, the store accepts the write and the completion step
    runs, exporting the movie hands over exactly the bytes received,
    under the name derived from its title. *)
Theorem export_after_completion
    (c : Controller) (t : Task) (d : DownloadItem) (s : AppState)
    (st : Storage) :
  tasks s !! c = Some t ->
  t_phase t = AwaitRead ->
  c ∉ aborted s ->
  getDownloadStatus (id (t_movie t)) (downloads s) = Some d ->
  saveVideo true (id (t_movie t)) (newBlob (t_chunks t)) (storage s) = inr st ->
  exists s2,
    run [StreamDone c true; SaveSettled c] s = Some s2
    /\ handleExport (downloads s2) true (t_movie t) s2
       = ExportSaved (exportFilename (codeUnits (title (t_movie t))))
                     (newBlob (t_chunks t)).
Proof.
  intros Ht Hp Hlive Hd Hsave.
  pose proof (step_StreamDone c t true s Ht Hp Hlive) as H1.
  assert (Hs1 : streamDone c t true s
                = setTasks (<[c := mkTask (t_movie t) (AwaitSave true)
                                (t_totalLength t) (t_chunks t)
                                (t_receivedLength t) (t_lastTime t)
                                (t_lastReceived t)]>) (setStorage st s)).
  { unfold streamDone. rewrite Hsave. reflexivity. }
  eexists. split.
  { cbn [run]. rewrite H1, Hs1. cbn [step]. simpl tasks.
    rewrite lookup_insert_eq. cbn [t_phase]. reflexivity. }
  unfold handleExport, saveSettled.
  rewrite downloads_finally. cbn [t_movie downloads setDownloads setTasks
                                  setStorage].
  fold (getDownloadStatus (id (t_movie t))
          (mapItem (id (t_movie t))
             (fun d0 => with_speed 0
                          (with_progress (inject_Z 100)
                             (with_status completed d0))) (downloads s))).
  rewrite getDownloadStatus_mapItem by reflexivity. rewrite Hd.
  cbn [option_map]. 
  change (has_status completed
            (with_speed 0 (with_progress (inject_Z 100)
                             (with_status completed d)))) with true.
  cbn [negb]. cbv iota.
  assert (Hst : storage
                  (finally c (t_movie t)
                     (setDownloads
                        (mapItem (id (t_movie t))
                           (fun d0 => with_speed 0
                                        (with_progress (inject_Z 100)
                                           (with_status completed d0))))
                        (setTasks
                           (<[c := mkTask (t_movie t) (AwaitSave true)
                                   (t_totalLength t) (t_chunks t)
                                   (t_receivedLength t) (t_lastTime t)
                                   (t_lastReceived t)]>) (setStorage st s))))
                = st) by reflexivity.
  rewrite Hst.
  rewrite (proj1 (saveVideo_stored _ _ _ _ _ Hsave)). reflexivity.
Qed.

Lemma export_after_completion_witness :
  exists s2,
    run [StreamDone 0%nat true; SaveSettled 0%nat] midTransfer = Some s2
    /\ handleExport (downloads s2) true movieA s2
       = ExportSaved (exportFilename (codeUnits "Alpha")) fourBytes.
Proof.
  apply (export_after_completion 0%nat midTask midItem midTransfer
           (mkStorage (<["A" := fourBytes]> ∅) 1000)).
  - vm_compute. reflexivity.
  - reflexivity.
  - vm_compute. discriminate.
  - vm_compute. reflexivity.
  - vm_compute. reflexivity.
Defined.

(** ** My List ([toggleWatchlist], [watchlistMovies]) *)

(** [prev.includes(movieId)] *)
Definition includes (k : string) (l : list string) : bool :=
  List.existsb (String.eqb k) l.

(** The updater of [toggleWatchlist]. *)
Definition toggleWatchlist (k : string) (prev : list string) : list string :=
  if includes k prev
  then List.filter (fun x => negb (String.eqb x k)) prev
  else prev ++ [k].

(** [movies.filter(m => watchlist.includes(m.id))] *)
Definition watchlistMovies (catalog : list Movie) (watchlist : list string)
    : list Movie :=
  List.filter (fun m => includes (id m) watchlist) catalog.

Section Watchlist.

Implicit Types (k : string) (l : list string).

Lemma includes_In k l : includes k l = true <-> In k l.
Proof.
  unfold includes. rewrite List.existsb_exists. split.
  - intros (x & Hx & He). apply String.eqb_eq in He. congruence.
  - intros H. exists k. split; [exact H|apply String.eqb_refl].
Qed.

Lemma includes_not_In k l : includes k l = false <-> ~ In k l.
Proof.
  rewrite <- includes_In. destruct (includes k l); split; intros H;
    try discriminate; try reflexivity; auto. exfalso. apply H. reflexivity.
Qed.

Lemma In_without k x l :
  In x (List.filter (fun y => negb (String.eqb y k)) l) <-> In x l /\ x <> k.
Proof.
  rewrite List.filter_In, negb_true_iff, String.eqb_neq. reflexivity.
Qed.

Lemma without_absent k l :
  ~ In k l -> List.filter (fun y => negb (String.eqb y k)) l = l.
Proof.
  induction l as [|x l IH]; simpl; intros H; [reflexivity|].
  destruct (String.eqb_spec x k) as [->|Hne]; simpl.
  - exfalso. apply H. left. reflexivity.
  - f_equal. apply IH. intros Hin. apply H. right. exact Hin.
Qed.

Lemma NoDup_without k l :
  NoDup l -> NoDup (List.filter (fun y => negb (String.eqb y k)) l).
Proof.
  induction l as [|x l IH]; simpl; intros H; [constructor|].
  apply NoDup_cons in H as [Hx Hl].
  destruct (negb (String.eqb x k)); [|auto].
  apply NoDup_cons. split; [|auto].
  intros Hin. apply Hx. apply list_elem_of_In in Hin.
  apply list_elem_of_In. apply In_without in Hin. tauto.
Qed.

Lemma In_toggleWatchlist k x l :
  In x (toggleWatchlist k l)
  <-> (x <> k /\ In x l) \/ (x = k /\ ~ In k l).
Proof.
  unfold toggleWatchlist. destruct (includes k l) eqn:E.
  - apply includes_In in E. rewrite In_without. split.
    + intros [H1 H2]. left. auto.
    + intros [[H1 H2]|[-> H2]]; [auto|contradiction].
  - apply includes_not_In in E. rewrite List.in_app_iff. simpl. split.
    + intros [H|[<-|[]]]; [|right; auto].
      left. split; [|exact H]. intros ->. contradiction.
    + intros [[H1 H2]|[-> H2]]; auto.
Qed.

Lemma watchlistMovies_ext catalog l l' :
  (forall k, In k l <-> In k l') ->
  watchlistMovies catalog l = watchlistMovies catalog l'.
Proof.
  intros H. unfold watchlistMovies. apply List.filter_ext. intros m.
  destruct (includes (id m) l) eqn:E.
  - symmetry. apply includes_In, H, includes_In, E.
  - symmetry. apply includes_not_In. intros Hin.
    apply includes_not_In in E. apply E, H, Hin.
Qed.

End Watchlist.

(** X16. Toggling a movie in My List flips its membership and nothing
    else: afterwards the movie is listed exactly when it was not before,
    every other id is listed exactly when it was, a list without
    duplicates stays without duplicates, and toggling twice a movie that
    was not listed gives the list back as it was. *)
Theorem toggleWatchlist_flips (k : string) (prev : list string) :
  (In k (toggleWatchlist k prev) <-> ~ In k prev)
  /\ (forall x, x <> k -> (In x (toggleWatchlist k prev) <-> In x prev))
  /\ (NoDup prev -> NoDup (toggleWatchlist k prev))
  /\ (~ In k prev -> toggleWatchlist k (toggleWatchlist k prev) = prev).
Proof.
  split; [|split; [|split]].
  - rewrite In_toggleWatchlist. split.
    + intros [[H _]|[_ H]]; [congruence|exact H].
    + intros H. right. auto.
  - intros x Hx. rewrite In_toggleWatchlist. split.
    + intros [[_ H]|[H _]]; [exact H|contradiction].
    + intros H. left. auto.
  - intros Hnd. unfold toggleWatchlist. destruct (includes k prev) eqn:E.
    + apply NoDup_without, Hnd.
    + apply includes_not_In in E. apply NoDup_app.
      split; [exact Hnd|]. split; [|apply NoDup_singleton].
      intros x Hx Hx'. apply list_elem_of_In in Hx.
      apply list_elem_of_In in Hx'. destruct Hx' as [<-|[]]. contradiction.
  - intros Habs. unfold toggleWatchlist at 2.
    rewrite (proj2 (includes_not_In k prev) Habs).
    unfold toggleWatchlist.
    assert (Hin : includes k (prev ++ [k]) = true).
    { apply includes_In, List.in_app_iff. right. left. reflexivity. }
    rewrite Hin, List.filter_app, (without_absent k prev Habs). simpl.
    rewrite String.eqb_refl. simpl. apply List.app_nil_r.
Qed.

(** X17. What My List shows depends only on which ids are listed and
    follows the order of the catalogue: a movie is shown exactly when it
    is in the catalogue and its id is listed; and toggling a movie twice
    never changes what is shown, even when the list itself comes back
    reordered. *)
Theorem watchlistMovies_after_two_toggles
    (catalog : list Movie) (k : string) (watchlist : list string) :
  (forall m, In m (watchlistMovies catalog watchlist)
             <-> In m catalog /\ In (id m) watchlist)
  /\ sublist (watchlistMovies catalog watchlist) catalog
  /\ watchlistMovies catalog (toggleWatchlist k (toggleWatchlist k watchlist))
     = watchlistMovies catalog watchlist.
Proof.
  split; [|split].
  - intros m. unfold watchlistMovies.
    rewrite List.filter_In, includes_In. reflexivity.
  - unfold watchlistMovies. induction catalog as [|m ms IH]; simpl.
    + constructor.
    + destruct (includes (id m) watchlist);
        [apply sublist_skip | apply sublist_cons]; exact IH.
  - apply watchlistMovies_ext. intros x.
    destruct (String.eqb_spec x k) as [->|Hne].
    + rewrite In_toggleWatchlist.
      destruct (List.in_dec String.string_dec k watchlist) as [Hin|Hout].
      * split; [intros _; exact Hin|]. intros _. right.
        split; [reflexivity|]. rewrite In_toggleWatchlist.
        intros [[H _]|[_ H]]; [congruence|contradiction].
      * split.
        -- intros [[H _]|[_ H]]; [congruence|].
           exfalso. apply H. apply In_toggleWatchlist. right. auto.
        -- intros H. contradiction.
    + rewrite In_toggleWatchlist. split.
      * intros [[_ H]|[H _]]; [|contradiction].
        apply In_toggleWatchlist in H as [[_ H]|[H _]];
          [exact H|contradiction].
      * intros H. left. split; [exact Hne|].
        apply In_toggleWatchlist. left. auto.
Qed.

(** ** Continue watching ([handlePlayerClose]) *)

Record WatchProgress := mkProgress {
  wp_movieId : string;
  timestamp : Q;        (* current time in seconds *)
  totalDuration : Q;
  lastWatched : Z;      (* [Date.now()] *)
}.

Definition Qltb (x y : Q) : bool := negb (Qle_bool y x).

(** *** The arithmetic of JS numbers

    A JS number is a double, and an arithmetic operation gives the exact
    result rounded to the nearest double, a tie going to the double
    whose last bit is 0 (IEEE 754 binary64).  The doubles are taken as
    the rationals they denote. *)

(** The integer nearest to [q], a tie going to the even one. *)
Definition nearestEven (q : Q) : Z :=
  let f := Qfloor q in
  match (q - inject_Z f ?= 1 # 2)%Q with
  | Lt => f
  | Eq => if Z.even f then f else f + 1
  | Gt => f + 1
  end.

(** The integer part of the binary logarithm of [q > 0]. *)
Definition ilog2 (q : Q) : Z :=
  let k := Z.log2 (Qnum q) - Z.log2 (Zpos (Qden q)) in
  if Qle_bool (2 ^ k) q then k else k - 1.

(** The binary exponent of the doubles around [a > 0]: they have 53
    significant bits, and below [2 ^ -1022] a fixed spacing. *)
Definition exponent (a : Q) : Z := Z.max (ilog2 a) (-1022).

(** The double nearest to [a > 0]. *)
Definition nearest (a : Q) : Q :=
  let ulp := (2 ^ (exponent a - 52))%Q in
  (inject_Z (nearestEven (a / ulp)) * ulp)%Q.

(** The double nearest to [q].  A magnitude beyond the largest double,
    which JS rounds to [Infinity], is kept finite: no comparison made
    below tells the two apart. *)
Definition binary64 (q : Q) : Q :=
  match (q ?= 0)%Q with
  | Eq => 0%Q
  | Gt => nearest q
  | Lt => (- nearest (- q))%Q
  end.

(** What the properties below use of the rounding [fl] of an operation:
    it is monotone, and [0.05 * 100] and [0.95 * 100] evaluate to [5]
    and to [95], [0.05] and [0.95] being the doubles nearest to 1/20 and
    to 19/20. *)
Record Rounding (fl : Q -> Q) : Prop := {
  fl_monotone : forall x y, (x <= y)%Q -> (fl x <= fl y)%Q;
  fl_low : (fl (fl (1 # 20) * inject_Z 100) <= inject_Z 5)%Q;
  fl_high : (inject_Z 95 <= fl (fl (19 # 20) * inject_Z 100))%Q;
}.

(** [const percentage = (progress / duration) * 100], each of the two
    operations rounded by [fl]. *)
Definition percentage (fl : Q -> Q) (p d : Q) : Q :=
  fl (fl (p / d) * inject_Z 100)%Q.

(** The updater of [watchProgress] in [handlePlayerClose]; [None] stands
    for an argument that is [undefined] and, for the duration, for one
    that is not a number, which fails [duration > 0] as well. *)
Definition handlePlayerClose (fl : Q -> Q) (activeMovie : option Movie)
    (position duration : option Q) (now : Z) (prev : list WatchProgress)
    : list WatchProgress :=
  match activeMovie, position, duration with
  | Some m, Some p, Some d =>
      if Qltb 0 d then
        let filtered :=
          List.filter (fun w => negb (String.eqb (wp_movieId w) (id m))) prev in
        if Qltb (inject_Z 5) (percentage fl p d)
           && Qltb (percentage fl p d) (inject_Z 95)
        then mkProgress (id m) p d now :: filtered
        else filtered
      else prev
  | _, _, _ => prev
  end.


(** The entry was left between 5% and 95% of a positive duration. *)
Definition Underway (w : WatchProgress) : Prop :=
  (0 < totalDuration w)%Q
  /\ (inject_Z 5 < timestamp w / totalDuration w * inject_Z 100)%Q
  /\ (timestamp w / totalDuration w * inject_Z 100 < inject_Z 95)%Q.

Section Doubles.

Lemma nearestEven_bounds q :
  Qfloor q <= nearestEven q <= Qfloor q + 1.
Proof.
  unfold nearestEven. destruct (q - inject_Z (Qfloor q) ?= 1 # 2)%Q;
    [destruct (Z.even (Qfloor q))| |]; lia.
Qed.

Lemma nearestEven_monotone q q' :
  (q <= q')%Q -> nearestEven q <= nearestEven q'.
Proof.
  intros H. pose proof (Qfloor_resp_le _ _ H) as Hf.
  pose proof (nearestEven_bounds q) as Hb.
  pose proof (nearestEven_bounds q') as Hb'.
  destruct (Z.eq_dec (Qfloor q) (Qfloor q')) as [He|Hne]; [|lia].
  unfold nearestEven. rewrite <- He.
  destruct (Qcompare_spec (q - inject_Z (Qfloor q)) (1 # 2)) as [E|E|E];
    destruct (Qcompare_spec (q' - inject_Z (Qfloor q)) (1 # 2)) as [E'|E'|E'];
    try (destruct (Z.even (Qfloor q))); try lia; exfalso; lra.
Qed.

Lemma nearestEven_comp q q' : (q == q')%Q -> nearestEven q = nearestEven q'.
Proof.
  intros H. apply Z.le_antisymm; apply nearestEven_monotone; rewrite H;
    apply Qle_refl.
Qed.

Lemma nearestEven_Z n : nearestEven (inject_Z n) = n.
Proof.
  unfold nearestEven. rewrite Qfloor_Z.
  destruct (Qcompare_spec (inject_Z n - inject_Z n) (1 # 2)) as [E|E|E];
    try reflexivity; exfalso; lra.
Qed.


Lemma two_power_positive k : (0 < 2 ^ k)%Q.
Proof. apply Qpower_0_lt. reflexivity. Qed.

Lemma two_power_succ k : (2 ^ (k + 1) == 2 * 2 ^ k)%Q.
Proof. rewrite Qpower_plus by discriminate. rewrite Qpower_1_r. ring. Qed.

Lemma ilog2_spec q :
  (0 < q)%Q -> (2 ^ ilog2 q <= q)%Q /\ (q < 2 ^ (ilog2 q + 1))%Q.
Proof.
  intros Hq. destruct q as [n d].
  assert (Hn : 0 < n) by (unfold Qlt in Hq; simpl in Hq; lia).
  pose proof (Z.log2_spec n Hn) as [Ha1 Ha2].
  pose proof (Z.log2_spec (Z.pos d) (Pos2Z.is_pos d)) as [Hb1 Hb2].
  pose proof (Z.log2_nonneg n) as Ha0.
  pose proof (Z.log2_nonneg (Z.pos d)) as Hb0.
  unfold ilog2. cbn [Qnum Qden].
  set (a := Z.log2 n) in *. set (b := Z.log2 (Z.pos d)) in *.
  assert (HN : ((n # d) * inject_Z (Z.pos d) == inject_Z n)%Q).
  { unfold Qeq, Qmult, inject_Z. simpl. lia. }
  assert (HX : (2 ^ (a - b) * 2 ^ b == 2 ^ a)%Q).
  { rewrite <- Qpower_plus by discriminate.
    replace (a - b + b) with a by lia. reflexivity. }
  assert (HTa : (2 ^ a == inject_Z (2 ^ a))%Q)
    by (symmetry; exact (Zpower_Qpower 2 a Ha0)).
  assert (HTb : (2 ^ b == inject_Z (2 ^ b))%Q)
    by (symmetry; exact (Zpower_Qpower 2 b Hb0)).
  rewrite HTa, HTb in HX. clear HTa HTb.
  pose proof (two_power_positive (a - b)) as HXpos.
  assert (HA1 : (inject_Z (2 ^ a) <= inject_Z n)%Q) by (rewrite <- Zle_Qle; exact Ha1).
  assert (HA2 : (inject_Z n < 2 * inject_Z (2 ^ a))%Q).
  { change (2 : Q) with (inject_Z 2). rewrite <- inject_Z_mult, <- Zlt_Qlt.
    rewrite Z.pow_succ_r in Ha2 by assumption. exact Ha2. }
  assert (HB1 : (inject_Z (2 ^ b) <= inject_Z (Z.pos d))%Q)
    by (rewrite <- Zle_Qle; exact Hb1).
  assert (HB2 : (inject_Z (Z.pos d) < 2 * inject_Z (2 ^ b))%Q).
  { change (2 : Q) with (inject_Z 2). rewrite <- inject_Z_mult, <- Zlt_Qlt.
    rewrite Z.pow_succ_r in Hb2 by assumption. exact Hb2. }
  assert (HD : (0 < inject_Z (Z.pos d))%Q) by reflexivity.
  assert (HTB : (0 < inject_Z (2 ^ b))%Q).
  { change 0%Q with (inject_Z 0). rewrite <- Zlt_Qlt. lia. }
  generalize dependent (inject_Z (2 ^ a)). generalize dependent (inject_Z (2 ^ b)).
  generalize dependent (inject_Z (Z.pos d)). generalize dependent (inject_Z n).
  intros N D HN HD TB HB1 HB2 HTB TA HX HA1 HA2.
  destruct (Qle_bool (2 ^ (a - b)) (n # d)) eqn:E.
  - apply Qle_bool_iff in E. split; [exact E|].
    rewrite two_power_succ.
    generalize dependent (2 ^ (a - b))%Q. generalize dependent (n # d).
    intros q Hq HN X HX HXpos E. nra.
  - assert (E' : (n # d < 2 ^ (a - b))%Q).
    { apply Qnot_le_lt. intros H. apply Qle_bool_iff in H. congruence. }
    replace (a - b - 1 + 1) with (a - b) by lia. split; [|exact E'].
    assert (Hh : (2 * 2 ^ (a - b - 1) == 2 ^ (a - b))%Q).
    { rewrite <- two_power_succ. replace (a - b - 1 + 1) with (a - b) by lia.
      reflexivity. }
    generalize dependent (2 ^ (a - b - 1))%Q.
    generalize dependent (2 ^ (a - b))%Q. generalize dependent (n # d).
    intros q Hq HN X HX HXpos E' Y Hh. nra.
Qed.


Lemma ilog2_monotone q q' :
  (0 < q)%Q -> (q <= q')%Q -> ilog2 q <= ilog2 q'.
Proof.
  intros Hq Hle.
  assert (Hq' : (0 < q')%Q) by (eapply Qlt_le_trans; eassumption).
  destruct (ilog2_spec q Hq) as [H1 _].
  destruct (ilog2_spec q' Hq') as [_ H2].
  assert (H : (2 ^ ilog2 q < 2 ^ (ilog2 q' + 1))%Q).
  { eapply Qle_lt_trans; [exact H1|]. eapply Qle_lt_trans; eassumption. }
  apply Qpower_lt_compat_l_inv in H; [lia|reflexivity].
Qed.

Lemma nearest_unfold a :
  nearest a
  = (inject_Z (nearestEven (a / 2 ^ (exponent a - 52))) * 2 ^ (exponent a - 52))%Q.
Proof. reflexivity. Qed.

(** The doubles with unit [2 ^ x] hold the multiples of the unit. *)
Lemma grid x k :
  0 <= k -> (2 ^ (x + k) == inject_Z (2 ^ k) * 2 ^ x)%Q.
Proof.
  intros Hk. rewrite Qpower_plus by discriminate.
  rewrite (Zpower_Qpower 2 k Hk). apply Qmult_comm.
Qed.

Lemma nearest_le_grid a x n :
  (a <= inject_Z n * 2 ^ x)%Q ->
  (inject_Z (nearestEven (a / 2 ^ x)) * 2 ^ x <= inject_Z n * 2 ^ x)%Q.
Proof.
  intros H. pose proof (two_power_positive x) as Hx.
  apply Qmult_le_compat_r; [|apply Qlt_le_weak, Hx].
  rewrite <- Zle_Qle. rewrite <- (nearestEven_Z n).
  apply nearestEven_monotone. apply Qle_shift_div_r; assumption.
Qed.

Lemma grid_le_nearest a x n :
  (inject_Z n * 2 ^ x <= a)%Q ->
  (inject_Z n * 2 ^ x <= inject_Z (nearestEven (a / 2 ^ x)) * 2 ^ x)%Q.
Proof.
  intros H. pose proof (two_power_positive x) as Hx.
  apply Qmult_le_compat_r; [|apply Qlt_le_weak, Hx].
  rewrite <- Zle_Qle. rewrite <- (nearestEven_Z n) at 1.
  apply nearestEven_monotone. apply Qle_shift_div_l; assumption.
Qed.

Lemma nearest_monotone a a' :
  (0 < a)%Q -> (a <= a')%Q -> (nearest a <= nearest a')%Q.
Proof.
  intros Ha Hle.
  assert (Ha' : (0 < a')%Q) by (eapply Qlt_le_trans; eassumption).
  pose proof (ilog2_monotone a a' Ha Hle) as Hlog.
  rewrite !nearest_unfold. unfold exponent.
  destruct (Z.eq_dec (Z.max (ilog2 a) (-1022)) (Z.max (ilog2 a') (-1022)))
    as [He|Hne].
  - rewrite <- He. set (x := Z.max (ilog2 a) (-1022) - 52).
    pose proof (two_power_positive x) as Hx.
    apply Qmult_le_compat_r; [|apply Qlt_le_weak, Hx].
    rewrite <- Zle_Qle. apply nearestEven_monotone.
    unfold Qdiv. apply Qmult_le_compat_r; [exact Hle|].
    apply Qinv_le_0_compat, Qlt_le_weak, Hx.
  - set (e := Z.max (ilog2 a) (-1022)) in *.
    set (e' := Z.max (ilog2 a') (-1022)) in *.
    assert (Hlt : e < e') by lia.
    assert (He' : e' = ilog2 a') by lia.
    destruct (ilog2_spec a Ha) as [_ Hup].
    destruct (ilog2_spec a' Ha') as [Hlow _].
    assert (H1 : (a <= inject_Z (2 ^ 53) * 2 ^ (e - 52))%Q).
    { rewrite <- grid by lia. replace (e - 52 + 53) with (e + 1) by lia.
      apply Qlt_le_weak. eapply Qlt_le_trans; [exact Hup|].
      apply Qpower_le_compat_l; [lia|discriminate]. }
    assert (H2 : (inject_Z (2 ^ 52) * 2 ^ (e' - 52) <= a')%Q).
    { rewrite <- grid by lia. replace (e' - 52 + 52) with e' by lia.
      rewrite He'. exact Hlow. }
    eapply Qle_trans; [apply nearest_le_grid, H1|].
    eapply Qle_trans; [|apply grid_le_nearest, H2].
    rewrite <- !grid by lia. apply Qpower_le_compat_l; [lia|discriminate].
Qed.

Lemma nearest_nonneg a : (0 < a)%Q -> (0 <= nearest a)%Q.
Proof.
  intros Ha. rewrite nearest_unfold.
  set (x := exponent a - 52). pose proof (two_power_positive x) as Hx.
  apply Qmult_le_0_compat; [|apply Qlt_le_weak, Hx].
  change 0%Q with (inject_Z 0). rewrite <- Zle_Qle.
  rewrite <- (nearestEven_Z 0). apply nearestEven_monotone.
  apply Qle_shift_div_l; [exact Hx|]. rewrite Qmult_0_l.
  apply Qlt_le_weak, Ha.
Qed.

Lemma binary64_monotone q q' :
  (q <= q')%Q -> (binary64 q <= binary64 q')%Q.
Proof.
  intros H. unfold binary64.
  destruct (Qcompare_spec q 0) as [E|E|E];
    destruct (Qcompare_spec q' 0) as [E'|E'|E']; try (exfalso; lra).
  - apply Qle_refl.
  - apply nearest_nonneg, E'.
  - assert (Hn : (0 <= nearest (- q))%Q) by (apply nearest_nonneg; lra). lra.
  - assert (Hn : (nearest (- q') <= nearest (- q))%Q)
      by (apply nearest_monotone; lra). lra.
  - assert (Hn : (0 <= nearest (- q))%Q) by (apply nearest_nonneg; lra).
    pose proof (nearest_nonneg q' E'). lra.
  - apply nearest_monotone; assumption.
Qed.

End Doubles.

(** The rounding to the nearest double is such a rounding. *)
Lemma Rounding_binary64 : Rounding binary64.
Proof.
  split.
  - apply binary64_monotone.
  - vm_compute. discriminate.
  - vm_compute. discriminate.
Qed.

Section ContinueWatching.

Lemma Qltb_lt x y : Qltb x y = true <-> (x < y)%Q.
Proof.
  unfold Qltb. rewrite negb_true_iff. split.
  - intros H. apply Qnot_le_lt. intros Hle.
    apply Qle_bool_iff in Hle. congruence.
  - intros H. destruct (Qle_bool y x) eqn:E; [|reflexivity].
    apply Qle_bool_iff in E. exfalso. exact (Qlt_not_le _ _ H E).
Qed.



Variable fl : Q -> Q.
Hypothesis rounding : Rounding fl.

(** A quotient of at most 1/20 gives a percentage of at most 5, and a
    quotient of at least 19/20 a percentage of at least 95. *)
Lemma percentage_low x :
  (x <= 1 # 20)%Q -> (fl (fl x * inject_Z 100) <= inject_Z 5)%Q.
Proof.
  intros H. eapply Qle_trans; [|apply (fl_low fl rounding)].
  apply (fl_monotone fl rounding).
  apply Qmult_le_compat_r; [|unfold Qle; simpl; lia].
  apply (fl_monotone fl rounding), H.
Qed.

Lemma percentage_high x :
  (19 # 20 <= x)%Q -> (inject_Z 95 <= fl (fl x * inject_Z 100))%Q.
Proof.
  intros H. eapply Qle_trans; [apply (fl_high fl rounding)|].
  apply (fl_monotone fl rounding).
  apply Qmult_le_compat_r; [|unfold Qle; simpl; lia].
  apply (fl_monotone fl rounding), H.
Qed.


(** A percentage computed strictly between 5 and 95 comes from a
    quotient strictly between 1/20 and 19/20. *)
Lemma percentage_inside p d :
  (inject_Z 5 < percentage fl p d)%Q ->
  (percentage fl p d < inject_Z 95)%Q ->
  (inject_Z 5 < p / d * inject_Z 100)%Q
  /\ (p / d * inject_Z 100 < inject_Z 95)%Q.
Proof.
  unfold percentage. intros H5 H95. split.
  - apply Qnot_le_lt. intros Hle.
    apply (Qlt_not_le _ _ H5). apply percentage_low.
    generalize dependent (p / d)%Q. intros x _ _ Hle.
    change (inject_Z 100) with (100 # 1)%Q in Hle.
    change (inject_Z 5) with (5 # 1)%Q in Hle. lra.
  - apply Qnot_le_lt. intros Hle.
    apply (Qlt_not_le _ _ H95). apply percentage_high.
    generalize dependent (p / d)%Q. intros x _ _ Hle.
    change (inject_Z 100) with (100 # 1)%Q in Hle.
    change (inject_Z 95) with (95 # 1)%Q in Hle. lra.
Qed.

End ContinueWatching.



(** X19. Continue Watching never holds a title left in its first or
    last 5%, nor two entries for one movie: whatever the player reports
    on closing (a movie or none, a position or none, a duration that is
    undefined, zero or negative), if every saved entry was left between
    5% and 95% of a positive duration and no movie had two entries, the
    same holds afterwards.  The percentage is the one the code computes
    in the arithmetic of JS numbers, with rounding to the nearest
    double. *)
Theorem watch_progress_stays_underway
    (fl : Q -> Q) (activeMovie : option Movie) (position duration : option Q)
    (now : Z) (prev : list WatchProgress) :
  Rounding fl ->
  Forall Underway prev ->
  NoDup (List.map wp_movieId prev) ->
  Forall Underway
    (handlePlayerClose fl activeMovie position duration now prev)
  /\ NoDup (List.map wp_movieId
              (handlePlayerClose fl activeMovie position duration now prev)).
Proof.
  intros Hfl Hu Hnd. unfold handlePlayerClose.
  destruct activeMovie as [m|]; [|auto].
  destruct position as [p|]; [|auto].
  destruct duration as [d|]; [|auto].
  destruct (Qltb 0 d) eqn:Ed; [|auto].
  set (filtered := List.filter
                     (fun w => negb (String.eqb (wp_movieId w) (id m))) prev).
  assert (Hf : Forall Underway filtered).
  { apply Forall_forall. intros w Hw. apply list_elem_of_In in Hw.
    apply List.filter_In in Hw as [Hw _].
    rewrite Forall_forall in Hu. apply Hu, list_elem_of_In, Hw. }
  assert (Hkeys : forall k, In k (List.map wp_movieId filtered) ->
                            In k (List.map wp_movieId prev) /\ k <> id m).
  { intros k Hk. apply List.in_map_iff in Hk as (w & <- & Hw).
    apply List.filter_In in Hw as [Hw Hne].
    apply negb_true_iff, String.eqb_neq in Hne.
    split; [apply List.in_map, Hw | exact Hne]. }
  assert (Hfn : NoDup (List.map wp_movieId filtered)).
  { unfold filtered. clear Hf Hkeys Hu.
    induction prev as [|w ws IH]; simpl; [constructor|].
    simpl in Hnd. apply NoDup_cons in Hnd as [Hw Hws].
    destruct (negb (String.eqb (wp_movieId w) (id m))); simpl; [|auto].
    apply NoDup_cons. split; [|auto].
    intros Hin. apply Hw. apply list_elem_of_In in Hin.
    apply list_elem_of_In. apply List.in_map_iff in Hin as (x & Hx & Hin).
    apply List.filter_In in Hin as [Hin _].
    apply List.in_map_iff. exists x. auto. }
  destruct (Qltb (inject_Z 5) (percentage fl p d)
            && Qltb (percentage fl p d) (inject_Z 95)) eqn:E;
    [|split; assumption].
  apply andb_true_iff in E as [H5 H95].
  apply Qltb_lt in H5. apply Qltb_lt in H95. split.
  - apply Forall_cons. split; [|exact Hf].
    unfold Underway. simpl. split; [apply Qltb_lt, Ed|].
    apply (percentage_inside fl Hfl); assumption.
  - simpl. apply NoDup_cons. split; [|exact Hfn].
    intros Hin. apply list_elem_of_In, Hkeys in Hin. tauto.
Qed.

Lemma watch_progress_stays_underway_witness :
  Forall Underway
    (handlePlayerClose binary64 (Some movieA) (Some (inject_Z 1190))
       (Some (inject_Z 1200)) 9
       [mkProgress "A" (inject_Z 600) (inject_Z 1200) 7]).
Proof.
  refine (proj1 (watch_progress_stays_underway binary64 (Some movieA)
                   (Some (inject_Z 1190)) (Some (inject_Z 1200)) 9
                   [mkProgress "A" (inject_Z 600) (inject_Z 1200) 7] _ _ _)).
  - apply Rounding_binary64.
  - apply Forall_cons. split; [|constructor].
    unfold Underway. simpl. repeat split; reflexivity.
  - simpl. apply NoDup_singleton.
Defined.

Lemma toggleWatchlist_flips_witness :
  toggleWatchlist "B" (toggleWatchlist "B" ["A"; "C"]) = ["A"; "C"].
Proof.
  refine (proj2 (proj2 (proj2 (toggleWatchlist_flips "B" ["A"; "C"]))) _).
  intros [H|[H|[]]]; discriminate H.
Defined.

(** ** The storage meter ([getStoragePercentage]) *)

(** [realStorage.quota === 0 ? 0 : (usage / quota) * 100] *)
Definition getStoragePercentage (used total : Q) : Q :=
  if Qeq_bool total 0 then 0%Q else (used / total * inject_Z 100)%Q.

(** X20. The storage meter is defined for every estimate: with a quota
    of 0 (an estimate that is not supported) it shows 0 instead of
    dividing by zero, and whenever the usage lies between 0 and the
    quota it shows a percentage between 0 and 100. *)
Theorem storage_meter_bounds (used total : Q) :
  ((total == 0)%Q -> getStoragePercentage used total = 0%Q)
  /\ ((0 <= used)%Q -> (used <= total)%Q ->
      (0 <= getStoragePercentage used total)%Q
      /\ (getStoragePercentage used total <= inject_Z 100)%Q).
Proof.
  unfold getStoragePercentage. split.
  - intros H. apply Qeq_bool_iff in H. rewrite H. reflexivity.
  - intros H0 Hle. destruct (Qeq_bool total 0) eqn:E.
    + split; [apply Qle_refl | unfold Qle; simpl; lia].
    + assert (Hpos : (0 < total)%Q).
      { assert (H0t : (0 <= total)%Q) by (eapply Qle_trans; eauto).
        apply Qle_lt_or_eq in H0t as [H|H]; [exact H|].
        symmetry in H. apply Qeq_bool_iff in H. congruence. }
      split.
      * apply Qmult_le_0_compat; [|unfold Qle; simpl; lia].
        apply Qle_shift_div_l; [exact Hpos|]. rewrite Qmult_0_l. exact H0.
      * rewrite <- (Qmult_1_l (inject_Z 100)) at 2.
        apply Qmult_le_compat_r; [|unfold Qle; simpl; lia].
        apply Qle_shift_div_r; [exact Hpos|]. rewrite Qmult_1_l. exact Hle.
Qed.

Lemma storage_meter_bounds_witness :
  (0 <= getStoragePercentage (inject_Z 250) (inject_Z 1000))%Q
  /\ (getStoragePercentage (inject_Z 250) (inject_Z 1000) <= inject_Z 100)%Q.
Proof.
  refine (proj2 (storage_meter_bounds (inject_Z 250) (inject_Z 1000)) _ _).
  - unfold Qle. simpl. lia.
  - unfold Qle. simpl. lia.
Defined.

(** ** Uploading a movie while downloads are queued *)

Section Catalogue.

Lemma find_movie_app (p : Movie -> bool) (ms : list Movie) (m : Movie) :
  List.find p (ms ++ [m])
  = match List.find p ms with
    | Some x => Some x
    | None => if p m then Some m else None
    end.
Proof.
  induction ms as [|x ms IH]; simpl; [reflexivity|].
  destruct (p x); [reflexivity|exact IH].
Qed.

End Catalogue.

(** X21. Uploading a movie and the queue.  An upload never changes which
    movie an id already in the catalogue resolves to.  If the movie of
    the first queued entry is in the catalogue (or nothing has to be
    promoted), running the queue processor after the upload is the same
    as uploading after running it.  If instead no item is downloading
    and the movie of the first queued entry is missing from the
    catalogue, the queue processor does nothing, and it promotes that
    entry as soon as a movie with its id has been uploaded. *)
Theorem upload_and_queue (m' : Movie) (s : AppState) :
  let s' := addMovie (movies s) m' s in
  let s1 := queueProcessor (downloads s) (movies s) s in
  (forall k m,
      List.find (fun x => String.eqb (id x) k) (movies s) = Some m ->
      List.find (fun x => String.eqb (id x) k) (movies s') = Some m)
  /\ ((forall q, activeCount (downloads s) = 0%nat ->
                 List.find (has_status queued) (downloads s) = Some q ->
                 exists m, List.find (fun x => String.eqb (id x) (movieId q))
                             (movies s) = Some m) ->
      queueProcessor (downloads s') (movies s') s' = addMovie (movies s1) m' s1)
  /\ (forall q,
      activeCount (downloads s) = 0%nat ->
      List.find (has_status queued) (downloads s) = Some q ->
      List.find (fun x => String.eqb (id x) (movieId q)) (movies s) = None ->
      s1 = s
      /\ (id m' = movieId q ->
          queueProcessor (downloads s') (movies s') s' = executeDownload m' s')).
Proof.
  intros s' s1. unfold s', s1. clear s' s1. split; [|split].
  - intros k m H. unfold addMovie. cbn [movies].
    rewrite find_movie_app, H. reflexivity.
  - intros Hres. unfold queueProcessor. cbn [downloads addMovie movies].
    destruct (activeCount (downloads s) =? 0)%nat eqn:E0; [|reflexivity].
    apply Nat.eqb_eq in E0.
    destruct (List.find (has_status queued) (downloads s)) as [q|] eqn:Eq;
      [|reflexivity].
    destruct (Hres q E0 eq_refl) as (m & Hm).
    rewrite find_movie_app, Hm. reflexivity.
  - intros q H0 Hq Hm. split.
    + unfold queueProcessor. rewrite H0, Hq, Hm. reflexivity.
    + intros Hid. unfold queueProcessor. cbn [downloads addMovie movies].
      rewrite H0, Hq, find_movie_app, Hm.
      rewrite Hid, String.eqb_refl. reflexivity.
Qed.

(** A movie uploaded in the admin panel and queued behind A, after a
    reload that kept the downloads but not the uploaded movie. *)
Definition uploaded : Movie := mkMovie "m1700000000000" "Untitled" "https://cdn.example/u.mp4".

Definition reloadedApp : AppState :=
  initialState [movieA; movieB; movieC]
    [ mkItem "A" (inject_Z 100) completed 172800000 0 0 (Some 0%Q);
      newItem uploaded 5 1 ] emptyStore.

Lemma upload_and_queue_witness :
  let s' := addMovie (movies reloadedApp) uploaded reloadedApp in
  queueProcessor (downloads reloadedApp) (movies reloadedApp) reloadedApp
  = reloadedApp
  /\ (id uploaded = movieId (newItem uploaded 5 1) ->
      queueProcessor (downloads s') (movies s') s' = executeDownload uploaded s').
Proof.
  refine (proj2 (proj2 (upload_and_queue uploaded reloadedApp))
            (newItem uploaded 5 1) _ _ _).
  - reflexivity.
  - reflexivity.
  - vm_compute. reflexivity.
Defined.

(** * Search and recommendations ([geminiService.ts]) *)

(** What the generative service contributes to a call: no API key is
    configured; the call returns and [JSON.parse(response.text || "[]")]
    yields the value [reply]; or the call throws, or the text is not
    JSON and [JSON.parse] throws. *)
Inductive ServiceAnswer :=
  | NoApiKey
  | Answered (reply : JSON)
  | ServiceFailed.

(** [s.includes(sub)], [String.prototype.includes] *)
Fixpoint stringIncludes (s sub : string) : bool :=
  if String.prefix sub s then true
  else match s with
       | EmptyString => false
       | String _ s' => stringIncludes s' sub
       end.

(** [l.includes(x)] for a string [x], [Array.prototype.includes]: an
    element equal to [x] is a string with the same characters. *)
Definition arrayIncludes (l : list JSON) (x : string) : bool :=
  List.existsb
    (fun j => match j with JString y => String.eqb y x | _ => false end) l.

(** [allMovies.filter(m => reply.includes(m.title))], or [None] when the
    call of [includes] throws a [TypeError]: a parsed value that is
    neither an array nor a string has no such method.  With no movie to
    test, [includes] is not called. *)
Definition filterByReply (reply : JSON) (allMovies : list Movie)
    : option (list Movie) :=
  match reply with
  | JArray l => Some (List.filter (fun m => arrayIncludes l (title m)) allMovies)
  | JString text =>
      Some (List.filter (fun m => stringIncludes text (title m)) allMovies)
  | _ => match allMovies with [] => Some [] | _ :: _ => None end
  end.

Section Gemini.

(** The [description] field of a movie, which the [Movie] record of this
    development does not carry, and [String.prototype.toLowerCase]. *)
Variable description : Movie -> string.
Variable toLowerCase : string -> string.

Definition getGeminiRecommendations (history allMovies : list Movie)
    (answer : ServiceAnswer) : list Movie :=
  match answer with
  | NoApiKey => firstn 3 allMovies
  | Answered recommendedTitles =>
      match filterByReply recommendedTitles allMovies with
      | Some recommended => recommended
      | None => firstn 3 allMovies            (* [catch (error)] *)
      end
  | ServiceFailed => firstn 3 allMovies
  end.

Definition searchMoviesWithGemini (query : string) (allMovies : list Movie)
    (answer : ServiceAnswer) : list Movie :=
  let byTitle :=
    List.filter
      (fun m => stringIncludes (toLowerCase (title m)) (toLowerCase query))
      allMovies in
  match answer with
  | NoApiKey =>
      List.filter
        (fun m =>
           stringIncludes (toLowerCase (title m)) (toLowerCase query)
           || stringIncludes (toLowerCase (description m)) (toLowerCase query))
        allMovies
  | Answered matchedTitles =>
      match filterByReply matchedTitles allMovies with
      | Some matched => matched
      | None => byTitle                       (* [catch (error)] *)
      end
  | ServiceFailed => byTitle
  end.

Lemma sublist_filter_movies (p : Movie -> bool) (ms : list Movie) :
  sublist (List.filter p ms) ms.
Proof.
  induction ms as [|m ms IH]; simpl; [constructor|].
  destruct (p m); [apply sublist_skip | apply sublist_cons]; exact IH.
Qed.

Lemma sublist_filter_weaker (p q : Movie -> bool) (ms : list Movie) :
  sublist (List.filter p ms) (List.filter (fun m => p m || q m) ms).
Proof.
  induction ms as [|m ms IH]; simpl; [constructor|].
  destruct (p m); simpl; [apply sublist_skip, IH|].
  destruct (q m); [apply sublist_cons, IH | exact IH].
Qed.

Lemma arrayIncludes_In l x : arrayIncludes l x = true <-> In (JString x) l.
Proof.
  unfold arrayIncludes. rewrite List.existsb_exists. split.
  - intros (j & Hj & He). destruct j; try discriminate.
    apply String.eqb_eq in He. subst. exact Hj.
  - intros H. exists (JString x). split; [exact H|apply String.eqb_refl].
Qed.

Lemma sublist_filterByReply reply ms l :
  filterByReply reply ms = Some l -> sublist l ms.
Proof.
  destruct reply; simpl; intros H;
    try (destruct ms; [|discriminate]);
    injection H as <-; try reflexivity; apply sublist_filter_movies.
Qed.

(** The replies on which [includes] can be called. *)
Definition hasIncludes (reply : JSON) : bool :=
  match reply with
  | JArray _ | JString _ => true
  | _ => false
  end.

Lemma filterByReply_throws reply m ms :
  hasIncludes reply = false -> filterByReply reply (m :: ms) = None.
Proof. destruct reply; simpl; intros H; try discriminate; reflexivity. Qed.

Lemma filterByReply_nothing reply :
  filterByReply reply [] = Some [].
Proof. destruct reply; reflexivity. Qed.

End Gemini.

(** X22. Recommendations are always drawn from the catalogue: whatever
    the service does, the result is a sublist of the catalogue in
    catalogue order.  A reply that parses to an array recommends exactly
    the catalogue movies whose title is one of its elements, so a title
    that is not in the catalogue adds nothing; a reply that parses to a
    string recommends exactly the catalogue movies whose title occurs
    in it as a substring; and without a key, on failure, and on a reply
    that parses to anything else (the call of [includes] throws), the
    result is the first three movies of the catalogue at most. *)
Theorem recommendations_from_catalogue
    (history allMovies : list Movie) (answer : ServiceAnswer) :
  sublist (getGeminiRecommendations history allMovies answer) allMovies
  /\ (forall titles m,
        answer = Answered (JArray titles) ->
        (In m (getGeminiRecommendations history allMovies answer)
         <-> In m allMovies /\ In (JString (title m)) titles))
  /\ (forall text m,
        answer = Answered (JString text) ->
        (In m (getGeminiRecommendations history allMovies answer)
         <-> In m allMovies /\ stringIncludes text (title m) = true))
  /\ (answer = NoApiKey \/ answer = ServiceFailed
      \/ (exists reply, answer = Answered reply /\ hasIncludes reply = false) ->
      getGeminiRecommendations history allMovies answer = firstn 3 allMovies
      /\ (length (getGeminiRecommendations history allMovies answer) <= 3)%nat).
Proof.
  split; [|split; [|split]].
  - destruct answer as [|reply|]; simpl; try apply sublist_take.
    destruct (filterByReply reply allMovies) as [l|] eqn:E.
    + eapply sublist_filterByReply, E.
    + apply sublist_take.
  - intros titles m ->. simpl.
    rewrite List.filter_In, arrayIncludes_In. reflexivity.
  - intros text m ->. simpl. rewrite List.filter_In. reflexivity.
  - intros H.
    assert (He : getGeminiRecommendations history allMovies answer
                 = firstn 3 allMovies).
    { destruct H as [-> | [-> | (reply & -> & Hr)]]; try reflexivity.
      simpl. destruct allMovies as [|m ms].
      - rewrite filterByReply_nothing. reflexivity.
      - rewrite filterByReply_throws by exact Hr. reflexivity. }
    split; [exact He|]. rewrite He, List.length_firstn. lia.
Qed.

Lemma recommendations_from_catalogue_witness :
  getGeminiRecommendations [] [movieA; movieB; movieC] (Answered JNull)
  = firstn 3 [movieA; movieB; movieC].
Proof.
  refine (proj1 (proj2 (proj2 (proj2
    (recommendations_from_catalogue [] [movieA; movieB; movieC]
       (Answered JNull)))) _)).
  right. right. exists JNull. split; reflexivity.
Defined.

(** X23. Search results are always drawn from the catalogue, in
    catalogue order, whatever the service does.  A reply that parses to
    an array selects exactly the catalogue movies whose title is one of
    its elements; a reply that parses to a string selects exactly those
    whose title occurs in it as a substring; a reply that parses to
    anything else makes the call of [includes] throw, and the result is
    that of the fallback used when the call fails.  That fallback, which
    looks at titles only, finds nothing that the fallback used without a
    key, which looks at titles and descriptions, would not find. *)
Theorem search_from_catalogue
    (description : Movie -> string) (toLowerCase : string -> string)
    (query : string) (allMovies : list Movie) (answer : ServiceAnswer) :
  let search := searchMoviesWithGemini description toLowerCase query allMovies in
  sublist (search answer) allMovies
  /\ (forall titles m,
        answer = Answered (JArray titles) ->
        (In m (search answer)
         <-> In m allMovies /\ In (JString (title m)) titles))
  /\ (forall text m,
        answer = Answered (JString text) ->
        (In m (search answer)
         <-> In m allMovies /\ stringIncludes text (title m) = true))
  /\ (forall reply,
        answer = Answered reply -> hasIncludes reply = false ->
        search answer = search ServiceFailed)
  /\ sublist (search ServiceFailed) (search NoApiKey).
Proof.
  intros search. unfold search. clear search.
  split; [|split; [|split; [|split]]].
  - destruct answer as [|reply|]; simpl; try apply sublist_filter_movies.
    destruct (filterByReply reply allMovies) as [l|] eqn:E.
    + eapply sublist_filterByReply, E.
    + apply sublist_filter_movies.
  - intros titles m ->. simpl.
    rewrite List.filter_In, arrayIncludes_In. reflexivity.
  - intros text m ->. simpl. rewrite List.filter_In. reflexivity.
  - intros reply -> Hr. simpl. destruct allMovies as [|m ms].
    + rewrite filterByReply_nothing. reflexivity.
    + rewrite filterByReply_throws by exact Hr. reflexivity.
  - simpl. apply sublist_filter_weaker.
Qed.

(** * The parental lock ([AdminPanel.tsx], the video player) *)

(** ** Saving a PIN ([handleSavePin]) *)

Definition isDigit (a : Ascii.ascii) : bool :=
  let n := Ascii.nat_of_ascii a in ((48 <=? n) && (n <=? 57))%nat.

(** [/^\d{4}$/.test(x)] *)
Definition fourDigits (x : string) : bool :=
  (String.length x =? 4)%nat
  && List.forallb isDigit (String.list_ascii_of_string x).

Inductive PinAnswer :=
  | PinNotFourDigits     (* "PIN must be exactly 4 digits." *)
  | PinsDoNotMatch       (* "PINs do not match." *)
  | PinUpdated.          (* "Parental Control PIN updated successfully." *)

(** [handleSavePin] on the items of [localStorage], kept as they are
    stored. *)
Definition handleSavePin (newPin confirmPin : string)
    (items : gmap string string) : PinAnswer * gmap string string :=
  if negb (fourDigits newPin) then (PinNotFourDigits, items)
  else if negb (String.eqb newPin confirmPin) then (PinsDoNotMatch, items)
  else (PinUpdated, <["parental_pin" := newPin]> items).

(** ** The lock of the player *)

Record Lock := mkLock {
  isLocked : bool;
  pin : string;
  unlockError : bool;
  isUnlocking : bool;
  correctPin : string;
  unlockTimers : nat;    (* pending [setTimeout(..., 1000)] of a success *)
  errorTimers : nat;     (* pending [setTimeout(..., 800)] of an error *)
}.

(** The state the player is mounted with, once the effect that loads the
    custom PIN has run: [if (storedPin) setCorrectPin(storedPin)]. *)
Definition openPlayer (isMature : bool) (items : gmap string string) : Lock :=
  mkLock isMature "" false false
    (match items !! "parental_pin" with
     | Some storedPin => if String.eqb storedPin "" then "1234" else storedPin
     | None => "1234"
     end) 0 0.

Definition verifyPin (inputPin : string) (l : Lock) : Lock :=
  if String.eqb inputPin (correctPin l)
  then mkLock (isLocked l) (pin l) false true (correctPin l)
              (S (unlockTimers l)) (errorTimers l)
  else mkLock (isLocked l) (pin l) true (isUnlocking l) (correctPin l)
              (unlockTimers l) (S (errorTimers l)).

Definition handlePinInput (num : string) (l : Lock) : Lock :=
  if isUnlocking l then l
  else if (String.length (pin l) <? 4)%nat then
    let newPin := String.append (pin l) num in
    let l1 := mkLock (isLocked l) newPin (unlockError l) (isUnlocking l)
                     (correctPin l) (unlockTimers l) (errorTimers l) in
    if (String.length newPin =? 4)%nat then verifyPin newPin l1 else l1
  else l.

(** [setPin(prev => prev.slice(0, -1))] *)
Fixpoint dropLast (x : string) : string :=
  match x with
  | EmptyString => EmptyString
  | String a EmptyString => EmptyString
  | String a rest => String a (dropLast rest)
  end.

Inductive LockEvent :=
  | Key (a : Ascii.ascii)     (* a key of the pad: [handlePinInput] with one character *)
  | Backspace
  | UnlockTimeout             (* the callback of the 1000 ms timer *)
  | ErrorTimeout.             (* the callback of the 800 ms timer *)

Definition lockStep (e : LockEvent) (l : Lock) : Lock :=
  match e with
  | Key a => handlePinInput (String a EmptyString) l
  | Backspace =>
      mkLock (isLocked l) (dropLast (pin l)) (unlockError l) (isUnlocking l)
             (correctPin l) (unlockTimers l) (errorTimers l)
  | UnlockTimeout =>
      match unlockTimers l with
      | O => l
      | S n => mkLock false (pin l) (unlockError l) false (correctPin l)
                      n (errorTimers l)
      end
  | ErrorTimeout =>
      match errorTimers l with
      | O => l
      | S n => mkLock (isLocked l) "" false (isUnlocking l) (correctPin l)
                      (unlockTimers l) n
      end
  end.

Definition lockRun (es : list LockEvent) (l : Lock) : Lock :=
  List.fold_left (fun l e => lockStep e l) es l.

(** Typing the characters of [x] on the pad, one key each. *)
Definition typed (x : string) : list LockEvent :=
  List.map Key (String.list_ascii_of_string x).

Section ParentalLock.

Implicit Types (l : Lock) (x : string).

Lemma four_characters x :
  String.length x = 4%nat ->
  exists a b c d,
    x = String a (String b (String c (String d EmptyString))).
Proof.
  destruct x as [|a [|b [|c [|d [|e x]]]]]; simpl; try discriminate.
  intros _. exists a, b, c, d. reflexivity.
Qed.

Lemma fourDigits_length x : fourDigits x = true -> String.length x = 4%nat.
Proof.
  unfold fourDigits. intros H. apply andb_true_iff in H as [H _].
  apply Nat.eqb_eq, H.
Qed.

(** Four keys typed into an empty buffer end in the verification of the
    four characters. *)
Lemma typed_four x l :
  String.length x = 4%nat ->
  pin l = EmptyString -> isUnlocking l = false ->
  lockRun (typed x) l
  = verifyPin x (mkLock (isLocked l) x (unlockError l) false (correctPin l)
                        (unlockTimers l) (errorTimers l)).
Proof.
  intros Hx Hp Hu. destruct (four_characters x Hx) as (a & b & c & d & ->).
  destruct l as [lk p ue iu cp ut et]. simpl in Hp, Hu. subst p iu.
  reflexivity.
Qed.

Lemma correctPin_lockStep e l : correctPin (lockStep e l) = correctPin l.
Proof.
  destruct e; simpl.
  - unfold handlePinInput, verifyPin. destruct (isUnlocking l); [reflexivity|].
    destruct (String.length (pin l) <? 4)%nat; [|reflexivity]. simpl.
    destruct (String.length (String.append (pin l) (String a EmptyString)) =? 4)%nat;
      [|reflexivity].
    simpl. destruct (String.eqb _ (correctPin l)); reflexivity.
  - reflexivity.
  - destruct (unlockTimers l); reflexivity.
  - destruct (errorTimers l); reflexivity.
Qed.

Lemma correctPin_lockRun es : forall l,
  correctPin (lockRun es l) = correctPin l.
Proof.
  induction es as [|e es IH]; intros l; simpl; [reflexivity|].
  unfold lockRun in IH. rewrite IH. apply correctPin_lockStep.
Qed.

Lemma length_dropLast x : (String.length (dropLast x) <= String.length x)%nat.
Proof.
  induction x as [|a x IH]; simpl; [lia|].
  destruct x as [|b x]; simpl in *; lia.
Qed.

Lemma length_append_key x a :
  String.length (String.append x (String a EmptyString))
  = S (String.length x).
Proof. induction x as [|b x IH]; simpl; [reflexivity|]. rewrite IH. reflexivity. Qed.

Lemma buffer_lockStep e l :
  (String.length (pin l) <= 4)%nat ->
  (String.length (pin (lockStep e l)) <= 4)%nat.
Proof.
  intros H. destruct e; simpl.
  - unfold handlePinInput, verifyPin. destruct (isUnlocking l); [exact H|].
    destruct (Nat.ltb_spec (String.length (pin l)) 4); [|exact H]. simpl.
    destruct (String.length (String.append (pin l) (String a EmptyString)) =? 4)%nat;
      simpl; [destruct (String.eqb _ (correctPin l)); simpl|];
      rewrite length_append_key; lia.
  - pose proof (length_dropLast (pin l)). lia.
  - destruct (unlockTimers l); simpl; exact H.
  - destruct (errorTimers l); simpl; [exact H|lia].
Qed.

(** Locked, not unlocking, and no unlock pending. *)
Definition Shut (l : Lock) : Prop :=
  isLocked l = true /\ isUnlocking l = false /\ unlockTimers l = 0%nat.

Lemma Shut_lockStep e l :
  Shut l -> Shut (lockStep e l) \/ pin (lockStep e l) = correctPin l.
Proof.
  intros (Hl & Hu & Ht). destruct e; simpl.
  - unfold handlePinInput. rewrite Hu.
    destruct (String.length (pin l) <? 4)%nat; [|left; repeat split; auto].
    simpl.
    destruct (String.length (String.append (pin l) (String a EmptyString)) =? 4)%nat;
      [|left; repeat split; auto].
    unfold verifyPin. simpl.
    destruct (String.eqb_spec (String.append (pin l) (String a EmptyString))
                (correctPin l)) as [He|Hne]; simpl.
    + right. exact He.
    + left. repeat split; auto.
  - left. repeat split; auto.
  - rewrite Ht. left. repeat split; auto.
  - destruct (errorTimers l); left; repeat split; auto.
Qed.

End ParentalLock.

(** X24. The admin panel stores a PIN exactly when it consists of four
    decimal digits and the confirmation repeats it; a player opened
    afterwards enforces that PIN; and a rejected form leaves the stored
    items, hence the PIN in force, as they were. *)
Theorem saved_pin_is_enforced
    (newPin confirmPin : string) (items : gmap string string) :
  (fst (handleSavePin newPin confirmPin items) = PinUpdated
   <-> fourDigits newPin = true /\ newPin = confirmPin)
  /\ (fst (handleSavePin newPin confirmPin items) = PinUpdated ->
      forall isMature,
        correctPin (openPlayer isMature
                      (snd (handleSavePin newPin confirmPin items))) = newPin)
  /\ (fst (handleSavePin newPin confirmPin items) <> PinUpdated ->
      snd (handleSavePin newPin confirmPin items) = items).
Proof.
  unfold handleSavePin.
  destruct (fourDigits newPin) eqn:Ef; simpl.
  - destruct (String.eqb_spec newPin confirmPin) as [He|Hne]; simpl.
    + split; [split; auto|]. split; [|intros H; exfalso; apply H; reflexivity].
      intros _ isMature. unfold openPlayer. simpl.
      rewrite lookup_insert_eq.
      destruct (four_characters newPin (fourDigits_length _ Ef))
        as (a & b & c & d & ->). reflexivity.
    + split; [split; [discriminate|intros [_ H]; contradiction]|].
      split; [discriminate|reflexivity].
  - split; [split; [discriminate|intros [H _]; discriminate]|].
    split; [discriminate|reflexivity].
Qed.

Lemma saved_pin_is_enforced_witness :
  correctPin (openPlayer true (snd (handleSavePin "4711" "4711" ∅))) = "4711".
Proof.
  refine (proj1 (proj2 (saved_pin_is_enforced "4711" "4711" ∅)) _ true).
  reflexivity.
Defined.

(** X25. A PIN saved in the admin panel can be typed on the pad of the
    player: after the form is accepted, a locked player opened for a
    mature title starts unlocking when the four characters of the PIN
    are typed and is unlocked when the timer fires; any other four keys
    leave it locked with the error shown and no unlock pending, and the
    buffer is emptied for a new attempt when the error timer fires. *)
Theorem typing_the_saved_pin_unlocks
    (newPin confirmPin : string) (items : gmap string string) :
  fst (handleSavePin newPin confirmPin items) = PinUpdated ->
  let l0 := openPlayer true (snd (handleSavePin newPin confirmPin items)) in
  isLocked l0 = true
  /\ isUnlocking (lockRun (typed newPin) l0) = true
  /\ isLocked (lockStep UnlockTimeout (lockRun (typed newPin) l0)) = false
  /\ (forall wrong,
        String.length wrong = 4%nat -> wrong <> newPin ->
        let l2 := lockRun (typed wrong) l0 in
        isLocked l2 = true
        /\ isUnlocking l2 = false
        /\ unlockError l2 = true
        /\ isLocked (lockStep UnlockTimeout l2) = true
        /\ pin (lockStep ErrorTimeout l2) = EmptyString).
Proof.
  intros Hok l0.
  assert (Hcp : correctPin l0 = newPin).
  { unfold handleSavePin in Hok |- *. unfold l0, handleSavePin.
    destruct (fourDigits newPin) eqn:Ef; [|discriminate Hok].
    destruct (String.eqb newPin confirmPin); [|discriminate Hok]. simpl.
    unfold openPlayer. simpl. rewrite lookup_insert_eq.
    destruct (four_characters newPin (fourDigits_length _ Ef))
      as (a & b & c & d & ->). reflexivity. }
  assert (Hlen : String.length newPin = 4%nat).
  { unfold handleSavePin in Hok.
    destruct (fourDigits newPin) eqn:Ef; [|discriminate Hok].
    apply fourDigits_length, Ef. }
  assert (Hrun : forall x, String.length x = 4%nat ->
             lockRun (typed x) l0
             = verifyPin x (mkLock true x false false newPin 0 0)).
  { intros x Hx. rewrite (typed_four x l0 Hx eq_refl eq_refl).
    rewrite Hcp. reflexivity. }
  split; [reflexivity|].
  rewrite (Hrun newPin Hlen). unfold verifyPin. simpl.
  rewrite String.eqb_refl. simpl.
  split; [reflexivity|]. split; [reflexivity|].
  intros wrong Hw Hne. rewrite (Hrun wrong Hw).
  unfold verifyPin. simpl.
  destruct (String.eqb_spec wrong newPin) as [He|_]; [contradiction|].
  simpl. auto.
Qed.

Lemma typing_the_saved_pin_unlocks_witness :
  isLocked
    (lockStep UnlockTimeout
       (lockRun (typed "4711")
          (openPlayer true (snd (handleSavePin "4711" "4711" ∅))))) = false.
Proof.
  refine (proj1 (proj2 (proj2
    (typing_the_saved_pin_unlocks "4711" "4711" ∅ _)))).
  reflexivity.
Defined.

(** X26. The lock opens only on the correct PIN.  Over any sequence of
    keys, backspaces and timer callbacks the buffer never holds more
    than four characters; and if a player that is locked, with no
    unlocking under way, is found unlocked or unlocking after such a
    sequence, then at some point of the sequence the buffer held exactly
    the correct PIN. *)
Theorem lock_opens_only_on_correct_pin (es : list LockEvent) (l : Lock) :
  ((String.length (pin l) <= 4)%nat ->
   (String.length (pin (lockRun es l)) <= 4)%nat)
  /\ (isLocked l = true -> isUnlocking l = false -> unlockTimers l = 0%nat ->
      isLocked (lockRun es l) = false \/ isUnlocking (lockRun es l) = true ->
      exists es1 es2,
        es = es1 ++ es2 /\ pin (lockRun es1 l) = correctPin l).
Proof.
  split.
  - revert l. induction es as [|e es IH]; intros l H; simpl; [exact H|].
    apply (IH (lockStep e l)), buffer_lockStep, H.
  - intros Hl Hu Ht. assert (Hs : Shut l) by (repeat split; assumption).
    clear Hl Hu Ht. revert l Hs.
    induction es as [|e es IH]; intros l Hs Hopen.
    + destruct Hs as (Hl & Hu & _). simpl in Hopen.
      destruct Hopen; congruence.
    + destruct (Shut_lockStep e l Hs) as [Hs1|Hpin].
      * destruct (IH (lockStep e l) Hs1 Hopen) as (es1 & es2 & -> & Hp).
        exists (e :: es1), es2. split; [reflexivity|].
        change (lockRun (e :: es1) l) with (lockRun es1 (lockStep e l)).
        rewrite Hp. apply correctPin_lockStep.
      * exists [e], es. split; [reflexivity|exact Hpin].
Qed.

Lemma lock_opens_only_on_correct_pin_witness :
  exists es1 es2,
    typed "1234" ++ [UnlockTimeout] = es1 ++ es2
    /\ pin (lockRun es1 (openPlayer true ∅)) = correctPin (openPlayer true ∅).
Proof.
  refine (proj2 (lock_opens_only_on_correct_pin
                   (typed "1234" ++ [UnlockTimeout]) (openPlayer true ∅))
            _ _ _ _).
  - reflexivity.
  - reflexivity.
  - reflexivity.
  - left. reflexivity.
Defined.
